(** * croppass: face-anchored 3:4 crop geometry and the batch pipeline

    A shallow embedding of [croppass.py]: the crop geometry
    ([calculate_3_4_crop]), the detection wrapper ([get_face_bbox]), the
    batch worker ([CropWorker.run]) and the handlers of the main window
    ([PortraitApp]).

    Python's [float] is IEEE-754 binary64.  It is modelled by the Standard
    Library's [spec_float] at precision 53 and exponent bound 1024, the same
    specification Rocq's primitive floats are checked against; [int] is [Z].
    Code that can raise returns a [res]; an exception carries the text
    [str(e)] gives. *)

From Stdlib Require Import ZArith List Bool String Ascii Lia Reals Lra.
From Stdlib Require Import SpecFloat.
Import ListNotations.

Local Open Scope Z_scope.

(** ** Exceptions and results *)

(** An exception as the program observes it: its class, always a subclass
    of [Exception], and what [str(e)] gives. *)
Record exn : Type := { exn_class : string; exn_message : string }.

(** [str(e)], line 112. *)
Definition str_exn (e : exn) : string := exn_message e.

Definition OverflowError (msg : string) : exn :=
  {| exn_class := "OverflowError"; exn_message := msg |}.
Definition ValueError (msg : string) : exn :=
  {| exn_class := "ValueError"; exn_message := msg |}.
Definition ZeroDivisionError (msg : string) : exn :=
  {| exn_class := "ZeroDivisionError"; exn_message := msg |}.
Definition OSError (msg : string) : exn :=
  {| exn_class := "OSError"; exn_message := msg |}.

(** [str] of a [KeyError] is the [repr] of the missing key: the key between
    single quotes, for a key of letters, digits and underscores. *)
Definition KeyError (key : string) : exn :=
  {| exn_class := "KeyError"; exn_message := "'" ++ key ++ "'" |}.

Inductive res (A : Type) : Type :=
| Ok (a : A)
| Raise (e : exn).

Arguments Ok {A} a.
Arguments Raise {A} e.

Definition bind {A B : Type} (r : res A) (k : A -> res B) : res B :=
  match r with
  | Ok a => k a
  | Raise e => Raise e
  end.

Notation "x <- c1 ;; c2" := (bind c1 (fun x => c2))
  (at level 61, c1 at next level, right associativity).
Notation "' pat <- c1 ;; c2" := (bind c1 (fun x => match x with pat => c2 end))
  (at level 61, pat pattern, c1 at next level, right associativity).

(** ** Python numbers *)

Definition prec : Z := 53.
Definition emax : Z := 1024.

Definition float : Type := spec_float.

Definition fmul : float -> float -> float := SFmul prec emax.
Definition fsub : float -> float -> float := SFsub prec emax.
Definition fdiv : float -> float -> float := SFdiv prec emax.

(** [float(z)] for an [int]: the nearest double, ties to even;
    [OverflowError] when [z] is too large. *)
Definition float_of_int (z : Z) : res float :=
  match binary_normalize prec emax z 0 false with
  | S754_infinity _ => Raise (OverflowError "int too large to convert to float")
  | f => Ok f
  end.

(** An integer as an exact, not normalised, float: the operand of a
    correctly rounded integer quotient. *)
Definition raw_int (z : Z) : float :=
  match z with
  | Z0 => S754_zero false
  | Zpos p => S754_finite false p 0
  | Zneg p => S754_finite true p 0
  end.

(** [a / b] on two [int]s: the correctly rounded quotient. *)
Definition int_truediv (a b : Z) : res float :=
  if b =? 0 then Raise (ZeroDivisionError "division by zero")
  else match fdiv (raw_int a) (raw_int b) with
       | S754_infinity _ =>
           Raise (OverflowError "integer division result too large for a float")
       | f => Ok f
       end.

(** [x / y] on two [float]s. *)
Definition float_truediv (x y : float) : res float :=
  match y with
  | S754_zero _ => Raise (ZeroDivisionError "float division by zero")
  | _ => Ok (fdiv x y)
  end.

(** Mixed arithmetic converts the [int] operand first. *)
Definition int_mul_float (z : Z) (f : float) : res float :=
  x <- float_of_int z ;; Ok (fmul x f).

Definition float_mul_int (f : float) (z : Z) : res float :=
  x <- float_of_int z ;; Ok (fmul f x).

Definition int_div_float (z : Z) (f : float) : res float :=
  x <- float_of_int z ;; float_truediv x f.

Definition int_sub_float (z : Z) (f : float) : res float :=
  x <- float_of_int z ;; Ok (fsub x f).

(** [int(f)]: truncation toward zero. *)
Definition int_of_float (f : float) : res Z :=
  match f with
  | S754_nan => Raise (ValueError "cannot convert float NaN to integer")
  | S754_infinity _ => Raise (OverflowError "cannot convert float infinity to integer")
  | S754_zero _ => Ok 0
  | S754_finite s m e =>
      Ok (cond_Zopp s (if 0 <=? e then Zpos m * 2 ^ e else Zpos m / 2 ^ (- e)))
  end.

(** [z < f] for an [int] and a [float]: Python compares the exact values. *)
Definition int_lt_float (z : Z) (f : float) : bool :=
  match f with
  | S754_nan => false
  | S754_infinity s => negb s
  | S754_zero _ => z <? 0
  | S754_finite s m e =>
      if 0 <=? e then z <? cond_Zopp s (Zpos m) * 2 ^ e
      else z * 2 ^ (- e) <? cond_Zopp s (Zpos m)
  end.

(** A decimal literal [n / 10^k] is read as the nearest double. *)
Definition decimal_literal (n : Z) (k : Z) : float :=
  fdiv (raw_int n) (raw_int (10 ^ k)).

(** ** Configuration *)

Definition SUPPORTED_EXT : list string := [".png"; ".jpg"; ".jpeg"]%string.

Definition PORTRAIT_ASPECT_RATIO : float :=
  Eval vm_compute in fdiv (raw_int 3) (raw_int 4).
Definition VERTICAL_EXPANSION_FACTOR : float :=
  Eval vm_compute in decimal_literal 18 1.
Definition FACE_HORIZONTAL_PADDING : float :=
  Eval vm_compute in decimal_literal 11 1.
Definition FACE_VERTICAL_ANCHOR : float :=
  Eval vm_compute in decimal_literal 23 2.

(** ** Crop geometry *)

Definition bbox : Type := (Z * Z * Z * Z)%type.

(** Lines 57-62: the crop size from the face size. *)
Definition crop_size (w_f h_f : Z) : res (Z * Z) :=
  H_crop <- (t <- int_mul_float h_f VERTICAL_EXPANSION_FACTOR ;; int_of_float t) ;;
  W_crop <- (t <- int_mul_float H_crop PORTRAIT_ASPECT_RATIO ;; int_of_float t) ;;
  padded <- int_mul_float w_f FACE_HORIZONTAL_PADDING ;;
  if int_lt_float W_crop padded then
    W_crop <- int_of_float padded ;;
    H_crop <- (t <- int_div_float W_crop PORTRAIT_ASPECT_RATIO ;; int_of_float t) ;;
    Ok (W_crop, H_crop)
  else Ok (W_crop, H_crop).

(** The test of line 60. *)
Definition width_driven (w_f h_f : Z) : res bool :=
  H_crop <- (t <- int_mul_float h_f VERTICAL_EXPANSION_FACTOR ;; int_of_float t) ;;
  W_crop <- (t <- int_mul_float H_crop PORTRAIT_ASPECT_RATIO ;; int_of_float t) ;;
  padded <- int_mul_float w_f FACE_HORIZONTAL_PADDING ;;
  Ok (int_lt_float W_crop padded).

(** Lines 64-65: the placement before clamping. *)
Definition crop_origin (x0_f y0_f x1_f W_crop H_crop : Z) : res (Z * Z) :=
  y0_c <- (a <- int_mul_float H_crop FACE_VERTICAL_ANCHOR ;;
           t <- int_sub_float y0_f a ;; int_of_float t) ;;
  x0_c <- (c <- int_truediv (x0_f + x1_f) 2 ;;
           h <- int_truediv W_crop 2 ;;
           int_of_float (fsub c h)) ;;
  Ok (x0_c, y0_c).

Definition calculate_3_4_crop (face_bbox : bbox) (img_w img_h : Z) : res bbox :=
  let '(x0_f, y0_f, x1_f, y1_f) := face_bbox in
  let w_f := x1_f - x0_f in
  let h_f := y1_f - y0_f in
  '(W_crop, H_crop) <- crop_size w_f h_f ;;
  '(x0_c, y0_c) <- crop_origin x0_f y0_f x1_f W_crop H_crop ;;
  let x0_c := Z.max 0 (Z.min x0_c (img_w - W_crop)) in
  let y0_c := Z.max 0 (Z.min y0_c (img_h - H_crop)) in
  Ok (x0_c, y0_c, x0_c + W_crop, y0_c + H_crop).

(** ** Face detection wrapper *)

(** The [facial_area] entry of a detected face: [x], [y], [w], [h]. *)
Record area : Type := { area_x : Z; area_y : Z; area_w : Z; area_h : Z }.

(** One dict of the detector's answer; the key ["facial_area"] may be absent. *)
Record face : Type := { facial_area : option area }.

Definition has_facial_area (d : face) : bool :=
  match facial_area d with Some _ => true | None => false end.

(** [d["facial_area"]] *)
Definition get_facial_area (d : face) : res area :=
  match facial_area d with
  | Some a => Ok a
  | None => Raise (KeyError "facial_area")
  end.

(** The key of line 46. *)
Definition area_key (d : face) : res Z :=
  a <- get_facial_area d ;; Ok (area_w a * area_h a).

(** [max(l, key=key)]: the key of every item is computed, in order, and an
    item replaces the current maximum only when its key is strictly
    greater. *)
Fixpoint max_from {A : Type} (key : A -> res Z) (best : A) (best_key : Z)
  (l : list A) : res A :=
  match l with
  | [] => Ok best
  | d :: l' =>
      k <- key d ;;
      if best_key <? k then max_from key d k l' else max_from key best best_key l'
  end.

Definition py_max {A : Type} (key : A -> res Z) (l : list A) : res A :=
  match l with
  | [] => Raise (ValueError "max() iterable argument is empty")
  | d :: l' => k <- key d ;; max_from key d k l'
  end.

(** Lines 37-49, the body of the [try]; [detected] is what
    [DeepFace.extract_faces] did: an answer or an exception. *)
Definition select_face (detected : res (list face)) : res (option bbox) :=
  detected_faces <- detected ;;
  if match detected_faces with [] => true | _ => false end
     || negb (existsb has_facial_area detected_faces)
  then Ok None
  else
    largest <- py_max area_key detected_faces ;;
    a <- get_facial_area largest ;;
    Ok (Some (area_x a, area_y a, area_x a + area_w a, area_y a + area_h a)).

(** The bare [except:] of line 50. *)
Definition catch_all {A : Type} (r : res A) (default : A) : A :=
  match r with
  | Ok a => a
  | Raise _ => default
  end.

(** ** Files, images and the collaborators of the worker *)

(** An entry of the recursive listing: a file or a directory. *)
Record path : Type := {
  path_parent : list string;   (* [path.parent], relative to the input root *)
  path_name : string;          (* [path.name] *)
  path_suffix : string         (* [path.suffix] *)
}.

(** A directory, by its components. *)
Definition dir : Type := list string.

Record image : Type := { img_pixels : Z; img_size : Z * Z }.

Inductive format : Type := JPEG | PNG.

(** The outside world of one run: what the file system, the image codec and
    the detector answer. *)
Record world : Type := {
  rglob : list path;                   (* [in_dir.rglob("*")]: files and directories *)
  is_dir : path -> bool;               (* the entry is a directory *)
  open_dir_error : path -> exn;        (* what opening that directory raises *)
  decode_rgb : path -> res image;      (* [Image.open(path).convert("RGB")] on a file *)
  to_array : image -> res image;
  extract_faces : image -> res (list face);
  crop_image : image -> bbox -> res image;
  dir_exists : dir -> bool;            (* the directory exists when the run starts *)
  mkdir_fails : dir -> bool;           (* [os.mkdir] cannot create this directory *)
  mkdir_error : dir -> dir -> exn;     (* what [target.mkdir(...)] then raises *)
  save_image : image -> dir -> string -> format -> res unit
}.

(** Line 96.  [Image.open] opens the entry for reading, which raises an
    [OSError] on a directory ([IsADirectoryError], or [PermissionError] on
    Windows). *)
Definition open_rgb (w : world) (p : path) : res image :=
  if is_dir w p then Raise (open_dir_error w p) else decode_rgb w p.

Definition get_face_bbox (w : world) (img : image) : res (option bbox) :=
  img_np <- to_array w img ;;
  Ok (catch_all (select_face (extract_faces w img_np)) None).

(** ** The worker *)

Definition lower_ascii (c : ascii) : ascii :=
  let n := nat_of_ascii c in
  if (Nat.leb 65 n && Nat.leb n 90)%bool then ascii_of_nat (n + 32) else c.

Fixpoint lower (s : string) : string :=
  match s with
  | EmptyString => EmptyString
  | String c s' => String (lower_ascii c) (lower s')
  end.

Definition in_strings (s : string) (l : list string) : bool :=
  existsb (String.eqb s) l.

Definition supported (f : path) : bool :=
  in_strings (lower (path_suffix f)) SUPPORTED_EXT.

(** The three log lines of the loop and the one of the empty listing. *)
Inductive log_line : Type :=
| LogNoImages
| LogSuccess (name : string)
| LogNoFace (name : string)
| LogError (name : string) (msg : string).

Inductive signal : Type :=
| SigLog (l : log_line)
| SigProgress (p : Z)
| SigFinished.

Record state : Type := {
  emitted : list signal;              (* oldest first *)
  dirs : list dir;                    (* directories created, newest first *)
  saved : list (dir * string * format)  (* files written, newest first *)
}.

Definition emit (s : signal) (st : state) : state :=
  {| emitted := emitted st ++ [s]; dirs := dirs st; saved := saved st |}.

Definition add_dir (d : dir) (st : state) : state :=
  {| emitted := emitted st; dirs := d :: dirs st; saved := saved st |}.

Definition add_file (d : dir) (n : string) (f : format) (st : state) : state :=
  {| emitted := emitted st; dirs := dirs st; saved := (d, n, f) :: saved st |}.

Definition same_dir (d d' : dir) : bool :=
  if list_eq_dec string_dec d d' then true else false.

(** The directory is there: it was before the run, or the run created it. *)
Definition present (w : world) (st : state) (d : dir) : bool :=
  dir_exists w d || existsb (same_dir d) (dirs st).

(** A directory and the directories above it, outermost first. *)
Definition ancestors (d : dir) : list dir :=
  map (fun k => firstn k d) (seq 1 (List.length d)).

(** Creating, outermost first, those of [ds] that are not there; the first
    one that cannot be created ends the call with its error. *)
Fixpoint make_dirs (w : world) (target : dir) (ds : list dir) (st : state)
  : state * res unit :=
  match ds with
  | [] => (st, Ok tt)
  | d :: rest =>
      if present w st d then make_dirs w target rest st
      else if mkdir_fails w d then (st, Raise (mkdir_error w target d))
      else make_dirs w target rest (add_dir d st)
  end.

(** Line 104, [target.mkdir(parents=True, exist_ok=True)]: every missing
    directory on the way to [target] is created, and a directory that is
    there is left alone. *)
Definition mkdir (w : world) (target : dir) (st : state) : state * res unit :=
  make_dirs w target (ancestors target) st.

(** Lines 96-110, the body of the [try]: the state reached and either the
    log line to emit or the exception that left the body. *)
Definition try_body (w : world) (out_dir : dir) (p : path) (st : state)
  : state * res log_line :=
  match open_rgb w p with
  | Raise e => (st, Raise e)
  | Ok img =>
  match get_face_bbox w img with
  | Raise e => (st, Raise e)
  | Ok None => (st, Ok (LogNoFace (path_name p)))
  | Ok (Some bb) =>
  match calculate_3_4_crop bb (fst (img_size img)) (snd (img_size img)) with
  | Raise e => (st, Raise e)
  | Ok c =>
  match crop_image w img c with
  | Raise e => (st, Raise e)
  | Ok final_img =>
  let target_dir := (out_dir ++ path_parent p)%list in
  match mkdir w target_dir st with
  | (st, Raise e) => (st, Raise e)
  | (st, Ok _) =>
  let ext := if in_strings (lower (path_suffix p)) [".jpg"; ".jpeg"]%string
             then JPEG else PNG in
  match save_image w final_img target_dir (path_name p) ext with
  | Raise e => (st, Raise e)
  | Ok _ => (add_file target_dir (path_name p) ext st, Ok (LogSuccess (path_name p)))
  end end end end end end.

(** One iteration without the progress signal: the [try] and its
    [except Exception]. *)
Definition process_file (w : world) (out_dir : list string) (p : path) (st : state)
  : state :=
  match try_body w out_dir p st with
  | (st', Ok l) => emit (SigLog l) st'
  | (st', Raise e) => emit (SigLog (LogError (path_name p) (str_exn e))) st'
  end.

(** Line 114: [int(((i + 1) / len(files)) * 100)]. *)
Definition progress_value (i n : Z) : res Z :=
  q <- int_truediv (i + 1) n ;;
  t <- float_mul_int q 100 ;;
  int_of_float t.

(** The loop of line 94 from index [i] on; [n] is [len(files)].  An
    exception outside the [try] ends the run. *)
Fixpoint loop (w : world) (out_dir : list string) (n i : Z) (files : list path)
  (st : state) : res state :=
  match files with
  | [] => Ok st
  | p :: rest =>
      let st := process_file w out_dir p st in
      v <- progress_value i n ;;
      loop w out_dir n (i + 1) rest (emit (SigProgress v) st)
  end.

Definition initial : state := {| emitted := []; dirs := []; saved := [] |}.

Definition run (w : world) (out_dir : list string) : res state :=
  let files := filter supported (rglob w) in
  match files with
  | [] => Ok (emit SigFinished (emit (SigLog LogNoImages) initial))
  | _ =>
      st <- loop w out_dir (Z.of_nat (List.length files)) 0 files initial ;;
      Ok (emit SigFinished st)
  end.

(** ** Observations on a run *)

Definition is_log (s : signal) : bool :=
  match s with SigLog _ => true | _ => false end.

Definition is_finished (s : signal) : bool :=
  match s with SigFinished => true | _ => false end.

Definition logs (st : state) : list log_line :=
  flat_map (fun s => match s with SigLog l => [l] | _ => [] end) (emitted st).

Definition progress_values (st : state) : list Z :=
  flat_map (fun s => match s with SigProgress v => [v] | _ => [] end) (emitted st).

(** The outcome a log line carries. *)
Inductive outcome : Type :=
| Cropped
| NoFaceFound
| Failed (reason : string).

Definition outcome_of (l : log_line) : option outcome :=
  match l with
  | LogNoImages => None
  | LogSuccess _ => Some Cropped
  | LogNoFace _ => Some NoFaceFound
  | LogError _ m => Some (Failed m)
  end.

(** ** Reading binary64 numbers as reals, and the rest of the vocabulary *)

(** Where the fraction [N / D] lies between [N / D] rounded down and the
    next integer: exactly on it, below, at, or above the middle. *)
Definition loc_of (N D : Z) : location :=
  if N mod D =? 0 then loc_Exact else loc_Inexact (2 * (N mod D) ?= D).

(** A shift record stands for the fraction [N / D]: its mantissa is the
    integer part, its round and sticky bits place the rest. *)
Definition represents (mrs : shr_record) (N D : Z) : Prop :=
  shr_m mrs = N / D /\ loc_of_shr_record mrs = loc_of N D.

(** The mantissa [binary_round_aux] keeps after dropping [n] bits of
    [N / D]. *)
Definition rounded_mantissa (N D n : Z) : Z :=
  round_nearest_even (N / (D * 2 ^ n)) (loc_of N (D * 2 ^ n)).

Definition bpow (e : Z) : R := powerRZ 2 e.

(** The real number a float stands for (0 for the non-finite ones). *)
Definition SF2R (f : float) : R :=
  match f with
  | S754_finite s m e => (IZR (cond_Zopp s (Zpos m)) * bpow e)%R
  | _ => 0%R
  end.

(** A normal binary64 number: 53 significant bits, exponent in range. *)
Definition normal (f : float) : Prop :=
  match f with
  | S754_finite _ m e => 2 ^ 52 <= Zpos m < 2 ^ 53 /\ -1074 <= e <= 971
  | _ => False
  end.

Definition expo (f : float) : Z :=
  match f with
  | S754_finite _ _ e => e
  | _ => 0
  end.

(** A zero or a normal number. *)
Definition well_formed (f : float) : Prop :=
  match f with
  | S754_zero _ => True
  | S754_finite _ _ _ => normal f
  | _ => False
  end.

(** [r] is at least as close to [x] as every number with a mantissa of at
    most 53 bits. *)
Definition nearest (x r : R) : Prop :=
  forall k e : Z, Z.abs k < 2 ^ 53 ->
  (Rabs (r - x) <= Rabs (IZR k * bpow e - x))%R.

(** [f] is a binary64 rounding of the real [x]. *)
Definition rounds_to (x : R) (f : float) : Prop :=
  well_formed f /\ nearest x (SF2R f).

Definition signed (s : bool) (x : R) : R := if s then (- x)%R else x.

(** What the run has created is what could be created. *)
Definition created_ok (w : world) (st : state) : Prop :=
  forall d, In d (dirs st) -> mkdir_fails w d = false.

(** What the [try] body of one file ends with. *)
Definition file_result (w : world) (out_dir : list string) (p : path) : res log_line :=
  snd (try_body w out_dir p initial).

(** The log line of one file. *)
Definition file_log (w : world) (out_dir : list string) (p : path) : log_line :=
  match file_result w out_dir p with
  | Ok l => l
  | Raise e => LogError (path_name p) (str_exn e)
  end.

(** The two signals of one iteration. *)
Definition signals_of (w : world) (out_dir : list string) (pv : path * Z) : list signal :=
  [SigLog (file_log w out_dir (fst pv)); SigProgress (snd pv)].


(** Case analysis along the stages of the [try] body that come before the
    directory is made. *)
Ltac walk_stages :=
  repeat (match goal with
          | |- context [open_rgb ?w ?p] => destruct (open_rgb w p)
          | |- context [get_face_bbox ?w ?i] => destruct (get_face_bbox w i) as [[? | ] | ]
          | |- context [calculate_3_4_crop ?b ?x ?y] => destruct (calculate_3_4_crop b x y)
          | |- context [crop_image ?w ?i ?c] => destruct (crop_image w i c)
          end;
          cbn [fst snd]).

(** ** The specification's side *)

(** Coordinates of a bounding box: pixel positions of an image whose sides
    are machine integers. *)
Definition pixel_coordinate (z : Z) : Prop := Z.abs z < 2 ^ 31.

(** Following the specification's word [round]: the nearest integer, ties
    to the even one (Python's [round] on a [float]). *)
Definition spec_round (f : float) : res Z :=
  match f with
  | S754_nan => Raise (ValueError "cannot convert float NaN to integer")
  | S754_infinity _ => Raise (OverflowError "cannot convert float infinity to integer")
  | S754_zero _ => Ok 0
  | S754_finite s m e =>
      Ok (cond_Zopp s
            (if 0 <=? e then Zpos m * 2 ^ e
             else
               let d := 2 ^ (- e) in
               let q := Zpos m / d in
               match 2 * (Zpos m mod d) ?= d with
               | Lt => q
               | Gt => q + 1
               | Eq => if Z.even q then q else q + 1
               end))
  end.

(** Steps 2 and 3 of the specification's algorithm, with [round]. *)
Definition spec_crop_size (faceW faceH : Z) : res (Z * Z) :=
  cropH <- (t <- int_mul_float faceH VERTICAL_EXPANSION_FACTOR ;; spec_round t) ;;
  cropW <- (t <- int_mul_float cropH PORTRAIT_ASPECT_RATIO ;; spec_round t) ;;
  padded <- int_mul_float faceW FACE_HORIZONTAL_PADDING ;;
  if int_lt_float cropW padded then
    cropW <- spec_round padded ;;
    cropH <- (t <- int_div_float cropW PORTRAIT_ASPECT_RATIO ;; spec_round t) ;;
    Ok (cropW, cropH)
  else Ok (cropW, cropH).

(** Steps 4 and 5 of the specification's algorithm, with [round]. *)
Definition spec_crop_origin (x0 y0 x1 cropW cropH : Z) : res (Z * Z) :=
  y0_crop <- (a <- int_mul_float cropH FACE_VERTICAL_ANCHOR ;;
              t <- int_sub_float y0 a ;; spec_round t) ;;
  x0_crop <- (c <- int_truediv (x0 + x1) 2 ;;
              h <- int_truediv cropW 2 ;;
              spec_round (fsub c h)) ;;
  Ok (x0_crop, y0_crop).

(** The specification's [round(completedCount/totalCount*100)]. *)
Definition spec_progress_value (completedCount totalCount : Z) : res Z :=
  q <- int_truediv completedCount totalCount ;;
  t <- float_mul_int q 100 ;;
  spec_round t.

(** The specification's [round(cropW/cropH, 2)], in hundredths, on the exact
    quotient. *)
Definition ratio_2dp (cropW cropH : Z) : Z :=
  let q := 100 * cropW / cropH in
  match 2 * ((100 * cropW) mod cropH) ?= cropH with
  | Lt => q
  | Gt => q + 1
  | Eq => if Z.even q then q else q + 1
  end.

(** Following the specification's glossary: an eligible file is a file
    matching one of the supported extensions. *)
Definition eligible (w : world) (p : path) : bool :=
  negb (is_dir w p) && supported p.

(** The resilience contract, as amended, stage by stage: the outcome of one
    entry from what the collaborators answer.  An exception at any stage
    but detection gives [Failed] with the exception's message; an exception
    of the detector gives [NoFaceFound], like an answer without a usable
    face; when every stage succeeds the outcome is [Cropped]. *)
Inductive stage_outcome (w : world) (out_dir : dir) (p : path) : outcome -> Prop :=
| decode_raises (e : exn) :
    open_rgb w p = Raise e ->
    stage_outcome w out_dir p (Failed (str_exn e))
| conversion_raises (img : image) (e : exn) :
    open_rgb w p = Ok img ->
    to_array w img = Raise e ->
    stage_outcome w out_dir p (Failed (str_exn e))
| detector_raises (img img_np : image) (e : exn) :
    open_rgb w p = Ok img ->
    to_array w img = Ok img_np ->
    extract_faces w img_np = Raise e ->
    stage_outcome w out_dir p NoFaceFound
| no_face (img : image) :
    open_rgb w p = Ok img ->
    get_face_bbox w img = Ok None ->
    stage_outcome w out_dir p NoFaceFound
| crop_raises (img : image) (bb : bbox) (e : exn) :
    open_rgb w p = Ok img ->
    get_face_bbox w img = Ok (Some bb) ->
    calculate_3_4_crop bb (fst (img_size img)) (snd (img_size img)) = Raise e ->
    stage_outcome w out_dir p (Failed (str_exn e))
| crop_image_raises (img : image) (bb c : bbox) (e : exn) :
    open_rgb w p = Ok img ->
    get_face_bbox w img = Ok (Some bb) ->
    calculate_3_4_crop bb (fst (img_size img)) (snd (img_size img)) = Ok c ->
    crop_image w img c = Raise e ->
    stage_outcome w out_dir p (Failed (str_exn e))
| mkdir_raises (img final_img : image) (bb c : bbox) (above below : list dir) (d : dir) :
    open_rgb w p = Ok img ->
    get_face_bbox w img = Ok (Some bb) ->
    calculate_3_4_crop bb (fst (img_size img)) (snd (img_size img)) = Ok c ->
    crop_image w img c = Ok final_img ->
    ancestors (out_dir ++ path_parent p) = (above ++ d :: below)%list ->
    (forall a, In a above -> dir_exists w a = true \/ mkdir_fails w a = false) ->
    dir_exists w d = false ->
    mkdir_fails w d = true ->
    stage_outcome w out_dir p
      (Failed (str_exn (mkdir_error w (out_dir ++ path_parent p) d)))
| encode_raises (img final_img : image) (bb c : bbox) (e : exn) :
    open_rgb w p = Ok img ->
    get_face_bbox w img = Ok (Some bb) ->
    calculate_3_4_crop bb (fst (img_size img)) (snd (img_size img)) = Ok c ->
    crop_image w img c = Ok final_img ->
    (forall a, In a (ancestors (out_dir ++ path_parent p)) ->
       dir_exists w a = true \/ mkdir_fails w a = false) ->
    save_image w final_img (out_dir ++ path_parent p) (path_name p)
      (if in_strings (lower (path_suffix p)) [".jpg"; ".jpeg"]%string
       then JPEG else PNG) = Raise e ->
    stage_outcome w out_dir p (Failed (str_exn e))
| every_stage_succeeds (img final_img : image) (bb c : bbox) :
    open_rgb w p = Ok img ->
    get_face_bbox w img = Ok (Some bb) ->
    calculate_3_4_crop bb (fst (img_size img)) (snd (img_size img)) = Ok c ->
    crop_image w img c = Ok final_img ->
    (forall a, In a (ancestors (out_dir ++ path_parent p)) ->
       dir_exists w a = true \/ mkdir_fails w a = false) ->
    save_image w final_img (out_dir ++ path_parent p) (path_name p)
      (if in_strings (lower (path_suffix p)) [".jpg"; ".jpeg"]%string
       then JPEG else PNG) = Ok tt ->
    stage_outcome w out_dir p Cropped.

(** ** Sample inputs *)

Definition sample_image : image := {| img_pixels := 0; img_size := (1000, 1000) |}.

Definition a_png : path :=
  {| path_parent := ["sub"%string]; path_name := "a.png"; path_suffix := ".png" |}.
Definition b_jpg : path :=
  {| path_parent := []; path_name := "b.JPG"; path_suffix := ".JPG" |}.
Definition c_jpeg : path :=
  {| path_parent := []; path_name := "c.jpeg"; path_suffix := ".jpeg" |}.
Definition notes_txt : path :=
  {| path_parent := []; path_name := "notes.txt"; path_suffix := ".txt" |}.

(** A directory whose name ends like an image. *)
Definition album_png : path :=
  {| path_parent := []; path_name := "album.png"; path_suffix := ".png" |}.

Definition one_face : face :=
  {| facial_area := Some {| area_x := 100; area_y := 100; area_w := 80; area_h := 120 |} |}.
Definition no_area : face := {| facial_area := None |}.

(** A world in which every collaborator succeeds and the detector answers
    [detected] on every image. *)
Definition calm_world (listing : list path) (detected : res (list face)) : world :=
  {| rglob := listing;
     is_dir := fun _ => false;
     open_dir_error := fun _ => OSError "[Errno 21] Is a directory";
     decode_rgb := fun _ => Ok sample_image;
     to_array := fun img => Ok img;
     extract_faces := fun _ => detected;
     crop_image := fun img _ => Ok img;
     dir_exists := fun _ => false;
     mkdir_fails := fun _ => false;
     mkdir_error := fun _ _ => OSError "[Errno 13] Permission denied";
     save_image := fun _ _ _ _ => Ok tt |}.

(** The same world, except that files named [bad] cannot be decoded. *)
Definition world_with_bad_file (listing : list path) (bad : string) : world :=
  {| rglob := listing;
     is_dir := fun _ => false;
     open_dir_error := fun _ => OSError "[Errno 21] Is a directory";
     decode_rgb := fun p => if String.eqb (path_name p) bad
                            then Raise (OSError "cannot identify image file")
                            else Ok sample_image;
     to_array := fun img => Ok img;
     extract_faces := fun _ => Ok [one_face];
     crop_image := fun img _ => Ok img;
     dir_exists := fun _ => false;
     mkdir_fails := fun _ => false;
     mkdir_error := fun _ _ => OSError "[Errno 13] Permission denied";
     save_image := fun _ _ _ _ => Ok tt |}.

(** A world whose listing holds the directory [album.png] and the file
    [notes.txt]. *)
Definition world_with_album : world :=
  {| rglob := [album_png; notes_txt];
     is_dir := fun p => String.eqb (path_name p) "album.png";
     open_dir_error := fun _ => OSError "[Errno 21] Is a directory: 'in/album.png'";
     decode_rgb := fun _ => Ok sample_image;
     to_array := fun img => Ok img;
     extract_faces := fun _ => Ok [one_face];
     crop_image := fun img _ => Ok img;
     dir_exists := fun _ => false;
     mkdir_fails := fun _ => false;
     mkdir_error := fun _ _ => OSError "[Errno 13] Permission denied";
     save_image := fun _ _ _ _ => Ok tt |}.

(** A calm world in which the output root [out] is there already, and
    nothing can be created under [out/locked]. *)
Definition world_with_out_dir (listing : list path) : world :=
  {| rglob := listing;
     is_dir := fun _ => false;
     open_dir_error := fun _ => OSError "[Errno 21] Is a directory";
     decode_rgb := fun _ => Ok sample_image;
     to_array := fun img => Ok img;
     extract_faces := fun _ => Ok [one_face];
     crop_image := fun img _ => Ok img;
     dir_exists := fun d => same_dir d ["out"%string];
     mkdir_fails := fun d => same_dir d ["out"; "locked"]%string;
     mkdir_error := fun _ _ => OSError "[Errno 13] Permission denied: 'out/locked'";
     save_image := fun _ _ _ _ => Ok tt |}.

Definition deep_png : path :=
  {| path_parent := ["deep"; "er"]%string; path_name := "d.png"; path_suffix := ".png" |}.
Definition locked_png : path :=
  {| path_parent := ["locked"; "in"]%string; path_name := "l.png"; path_suffix := ".png" |}.

(** ** The effects of a run on the file system *)


(** The file was logged as a success. *)
Definition cropped (w : world) (out_dir : list string) (p : path) : bool :=
  match file_log w out_dir p with
  | LogSuccess _ => true
  | _ => false
  end.

(** Lines 102-107: where a cropped file goes, and in which format. *)
Definition saved_entry (out_dir : list string) (p : path)
  : list string * string * format :=
  ((out_dir ++ path_parent p)%list, path_name p,
   if in_strings (lower (path_suffix p)) [".jpg"; ".jpeg"]%string then JPEG else PNG).

(** What a run keeps true of the directories it has created, after the
    entries [done]: each could be created, was missing before the run, was
    created once, and lies on the way to the mirror of the directory of an
    entry that got past detection; and the directories on the way to a
    cropped file are all there. *)
Definition dirs_inv (w : world) (out_dir : dir) (done : list path) (st : state) : Prop :=
  created_ok w st /\
  NoDup (dirs st) /\
  (forall d, In d (dirs st) ->
     dir_exists w d = false /\
     exists p, In p done /\ In d (ancestors (out_dir ++ path_parent p)) /\
               file_log w out_dir p <> LogNoFace (path_name p)) /\
  (forall p, In p done -> cropped w out_dir p = true ->
     forall a, In a (ancestors (out_dir ++ path_parent p)) ->
     dir_exists w a = true \/ In a (dirs st)).

(** ** Detector answers in which every candidate has its area *)

(** A detector candidate that carries its area. *)
Definition face_with (a : area) : face := {| facial_area := Some a |}.

(** The box line 49 builds from an area. *)
Definition box_of (a : area) : bbox :=
  (area_x a, area_y a, area_x a + area_w a, area_y a + area_h a).

Definition two_small_faces : list area :=
  [ {| area_x := 5; area_y := 5; area_w := 10; area_h := 10 |};
    {| area_x := 40; area_y := 8; area_w := 20; area_h := 30 |};
    {| area_x := 90; area_y := 9; area_w := 30; area_h := 20 |} ].

(** ** The main window *)

(** A paragraph of the log box: the two lines the window writes itself and
    the lines the worker sends. *)
Inductive gui_line : Type :=
| LineStarting
| LineWorker (l : log_line)
| LineComplete.

(** The message boxes of the window. *)
Inductive dialog : Type :=
| DialogInputError      (* critical: "Please specify both folders before starting." *)
| DialogFolderError     (* warning: "Output path not found." *)
| DialogDone.           (* "All images have been processed." *)

Inductive platform : Type := Win32 | Darwin | OtherPlatform.

(** What [open_output_folder] hands to the operating system. *)
Inductive launch : Type :=
| StartFile (p : string)
| Popen (argv : list string).

(** The widgets of [PortraitApp] that the handlers read or write, the
    workers handed to the thread pool and the message boxes shown, oldest
    first. *)
Record window : Type := {
  in_edit : string;
  out_edit : string;
  btn_run : bool;                (* enabled *)
  btn_open_folder : bool;        (* enabled *)
  progress_bar : Z;
  log_box : list gui_line;
  dialogs : list dialog;
  pool : list (string * string); (* [CropWorker(in_path, out_path)] started *)
  launched : list launch
}.

(** The window after [__init__]. *)
Definition new_window : window :=
  {| in_edit := ""; out_edit := ""; btn_run := true; btn_open_folder := false;
     progress_bar := 0; log_box := []; dialogs := []; pool := []; launched := [] |}.

(** [QProgressBar.setValue] with the default range 0..100: a value outside
    the range is ignored. *)
Definition set_value (v bar : Z) : Z :=
  if (0 <=? v) && (v <=? 100) then v else bar.

(** [start_task], lines 257-279. *)
Definition start_task (g : window) : window :=
  if (String.eqb (in_edit g) "" || String.eqb (out_edit g) "")%bool then
    {| in_edit := in_edit g; out_edit := out_edit g; btn_run := btn_run g;
       btn_open_folder := btn_open_folder g; progress_bar := progress_bar g;
       log_box := log_box g; dialogs := dialogs g ++ [DialogInputError];
       pool := pool g; launched := launched g |}
  else
    {| in_edit := in_edit g; out_edit := out_edit g; btn_run := false;
       btn_open_folder := false; progress_bar := set_value 0 (progress_bar g);
       log_box := [LineStarting]; dialogs := dialogs g;
       pool := pool g ++ [(in_edit g, out_edit g)]; launched := launched g |}.

(** The slots connected in [start_task]. *)
Definition on_log (m : log_line) (g : window) : window :=
  {| in_edit := in_edit g; out_edit := out_edit g; btn_run := btn_run g;
     btn_open_folder := btn_open_folder g; progress_bar := progress_bar g;
     log_box := log_box g ++ [LineWorker m]; dialogs := dialogs g;
     pool := pool g; launched := launched g |}.

Definition on_progress (v : Z) (g : window) : window :=
  {| in_edit := in_edit g; out_edit := out_edit g; btn_run := btn_run g;
     btn_open_folder := btn_open_folder g; progress_bar := set_value v (progress_bar g);
     log_box := log_box g; dialogs := dialogs g;
     pool := pool g; launched := launched g |}.

(** [on_finished], lines 281-294. *)
Definition on_finished (g : window) : window :=
  {| in_edit := in_edit g; out_edit := out_edit g; btn_run := true;
     btn_open_folder := true; progress_bar := progress_bar g;
     log_box := log_box g ++ [LineComplete]; dialogs := dialogs g ++ [DialogDone];
     pool := pool g; launched := launched g |}.

(** [open_output_folder], lines 245-255; [path_exists] is [os.path.exists]. *)
Definition open_output_folder (path_exists : string -> bool) (pf : platform)
  (g : window) : window :=
  let path := out_edit g in
  if path_exists path then
    {| in_edit := in_edit g; out_edit := out_edit g; btn_run := btn_run g;
       btn_open_folder := btn_open_folder g; progress_bar := progress_bar g;
       log_box := log_box g; dialogs := dialogs g; pool := pool g;
       launched := launched g ++
                   [match pf with
                    | Win32 => StartFile path
                    | Darwin => Popen ["open"%string; path]
                    | OtherPlatform => Popen ["xdg-open"%string; path]
                    end] |}
  else
    {| in_edit := in_edit g; out_edit := out_edit g; btn_run := btn_run g;
       btn_open_folder := btn_open_folder g; progress_bar := progress_bar g;
       log_box := log_box g; dialogs := dialogs g ++ [DialogFolderError];
       pool := pool g; launched := launched g |}.

(** The slot a signal of the worker reaches. *)
Definition deliver (g : window) (s : signal) : window :=
  match s with
  | SigLog m => on_log m g
  | SigProgress v => on_progress v g
  | SigFinished => on_finished g
  end.

Definition set_in_edit (s : string) (g : window) : window :=
  {| in_edit := s; out_edit := out_edit g; btn_run := btn_run g;
     btn_open_folder := btn_open_folder g; progress_bar := progress_bar g;
     log_box := log_box g; dialogs := dialogs g; pool := pool g;
     launched := launched g |}.

Definition set_out_edit (s : string) (g : window) : window :=
  {| in_edit := in_edit g; out_edit := s; btn_run := btn_run g;
     btn_open_folder := btn_open_folder g; progress_bar := progress_bar g;
     log_box := log_box g; dialogs := dialogs g; pool := pool g;
     launched := launched g |}.

(** What can happen to the window: the user edits a path (by hand or with
    Browse), clicks a button, or a signal of a running worker arrives. *)
Inductive event : Type :=
| EditIn (s : string)
| EditOut (s : string)
| ClickRun
| ClickOpen
| Arrive (s : signal).

(** The window after a sequence of events, with the number of workers that
    have been started and have not yet sent [finished].  A disabled button
    sends no click; [None] when a signal arrives although no worker runs. *)
Fixpoint replay (path_exists : string -> bool) (pf : platform)
  (evs : list event) (g : window) (running : nat) : option (window * nat) :=
  match evs with
  | [] => Some (g, running)
  | e :: rest =>
      match e with
      | EditIn s => replay path_exists pf rest (set_in_edit s g) running
      | EditOut s => replay path_exists pf rest (set_out_edit s g) running
      | ClickRun =>
          if btn_run g then
            replay path_exists pf rest (start_task g)
              (if (String.eqb (in_edit g) "" || String.eqb (out_edit g) "")%bool
               then running else S running)
          else replay path_exists pf rest g running
      | ClickOpen =>
          if btn_open_folder g then
            replay path_exists pf rest (open_output_folder path_exists pf g) running
          else replay path_exists pf rest g running
      | Arrive s =>
          match running with
          | O => None
          | S k =>
              replay path_exists pf rest (deliver g s)
                (match s with SigFinished => k | _ => running end)
          end
      end
  end.

(** The worker boxes of the thread pool that have sent [finished]: one
    "Done" box each. *)
Definition is_done (d : dialog) : bool :=
  match d with DialogDone => true | _ => false end.

(** What the window keeps whatever happens, stated on one step. *)
Definition window_ok (g : window) (running : nat) : Prop :=
  ((running = 0%nat /\ btn_run g = true) \/
   (running = 1%nat /\ btn_run g = false /\ btn_open_folder g = false)) /\
  List.length (pool g) = (running + List.length (filter is_done (dialogs g)))%nat.

(** * Properties *)

(** ** Shifting a mantissa and rounding it to nearest even *)

Lemma digits2_pos_log2 (p : positive) :
  Zpos (digits2_pos p) = Z.log2 (Zpos p) + 1.
Proof.
  induction p as [p IH | p IH | ]; simpl digits2_pos.
  - rewrite Pos2Z.inj_succ, IH.
    change (Zpos p~1) with (2 * Zpos p + 1).
    rewrite Z.log2_succ_double by lia. lia.
  - rewrite Pos2Z.inj_succ, IH.
    change (Zpos p~0) with (2 * Zpos p).
    rewrite Z.log2_double by lia. lia.
  - reflexivity.
Qed.

Lemma log2_bounds (m d : Z) :
  0 < m -> d = Z.log2 m + 1 -> 2 ^ (d - 1) <= m < 2 ^ d.
Proof.
  intros Hm ->. replace (Z.log2 m + 1 - 1) with (Z.log2 m) by lia.
  replace (Z.log2 m + 1) with (Z.succ (Z.log2 m)) by lia.
  apply Z.log2_spec; assumption.
Qed.

Lemma log2_unique' (m d : Z) :
  0 < d -> 2 ^ (d - 1) <= m < 2 ^ d -> Z.log2 m + 1 = d.
Proof.
  intros Hd H. rewrite (Z.log2_unique m (d - 1)); try lia.
  replace (Z.succ (d - 1)) with d by lia. assumption.
Qed.

Lemma loc_of_exact_iff (N D : Z) :
  loc_of N D = loc_Exact <-> N mod D = 0.
Proof.
  unfold loc_of. destruct (Z.eqb_spec (N mod D) 0); split; intros; try easy.
Qed.

Lemma shr_1_m (mrs : shr_record) :
  0 <= shr_m mrs -> shr_m (shr_1 mrs) = shr_m mrs / 2 /\
  shr_r (shr_1 mrs) = Z.odd (shr_m mrs) /\
  shr_s (shr_1 mrs) = shr_r mrs || shr_s mrs.
Proof.
  destruct mrs as [m r s]; simpl. intros Hm.
  destruct m as [ | [p | p | ] | p]; simpl; try lia; repeat split.
  - change (Zpos p~1) with (2 * Zpos p + 1).
    rewrite Z.mul_comm, Z.div_add_l by lia. reflexivity.
  - change (Zpos p~0) with (2 * Zpos p).
    rewrite Z.mul_comm, Z.div_mul by lia. reflexivity.
Qed.

Lemma shr_1_represents (mrs : shr_record) (N D : Z) :
  0 < D -> 0 <= N -> represents mrs N D -> represents (shr_1 mrs) N (2 * D).
Proof.
  intros HD HN [Hm Hl].
  assert (Hm0 : 0 <= shr_m mrs) by (rewrite Hm; apply Z.div_pos; lia).
  destruct (shr_1_m mrs Hm0) as (Em & Er & Es).
  pose proof (Z.div_mod N D ltac:(lia)) as E1.
  pose proof (Z.mod_pos_bound N D HD) as B1.
  pose proof (Z.div_mod (N / D) 2 ltac:(lia)) as E2.
  pose proof (Z.mod_pos_bound (N / D) 2 ltac:(lia)) as B2.
  assert (Eq : N / (2 * D) = N / D / 2).
  { rewrite (Z.mul_comm 2 D), Z.div_div by lia. reflexivity. }
  assert (Er' : N mod (2 * D) = (N / D) mod 2 * D + N mod D).
  { pose proof (Z.div_mod N (2 * D) ltac:(lia)) as E3. rewrite Eq in E3.
    revert E1 E2 E3. generalize (N mod (2 * D)) (N mod D) ((N / D) mod 2) (N / D / 2) (N / D).
    intros r r1 r2 a q1 E1 E2 E3. nia. }
  split.
  - rewrite Em, Hm, Eq. reflexivity.
  - assert (Hs : shr_r mrs || shr_s mrs = negb (N mod D =? 0)).
    { destruct mrs as [m r s]; simpl in *. unfold loc_of in Hl.
      destruct (Z.eqb_spec (N mod D) 0); destruct r, s; simpl in *; congruence. }
    assert (Ho : Z.odd (shr_m mrs) = ((N / D) mod 2 =? 1)).
    { rewrite Hm, Zmod_odd. destruct (Z.odd (N / D)); reflexivity. }
    destruct (shr_1 mrs) as [m' r' s'];
      cbn [shr_m shr_r shr_s loc_of_shr_record] in *. subst r' s'.
    rewrite Hs, Ho. unfold loc_of. rewrite Er'.
    destruct (Z.eqb_spec ((N / D) mod 2) 1) as [E | E];
      destruct (Z.eqb_spec (N mod D) 0) as [E' | E']; cbn [negb orb].
    + rewrite E, E'.
      destruct (Z.eqb_spec (1 * D + 0) 0); [lia | ].
      f_equal. symmetry. apply Z.compare_eq_iff. lia.
    + rewrite E.
      destruct (Z.eqb_spec (1 * D + N mod D) 0); [lia | ].
      f_equal. symmetry. apply Z.compare_gt_iff. lia.
    + assert ((N / D) mod 2 = 0) as -> by lia. rewrite E'. reflexivity.
    + assert ((N / D) mod 2 = 0) as -> by lia.
      destruct (Z.eqb_spec (0 * D + N mod D) 0); [lia | ].
      f_equal. symmetry. apply Z.compare_lt_iff. lia.
Qed.

Lemma iter_shr_1_represents (p : positive) :
  forall (mrs : shr_record) (N D : Z),
  0 < D -> 0 <= N -> represents mrs N D ->
  represents (iter_pos shr_1 p mrs) N (D * 2 ^ Zpos p).
Proof.
  induction p as [p IH | p IH | ]; intros mrs N D HD HN H; simpl iter_pos.
  - pose proof (Z.pow_pos_nonneg 2 (Zpos p) ltac:(lia) ltac:(lia)) as Hp.
    replace (D * 2 ^ Zpos p~1) with (2 * D * 2 ^ Zpos p * 2 ^ Zpos p).
    + apply IH; [nia | lia | ]. apply IH; [lia | lia | ].
      apply shr_1_represents; assumption.
    + replace (Zpos p~1) with (Zpos p + Zpos p + 1) by lia.
      rewrite !Z.pow_add_r by lia. change (2 ^ 1) with 2. ring.
  - pose proof (Z.pow_pos_nonneg 2 (Zpos p) ltac:(lia) ltac:(lia)) as Hp.
    replace (D * 2 ^ Zpos p~0) with (D * 2 ^ Zpos p * 2 ^ Zpos p).
    + apply IH; [nia | lia | ]. apply IH; assumption.
    + replace (Zpos p~0) with (Zpos p + Zpos p) by lia.
      rewrite !Z.pow_add_r by lia. ring.
  - simpl. rewrite Z.mul_comm. apply shr_1_represents; assumption.
Qed.

Lemma represents_of_loc (N D : Z) :
  0 < D -> represents (shr_record_of_loc (N / D) (loc_of N D)) N D.
Proof.
  intros HD. split.
  - destruct (loc_of N D) as [ | [ | | ]]; reflexivity.
  - destruct (loc_of N D) as [ | [ | | ]]; reflexivity.
Qed.

Lemma shr_represents (N D e n : Z) :
  0 < D -> 0 <= N -> 0 <= n ->
  let '(mrs, e') := shr (shr_record_of_loc (N / D) (loc_of N D)) e n in
  represents mrs N (D * 2 ^ n) /\ e' = e + n.
Proof.
  intros HD HN Hn. unfold shr. destruct n as [ | p | p]; try lia.
  - rewrite Z.mul_1_r, Z.add_0_r. split; [ | reflexivity].
    apply represents_of_loc; assumption.
  - split; [ | reflexivity]. apply iter_shr_1_represents; try assumption.
    apply represents_of_loc; assumption.
Qed.

Lemma Zdigits2_log2 (m : Z) : 0 < m -> Zdigits2 m = Z.log2 m + 1.
Proof.
  destruct m as [ | p | p]; try lia. intros _. apply digits2_pos_log2.
Qed.

Lemma round_nearest_even_range (q : Z) (l : location) :
  q <= round_nearest_even q l <= q + 1.
Proof.
  destruct l as [ | [ | | ]]; simpl; try lia. destruct (Z.even q); lia.
Qed.

Lemma div_pow2_bounds (m n : Z) :
  2 ^ 52 <= m -> n = Z.log2 m + 1 - 53 -> 0 <= n /\ 2 ^ 52 <= m / 2 ^ n < 2 ^ 53.
Proof.
  intros Hm Hn.
  assert (H52 : 52 <= Z.log2 m).
  { apply Z.log2_le_pow2; lia. }
  pose proof (log2_bounds m (Z.log2 m + 1) ltac:(lia) eq_refl) as [L U].
  assert (P : 0 < 2 ^ n) by (apply Z.pow_pos_nonneg; lia).
  replace (Z.log2 m + 1 - 1) with (52 + n) in L by lia.
  replace (Z.log2 m + 1) with (53 + n) in U by lia.
  rewrite Z.pow_add_r in L, U by lia.
  split; [lia | split].
  - apply Z.div_le_lower_bound; lia.
  - apply Z.div_lt_upper_bound; lia.
Qed.

Lemma binary_round_aux_spec (sx : bool) (N D ex n : Z) :
  0 < D -> 0 <= N -> 2 ^ 52 <= N / D ->
  n = Z.log2 (N / D) + 1 - 53 -> -1074 <= ex + n <= 970 ->
  binary_round_aux prec emax sx (N / D) ex (loc_of N D) =
    if rounded_mantissa N D n <? 2 ^ 53
    then S754_finite sx (Z.to_pos (rounded_mantissa N D n)) (ex + n)
    else S754_finite sx (Z.to_pos (2 ^ 52)) (ex + n + 1).
Proof.
  intros HD HN Hm Hn He.
  destruct (div_pow2_bounds _ _ Hm Hn) as (Hn0 & Hq).
  unfold binary_round_aux, shr_fexp at 1.
  rewrite Zdigits2_log2 by lia.
  assert (Hs : fexp prec emax (Z.log2 (N / D) + 1 + ex) - ex = n).
  { unfold fexp, SpecFloat.emin, prec, emax. lia. }
  rewrite Hs.
  pose proof (shr_represents N D ex n HD HN Hn0) as Hshr.
  destruct (shr (shr_record_of_loc (N / D) (loc_of N D)) ex n) as [mrs e'].
  destruct Hshr as ((Hm' & Hl') & ->).
  rewrite Hm', Hl'. fold (rounded_mantissa N D n).
  rewrite <- Z.div_div in Hm' by (try apply Z.pow_pos_nonneg; lia).
  pose proof (round_nearest_even_range (N / (D * 2 ^ n)) (loc_of N (D * 2 ^ n))) as Hr.
  fold (rounded_mantissa N D n) in Hr.
  rewrite <- Z.div_div in Hr by (try apply Z.pow_pos_nonneg; lia).
  set (m' := rounded_mantissa N D n) in *.
  unfold shr_fexp.
  destruct (Z.ltb_spec m' (2 ^ 53)) as [Hlt | Hge].
  - rewrite Zdigits2_log2 by lia.
    rewrite (log2_unique' m' 53) by (change (53 - 1) with 52; lia).
    assert (Hs2 : fexp prec emax (53 + (ex + n)) - (ex + n) = 0).
    { unfold fexp, SpecFloat.emin, prec, emax. lia. }
    rewrite Hs2. cbn [shr shr_record_of_loc shr_m].
    destruct m' as [ | p | p]; try lia.
    replace (ex + n <=? emax - prec) with true; [reflexivity | ].
    symmetry. apply Z.leb_le. unfold emax, prec. lia.
  - assert (Em : m' = 2 ^ 53) by lia. rewrite Em.
    change (Zdigits2 (2 ^ 53)) with 54.
    assert (Hs2 : fexp prec emax (54 + (ex + n)) - (ex + n) = 1).
    { unfold fexp, SpecFloat.emin, prec, emax. lia. }
    rewrite Hs2. 
    change (2 ^ 53) with 9007199254740992.
    cbn [shr shr_record_of_loc shr_m iter_pos shr_1].
    replace (ex + n + 1 <=? emax - prec) with true; [reflexivity | ].
    symmetry. apply Z.leb_le. unfold emax, prec. lia.
Qed.

Lemma bpow_pos (e : Z) : (0 < bpow e)%R.
Proof. apply powerRZ_lt. lra. Qed.

Lemma bpow_add (a b : Z) : bpow (a + b) = (bpow a * bpow b)%R.
Proof. apply powerRZ_add. lra. Qed.

Lemma bpow_IZR (e : Z) : 0 <= e -> bpow e = IZR (2 ^ e).
Proof.
  intros He. unfold bpow. rewrite <- (Z2Nat.id e He) at 1.
  rewrite <- pow_powerRZ, pow_IZR, Z2Nat.id by assumption. reflexivity.
Qed.

Lemma bpow_0 : bpow 0 = 1%R.
Proof. reflexivity. Qed.

Lemma bpow_le (a b : Z) : a <= b -> (bpow a <= bpow b)%R.
Proof.
  intros H. replace b with (a + (b - a)) by lia.
  rewrite bpow_add, (bpow_IZR (b - a)) by lia.
  assert (1 <= 2 ^ (b - a)) by (pose proof (Z.pow_pos_nonneg 2 (b - a)); lia).
  apply IZR_le in H0. pose proof (bpow_pos a). nra.
Qed.

Lemma bpow_neg (e : Z) : 0 <= e -> (bpow (- e) * IZR (2 ^ e) = 1)%R.
Proof.
  intros He. rewrite <- bpow_IZR, <- bpow_add by assumption.
  replace (- e + e) with 0 by lia. reflexivity.
Qed.

Lemma Rabs_scale (u a b : R) :
  (0 < u)%R -> Rabs (a * u - b * u) = (u * Rabs (a - b))%R.
Proof.
  intros Hu. replace (a * u - b * u)%R with (u * (a - b))%R by ring.
  rewrite Rabs_mult, (Rabs_pos_eq u) by lra. reflexivity.
Qed.

Lemma nearest_opp (x r : R) : nearest x r -> nearest (- x) (- r).
Proof.
  intros H k e Hk. specialize (H (- k) e). rewrite Z.abs_opp in H.
  specialize (H Hk). rewrite opp_IZR in H.
  replace (- r - - x)%R with (- (r - x))%R by ring.
  replace (IZR k * bpow e - - x)%R with (- (- IZR k * bpow e - x))%R by ring.
  rewrite !Rabs_Ropp. exact H.
Qed.

(** The rounding of a number that lies [t] units [u] up, with [q <= t < q+1]
    and [m] the integer chosen by round-to-nearest. *)
Lemma nearest_of_unit (u t : R) (q m en : Z) :
  2 ^ 52 <= q -> u = bpow en ->
  (IZR q <= t)%R ->
  (Rabs (IZR m - t) <= t - IZR q)%R ->
  (Rabs (IZR m - t) <= IZR q + 1 - t)%R ->
  nearest (t * u) (IZR m * u).
Proof.
  intros Hq Hu Ht H1 H2 k e Hk.
  assert (U : (0 < u)%R) by (rewrite Hu; apply bpow_pos).
  rewrite Rabs_scale by assumption.
  apply IZR_le in Hq. change (2 ^ 52) with 4503599627370496 in Hq.
  pose proof (Rabs_pos (IZR m - t)) as P0.
  destruct (Z_le_gt_dec en e) as [Hle | Hgt].
  - replace e with (en + (e - en)) by lia.
    rewrite bpow_add, (bpow_IZR (e - en)), <- Hu by lia.
    replace (IZR k * (u * IZR (2 ^ (e - en))))%R
      with (IZR (k * 2 ^ (e - en)) * u)%R by (rewrite mult_IZR; ring).
    rewrite Rabs_scale by assumption.
    apply Rmult_le_compat_l; [lra | ].
    set (j := k * 2 ^ (e - en)).
    destruct (Z_le_gt_dec j q) as [Hj | Hj].
    + apply IZR_le in Hj. rewrite (Rabs_left1 (IZR j - t)) by lra. lra.
    + assert (Hj' : q + 1 <= j) by lia. apply IZR_le in Hj'.
      rewrite plus_IZR in Hj'. rewrite (Rabs_pos_eq (IZR j - t)) by lra. lra.
  - assert (B : (bpow e * 2 <= u)%R).
    { rewrite Hu. replace (bpow e * 2)%R with (bpow (e + 1)).
      - apply bpow_le. lia.
      - rewrite bpow_add. f_equal. unfold bpow. simpl. ring. }
    assert (K : (IZR k <= 9007199254740991)%R).
    { apply IZR_le. change (2 ^ 53) with 9007199254740992 in Hk. lia. }
    pose proof (bpow_pos e) as Pe.
    assert (A1 : (IZR k * bpow e <= 9007199254740991 * bpow e)%R)
      by (apply Rmult_le_compat_r; lra).
    assert (A2 : (4503599627370496 * u <= t * u)%R)
      by (apply Rmult_le_compat_r; lra).
    assert (V : (IZR k * bpow e - t * u <= - (u / 2))%R) by lra.
    rewrite (Rabs_left1 (IZR k * bpow e - t * u)) by lra.
    assert (A3 : (Rabs (IZR m - t) <= 1 / 2)%R) by lra.
    assert (A4 : (u * Rabs (IZR m - t) <= u * (1 / 2))%R)
      by (apply Rmult_le_compat_l; lra).
    lra.
Qed.

Lemma nearest_signed (s : bool) (x r : R) :
  nearest x r -> nearest (signed s x) (signed s r).
Proof. destruct s; simpl; [apply nearest_opp | trivial]. Qed.

Lemma SF2R_finite (s : bool) (m : positive) (e : Z) :
  SF2R (S754_finite s m e) = signed s (IZR (Zpos m) * bpow e).
Proof.
  destruct s; simpl; [ | reflexivity].
  change (Zneg m) with (- Zpos m). rewrite opp_IZR. ring.
Qed.

Lemma rounded_mantissa_nearest (N D n : Z) :
  0 < D -> 0 <= N -> 0 <= n ->
  let D' := D * 2 ^ n in
  let t := (IZR N / IZR D')%R in
  let q := N / D' in
  let m := rounded_mantissa N D n in
  (IZR q <= t)%R /\
  (Rabs (IZR m - t) <= t - IZR q)%R /\
  (Rabs (IZR m - t) <= IZR q + 1 - t)%R.
Proof.
  intros HD HN Hn D' t q m.
  assert (HD' : 0 < D') by (apply Z.mul_pos_pos; [ | apply Z.pow_pos_nonneg]; lia).
  pose proof (Z.div_mod N D' ltac:(lia)) as E.
  pose proof (Z.mod_pos_bound N D' HD') as B.
  fold q in E.
  assert (PD : (0 < IZR D')%R) by (apply IZR_lt; assumption).
  assert (Et : (t = IZR q + IZR (N mod D') / IZR D')%R).
  { unfold t. rewrite E at 1. rewrite plus_IZR, mult_IZR. field. lra. }
  set (f := (IZR (N mod D') / IZR D')%R) in *.
  assert (Ef : (f * IZR D' = IZR (N mod D'))%R) by (unfold f; field; lra).
  assert (F0 : (0 <= f)%R).
  { apply Rmult_le_reg_r with (IZR D'); [assumption | ].
    rewrite Ef, Rmult_0_l. apply IZR_le. lia. }
  unfold m, rounded_mantissa, loc_of. fold D' q.
  destruct (Z.eqb_spec (N mod D') 0) as [E0 | E0].
  - assert (f = 0)%R as F.
    { rewrite E0 in Ef. apply Rmult_integral in Ef. lra. }
    cbn [round_nearest_even]. rewrite Et, F.
    replace (IZR q - (IZR q + 0))%R with 0%R by ring. rewrite Rabs_R0. lra.
  - destruct (Z.compare_spec (2 * (N mod D')) D') as [C | C | C];
      cbn [round_nearest_even].
    + assert (F : (f = 1 / 2)%R).
      { apply (f_equal IZR) in C. rewrite mult_IZR in C.
        apply Rmult_eq_reg_r with (IZR D'); lra. }
      rewrite Et, F. destruct (Z.even q).
      * replace (IZR q - (IZR q + 1 / 2))%R with (- (1 / 2))%R by field.
        rewrite Rabs_Ropp, Rabs_pos_eq; lra.
      * rewrite plus_IZR.
        replace (IZR q + 1 - (IZR q + 1 / 2))%R with (1 / 2)%R by field.
        rewrite Rabs_pos_eq; lra.
    + assert (F : (f < 1 / 2)%R).
      { apply IZR_lt in C. rewrite mult_IZR in C.
        apply Rmult_lt_reg_r with (IZR D'); lra. }
      rewrite Et. replace (IZR q - (IZR q + f))%R with (- f)%R by ring.
      rewrite Rabs_Ropp, Rabs_pos_eq; lra.
    + assert (F : (1 / 2 < f)%R).
      { apply IZR_lt in C. rewrite mult_IZR in C.
        apply Rmult_lt_reg_r with (IZR D'); lra. }
      assert (F1 : (f < 1)%R).
      { apply Rmult_lt_reg_r with (IZR D'); [assumption | ].
        rewrite Ef, Rmult_1_l. apply IZR_lt. lia. }
      rewrite Et, plus_IZR.
      replace (IZR q + 1 - (IZR q + f))%R with (1 - f)%R by ring.
      rewrite Rabs_pos_eq; lra.
Qed.

Lemma binary_round_aux_rounds (sx : bool) (N D ex n : Z) :
  0 < D -> 0 <= N -> 2 ^ 52 <= N / D ->
  n = Z.log2 (N / D) + 1 - 53 -> -1074 <= ex + n <= 970 ->
  let f := binary_round_aux prec emax sx (N / D) ex (loc_of N D) in
  normal f /\ nearest (signed sx (IZR N / IZR D * bpow ex)) (SF2R f) /\
  ex + n <= expo f <= ex + n + 1.
Proof.
  intros HD HN Hm Hn He f. unfold f.
  rewrite (binary_round_aux_spec sx N D ex n) by assumption.
  destruct (div_pow2_bounds _ _ Hm Hn) as (Hn0 & Hq).
  pose proof (Z.pow_pos_nonneg 2 n ltac:(lia) Hn0) as P2.
  rewrite Z.div_div in Hq by lia.
  pose proof (round_nearest_even_range (N / (D * 2 ^ n)) (loc_of N (D * 2 ^ n))) as Hr.
  fold (rounded_mantissa N D n) in Hr.
  destruct (rounded_mantissa_nearest N D n HD HN Hn0) as (T0 & T1 & T2).
  set (m := rounded_mantissa N D n) in *.
  set (q := N / (D * 2 ^ n)) in *.
  set (t := (IZR N / IZR (D * 2 ^ n))%R) in *.
  assert (PD : (0 < IZR D)%R) by (apply IZR_lt; assumption).
  assert (PP : (0 < IZR (2 ^ n))%R) by (apply IZR_lt; assumption).
  assert (Ex : (IZR N / IZR D * bpow ex = t * bpow (ex + n))%R).
  { unfold t. rewrite bpow_add, (bpow_IZR n), mult_IZR by assumption.
    field. lra. }
  assert (Hnear : nearest (t * bpow (ex + n)) (IZR m * bpow (ex + n))).
  { apply (nearest_of_unit _ t q m (ex + n)); try assumption; try reflexivity. lia. }
  rewrite Ex.
  destruct (Z.ltb_spec m (2 ^ 53)) as [Hlt | Hge].
  - split; [ | split].
    + cbn [normal]. rewrite Z2Pos.id by lia. lia.
    + rewrite SF2R_finite, Z2Pos.id by lia. apply nearest_signed, Hnear.
    + cbn [expo]. lia.
  - assert (Em : m = 2 ^ 53) by lia.
    split; [ | split]; [ | | cbn [expo]; lia].
    + cbn [normal]. change (2 ^ 52) with 4503599627370496.
      change (2 ^ 53) with 9007199254740992. cbn [Z.to_pos]. lia.
    + rewrite SF2R_finite. apply nearest_signed.
      replace (IZR (Zpos (Z.to_pos (2 ^ 52))) * bpow (ex + n + 1))%R
        with (IZR m * bpow (ex + n))%R; [exact Hnear | ].
      rewrite Em, (bpow_add (ex + n) 1).
      change (2 ^ 53) with 9007199254740992.
      change (Zpos (Z.to_pos (2 ^ 52))) with 4503599627370496.
      unfold bpow at 3. simpl powerRZ. lra.
Qed.

(** ** What rounding to nearest gives *)

Lemma nearest_ge (x r : R) (k e : Z) :
  nearest x r -> Z.abs k < 2 ^ 53 ->
  (IZR k * bpow e <= x)%R -> (IZR k * bpow e <= r)%R.
Proof.
  intros Hn Hk Hx. specialize (Hn k e Hk).
  rewrite (Rabs_left1 (IZR k * bpow e - x)) in Hn by lra.
  destruct (Rle_lt_dec (IZR k * bpow e) r) as [ | Hlt]; [assumption | ].
  rewrite (Rabs_left1 (r - x)) in Hn by lra. lra.
Qed.

Lemma nearest_le (x r : R) (k e : Z) :
  nearest x r -> Z.abs k < 2 ^ 53 ->
  (x <= IZR k * bpow e)%R -> (r <= IZR k * bpow e)%R.
Proof.
  intros Hn Hk Hx. specialize (Hn k e Hk).
  rewrite (Rabs_pos_eq (IZR k * bpow e - x)) in Hn by lra.
  destruct (Rle_lt_dec r (IZR k * bpow e)) as [ | Hlt]; [assumption | ].
  rewrite (Rabs_pos_eq (r - x)) in Hn by lra. lra.
Qed.

Lemma nearest_exact (x r : R) (k e : Z) :
  nearest x r -> Z.abs k < 2 ^ 53 -> x = (IZR k * bpow e)%R -> r = x.
Proof.
  intros Hn Hk ->. apply Rle_antisym.
  - apply (nearest_le _ _ k e Hn Hk). lra.
  - apply (nearest_ge _ _ k e Hn Hk). lra.
Qed.

Lemma nearest_zero (r : R) : nearest 0 r -> r = 0%R.
Proof.
  intros H. apply (nearest_exact 0 r 0 0 H); [reflexivity | ring].
Qed.

Lemma nearest_self_zero : nearest 0 0.
Proof.
  intros k e _. rewrite Rminus_0_r, Rabs_R0. apply Rabs_pos.
Qed.

(** A well-formed float is one of the candidates of [nearest]. *)
Lemma well_formed_candidate (f : float) :
  well_formed f -> exists k e, Z.abs k < 2 ^ 53 /\ SF2R f = (IZR k * bpow e)%R.
Proof.
  destruct f as [s | s | | s m e]; cbn [well_formed normal SF2R];
    try contradiction.
  - intros _. exists 0, 0. split; [reflexivity | ring].
  - intros [Hm He]. exists (cond_Zopp s (Zpos m)), e. split; [ | reflexivity].
    destruct s; cbn [cond_Zopp]; lia.
Qed.

Lemma nearest_monotone (x y : R) (f g : float) :
  rounds_to x f -> rounds_to y g -> (x < y)%R -> (SF2R f <= SF2R g)%R.
Proof.
  intros [Wf Nf] [Wg Ng] Hxy.
  destruct (well_formed_candidate f Wf) as (kf & ef & Kf & Ef).
  destruct (well_formed_candidate g Wg) as (kg & eg & Kg & Eg).
  pose proof (Nf kg eg Kg) as A. pose proof (Ng kf ef Kf) as B.
  rewrite <- Eg in A. rewrite <- Ef in B.
  destruct (Rle_lt_dec (SF2R f) (SF2R g)) as [ | Hlt]; [assumption | exfalso].
  revert A B. unfold Rabs.
  repeat destruct Rcase_abs; lra.
Qed.

Lemma iter_xO_pow (p k : positive) :
  Zpos (Pos.iter xO p k) = Zpos p * 2 ^ Zpos k.
Proof.
  change (Pos.iter xO p k) with (shift_pos k p).
  rewrite shift_pos_correct. change (Z.pow_pos 2 k) with (2 ^ Zpos k). ring.
Qed.

Lemma loc_of_1 (N : Z) : loc_of N 1 = loc_Exact.
Proof. unfold loc_of. rewrite Z.mod_1_r. reflexivity. Qed.

Lemma binary_round_aux_exact (sx : bool) (m : positive) (ex : Z) :
  2 ^ 52 <= Zpos m ->
  -1074 <= ex + (Z.log2 (Zpos m) + 1 - 53) <= 970 ->
  let f := binary_round_aux prec emax sx (Zpos m) ex loc_Exact in
  normal f /\ nearest (signed sx (IZR (Zpos m) * bpow ex)) (SF2R f) /\
  ex + (Z.log2 (Zpos m) + 1 - 53) <= expo f <= ex + (Z.log2 (Zpos m) + 1 - 53) + 1.
Proof.
  intros Hm He.
  pose proof (binary_round_aux_rounds sx (Zpos m) 1 ex (Z.log2 (Zpos m) + 1 - 53)) as H.
  rewrite Z.div_1_r, loc_of_1 in H.
  replace (IZR (Zpos m) / IZR 1)%R with (IZR (Zpos m)) in H by (field; lra).
  apply H; try lia.
Qed.

Lemma binary_round_rounds (sx : bool) (p : positive) (e : Z) :
  -1074 <= Z.log2 (Zpos p) + 1 + e - 53 <= 970 ->
  let f := binary_round prec emax sx p e in
  normal f /\ nearest (signed sx (IZR (Zpos p) * bpow e)) (SF2R f) /\
  Z.log2 (Zpos p) + e - 52 <= expo f <= Z.log2 (Zpos p) + e - 51.
Proof.
  intros He. unfold binary_round, shl_align.
  rewrite digits2_pos_log2.
  assert (Hs : fexp prec emax (Z.log2 (Zpos p) + 1 + e) - e = Z.log2 (Zpos p) + 1 - 53).
  { unfold fexp, SpecFloat.emin, prec, emax. lia. }
  rewrite Hs.
  pose proof (log2_bounds (Zpos p) _ ltac:(lia) eq_refl) as [L U].
  pose proof (Z.log2_nonneg (Zpos p)) as L0.
  destruct (Z.log2 (Zpos p) + 1 - 53) as [ | k | k] eqn:Ek.
  - replace (Z.log2 (Zpos p) + e - 52) with (e + (Z.log2 (Zpos p) + 1 - 53)) by lia.
    replace (Z.log2 (Zpos p) + e - 51) with (e + (Z.log2 (Zpos p) + 1 - 53) + 1) by lia.
    apply binary_round_aux_exact.
    + replace (Z.log2 (Zpos p) + 1 - 1) with 52 in L by lia. assumption.
    + lia.
  - replace (Z.log2 (Zpos p) + e - 52) with (e + (Z.log2 (Zpos p) + 1 - 53)) by lia.
    replace (Z.log2 (Zpos p) + e - 51) with (e + (Z.log2 (Zpos p) + 1 - 53) + 1) by lia.
    apply binary_round_aux_exact.
    + assert (2 ^ 52 <= 2 ^ (Z.log2 (Zpos p) + 1 - 1)) by (apply Z.pow_le_mono_r; lia).
      lia.
    + lia.
  - assert (Ev : (IZR (Zpos p) * bpow e =
                  IZR (Zpos (Pos.iter xO p k)) * bpow (fexp prec emax (Z.log2 (Zpos p) + 1 + e)))%R).
    { rewrite iter_xO_pow, mult_IZR, <- bpow_IZR by lia.
      rewrite Rmult_assoc, <- bpow_add. f_equal. f_equal. lia. }
    rewrite Ev.
    assert (Hd : Z.log2 (Zpos (Pos.iter xO p k)) + 1 = 53).
    { apply log2_unique'; [lia | ]. rewrite iter_xO_pow.
      assert (E1 : 2 ^ (53 - 1) = 2 ^ (Z.log2 (Zpos p) + 1 - 1) * 2 ^ Zpos k).
      { rewrite <- Z.pow_add_r by lia. f_equal. lia. }
      assert (E2 : 2 ^ 53 = 2 ^ (Z.log2 (Zpos p) + 1) * 2 ^ Zpos k).
      { rewrite <- Z.pow_add_r by lia. f_equal. lia. }
      rewrite E1, E2.
      pose proof (Z.pow_pos_nonneg 2 (Zpos k) ltac:(lia) ltac:(lia)). nia. }
    set (e0 := fexp prec emax (Z.log2 (Zpos p) + 1 + e)) in *.
    assert (He0 : e0 = Z.log2 (Zpos p) + e - 52) by lia.
    replace (Z.log2 (Zpos p) + e - 52)
      with (e0 + (Z.log2 (Zpos (Pos.iter xO p k)) + 1 - 53)) by lia.
    replace (Z.log2 (Zpos p) + e - 51)
      with (e0 + (Z.log2 (Zpos (Pos.iter xO p k)) + 1 - 53) + 1) by lia.
    apply binary_round_aux_exact.
    + pose proof (log2_bounds (Zpos (Pos.iter xO p k)) 53 ltac:(lia) ltac:(lia)).
      change (53 - 1) with 52 in H. lia.
    + rewrite Hd. lia.
Qed.

(** ** Conversion from [int] and products *)

Lemma normal_finite (f : float) :
  normal f ->
  exists s m e, f = S754_finite s m e /\
                2 ^ 52 <= Zpos m < 2 ^ 53 /\ -1074 <= e <= 971.
Proof.
  destruct f as [s | s | | s m e]; cbn [normal]; try contradiction.
  intros H. exists s, m, e. split; [reflexivity | exact H].
Qed.

Lemma normal_well_formed (f : float) : normal f -> well_formed f.
Proof.
  destruct f; cbn [normal well_formed]; trivial.
Qed.

Lemma normal_log2 (m : positive) :
  2 ^ 52 <= Zpos m < 2 ^ 53 -> Z.log2 (Zpos m) = 52.
Proof.
  intros H. apply Z.log2_unique; [lia | ]. exact H.
Qed.

Lemma nearest_refl (x : R) : nearest x x.
Proof.
  intros k e _. rewrite Rminus_diag, Rabs_R0. apply Rabs_pos.
Qed.

Lemma float_of_int_0 : float_of_int 0 = Ok (S754_zero false).
Proof. reflexivity. Qed.

Lemma float_of_int_exact (z : Z) :
  z <> 0 -> Z.abs z < 2 ^ 53 ->
  exists f, float_of_int z = Ok f /\ normal f /\ SF2R f = IZR z /\
            -52 <= expo f <= 1.
Proof.
  intros Hz Hb.
  assert (G : forall (s : bool) (p : positive),
             Zpos p < 2 ^ 53 -> z = cond_Zopp s (Zpos p) ->
             binary_normalize prec emax z 0 false = binary_round prec emax s p 0 ->
             exists f, float_of_int z = Ok f /\ normal f /\ SF2R f = IZR z /\
                       -52 <= expo f <= 1).
  { intros s p Hp Ez En.
    pose proof (Z.log2_nonneg (Zpos p)) as L0.
    assert (L1 : Z.log2 (Zpos p) < 53) by (apply Z.log2_lt_pow2; lia).
    destruct (binary_round_rounds s p 0 ltac:(lia)) as (Hn & Hr & He).
    exists (binary_round prec emax s p 0).
    unfold float_of_int. rewrite En.
    destruct (normal_finite _ Hn) as (s' & m' & e' & Ef & _).
    split; [rewrite Ef; reflexivity | ].
    split; [assumption | split; [ | lia]].
    apply (nearest_exact _ _ z 0) in Hr; [ | assumption | ].
    - rewrite Hr, Ez. destruct s; cbn [signed cond_Zopp].
      + change (- Zpos p) with (Zneg p). change (Zneg p) with (- Zpos p).
        rewrite opp_IZR, bpow_0. ring.
      + rewrite bpow_0. ring.
    - rewrite Ez. destruct s; cbn [signed cond_Zopp].
      + change (Zneg p) with (- Zpos p). rewrite opp_IZR. ring.
      + reflexivity. }
  destruct z as [ | p | p]; [congruence | | ].
  - apply (G false p); [lia | reflexivity | reflexivity].
  - apply (G true p); [lia | reflexivity | reflexivity].
Qed.

Lemma SF2R_mul_signed (sx sy : bool) (a b : R) :
  (signed sx a * signed sy b)%R = signed (xorb sx sy) (a * b).
Proof. destruct sx, sy; cbn [signed xorb]; ring. Qed.

Lemma fmul_rounds (x y : float) :
  normal x -> normal y -> -1126 <= expo x + expo y <= 916 ->
  normal (fmul x y) /\ nearest (SF2R x * SF2R y) (SF2R (fmul x y)) /\
  expo x + expo y + 52 <= expo (fmul x y) <= expo x + expo y + 54.
Proof.
  intros Hx Hy He.
  destruct (normal_finite x Hx) as (sx & mx & ex & -> & Mx & Ex).
  destruct (normal_finite y Hy) as (sy & my & ey & -> & My & Ey).
  cbn [expo] in He |- *. unfold fmul. cbn [SFmul].
  rewrite !SF2R_finite, SF2R_mul_signed.
  assert (P1 : 2 ^ 104 <= Zpos (mx * my)).
  { rewrite Pos2Z.inj_mul. change (2 ^ 104) with (2 ^ 52 * 2 ^ 52). nia. }
  assert (P2 : Zpos (mx * my) < 2 ^ 106).
  { rewrite Pos2Z.inj_mul. change (2 ^ 106) with (2 ^ 53 * 2 ^ 53). nia. }
  assert (L1 : 104 <= Z.log2 (Zpos (mx * my))).
  { apply Z.log2_le_pow2; lia. }
  assert (L2 : Z.log2 (Zpos (mx * my)) < 106).
  { apply Z.log2_lt_pow2; lia. }
  destruct (binary_round_aux_exact (xorb sx sy) (mx * my) (ex + ey)) as (Hn & Hr & Hexp).
  - assert (2 ^ 52 <= 2 ^ 104) by (apply Z.pow_le_mono_r; lia). lia.
  - lia.
  - split; [exact Hn | split].
    + replace (IZR (Zpos mx) * bpow ex * (IZR (Zpos my) * bpow ey))%R
        with (IZR (Zpos (mx * my)) * bpow (ex + ey))%R; [exact Hr | ].
      rewrite Pos2Z.inj_mul, mult_IZR, bpow_add. ring.
    + lia.
Qed.

(** ** Quotients *)

Lemma new_location_loc_of (N D : Z) :
  0 < D -> new_location D (N mod D) = loc_of N D.
Proof.
  intros HD. pose proof (Z.mod_pos_bound N D HD) as B.
  unfold new_location, new_location_even, new_location_odd, loc_of.
  destruct (Z.even D) eqn:Ev; destruct (Z.eqb_spec (N mod D) 0) as [E | E];
    try reflexivity.
  f_equal.
  assert (Ho : Z.odd D = true) by (rewrite <- Z.negb_even, Ev; reflexivity).
  apply Z.odd_spec in Ho. destruct Ho as [c Hc].
  destruct (Z.compare_spec (2 * (N mod D) + 1) D) as [C | C | C];
    destruct (Z.compare_spec (2 * (N mod D)) D) as [C' | C' | C'];
    try reflexivity; lia.
Qed.

Lemma div_eucl_div_mod (a b : Z) :
  Z.div_eucl a b = (a / b, a mod b).
Proof.
  unfold Z.div, Z.modulo. destruct (Z.div_eucl a b); reflexivity.
Qed.

(** Division of two finite numbers with arbitrary mantissas. *)
Lemma SFdiv_rounds (sx sy : bool) (mx my : positive) (ex ey : Z) :
  let d1 := Z.log2 (Zpos mx) + 1 in
  let d2 := Z.log2 (Zpos my) + 1 in
  let e' := d1 + ex - (d2 + ey) - 53 in
  d1 - d2 <= 53 -> -1074 <= e' <= 968 ->
  let f := SFdiv prec emax (S754_finite sx mx ex) (S754_finite sy my ey) in
  normal f /\
  nearest (signed (xorb sx sy)
             (IZR (Zpos mx) * bpow ex / (IZR (Zpos my) * bpow ey))) (SF2R f) /\
  e' <= expo f <= e' + 2.
Proof.
  intros d1 d2 e' Hd He. cbn [SFdiv]. unfold SFdiv_core_binary.
  rewrite !Zdigits2_log2 by lia. fold d1 d2.
  assert (Hf : fexp prec emax (d1 + ex - (d2 + ey)) = e').
  { unfold fexp, SpecFloat.emin, prec, emax. lia. }
  rewrite Hf. rewrite (Z.min_l e') by lia.
  set (s := ex - ey - e').
  assert (Hs : 0 <= s) by (unfold s; lia).
  assert (Em : match s with
               | 0 => Zpos mx
               | Zpos _ => Z.shiftl (Zpos mx) s
               | Zneg _ => 0
               end = Zpos mx * 2 ^ s).
  { destruct s as [ | p | p] eqn:Es; try lia.
    - rewrite Z.shiftl_mul_pow2 by lia. reflexivity. }
  rewrite Em, div_eucl_div_mod.
  set (N := Zpos mx * 2 ^ s). set (D := Zpos my).
  rewrite new_location_loc_of by (unfold D; lia).
  pose proof (log2_bounds (Zpos mx) d1 ltac:(lia) eq_refl) as [L1 U1].
  pose proof (log2_bounds (Zpos my) d2 ltac:(lia) eq_refl) as [L2 U2].
  pose proof (Z.log2_nonneg (Zpos mx)) as G1.
  pose proof (Z.log2_nonneg (Zpos my)) as G2.
  assert (P : 0 < 2 ^ s) by (apply Z.pow_pos_nonneg; lia).
  assert (NL : 2 ^ (d2 + 52) <= N).
  { unfold N. replace (d2 + 52) with (d1 - 1 + s) by (unfold s, e'; lia).
    rewrite Z.pow_add_r by lia. nia. }
  assert (NU : N < 2 ^ (d2 + 53)).
  { unfold N. replace (d2 + 53) with (d1 + s) by (unfold s, e'; lia).
    rewrite Z.pow_add_r by lia. nia. }
  assert (Q1 : 2 ^ 52 <= N / D).
  { apply Z.div_le_lower_bound; [unfold D; lia | ].
    rewrite Z.pow_add_r in NL by lia. unfold D.
    pose proof (Z.pow_pos_nonneg 2 52 ltac:(lia) ltac:(lia)). nia. }
  assert (Q2 : N / D < 2 ^ 54).
  { apply Z.div_lt_upper_bound; [unfold D; lia | ].
    replace (d2 + 53) with (d2 - 1 + 54) in NU by lia.
    rewrite Z.pow_add_r in NU by lia. unfold D.
    pose proof (Z.pow_pos_nonneg 2 54 ltac:(lia) ltac:(lia)). nia. }
  assert (LQ1 : 52 <= Z.log2 (N / D)) by (apply Z.log2_le_pow2; lia).
  assert (LQ2 : Z.log2 (N / D) < 54) by (apply Z.log2_lt_pow2; lia).
  destruct (binary_round_aux_rounds (xorb sx sy) N D e' (Z.log2 (N / D) + 1 - 53))
    as (Hn & Hr & Hexp); try (unfold N, D; lia); try reflexivity; try lia.
  split; [exact Hn | split; [ | lia]].
  replace (IZR (Zpos mx) * bpow ex / (IZR D * bpow ey))%R
    with (IZR N / IZR D * bpow e')%R; [exact Hr | ].
  unfold N, D. rewrite mult_IZR, <- bpow_IZR by lia.
  assert (Eb : bpow ex = (bpow ey * (bpow e' * bpow s))%R).
  { rewrite <- !bpow_add. f_equal. unfold s. lia. }
  rewrite Eb.
  pose proof (bpow_pos ey). pose proof (bpow_pos s).
  assert (0 < IZR (Zpos my))%R by (apply IZR_lt; lia).
  field. lra.
Qed.

(** ** Integer quotients, differences and truncation *)

Lemma IZR_cond_Zopp (s : bool) (p : positive) :
  IZR (cond_Zopp s (Zpos p)) = signed s (IZR (Zpos p)).
Proof.
  destruct s; cbn [cond_Zopp signed]; [ | reflexivity].
  rewrite opp_IZR. reflexivity.
Qed.

Lemma signed_div (s : bool) (a b : R) :
  (signed s a / b)%R = signed s (a / b).
Proof. destruct s; cbn [signed]; [ | reflexivity]. unfold Rdiv. ring. Qed.

Lemma int_truediv_rounds (a b : Z) :
  a <> 0 -> Z.abs a < 2 ^ 53 -> 0 < b < 2 ^ 53 ->
  exists f, int_truediv a b = Ok f /\ normal f /\
            nearest (IZR a / IZR b) (SF2R f) /\ -106 <= expo f <= 2.
Proof.
  intros Ha Ba Bb.
  assert (G : forall (s : bool) (p : positive),
             a = cond_Zopp s (Zpos p) -> raw_int a = S754_finite s p 0 ->
             exists f, int_truediv a b = Ok f /\ normal f /\
                       nearest (IZR a / IZR b) (SF2R f) /\ -106 <= expo f <= 2).
  { intros s p Ea Er.
    assert (Hp : Zpos p < 2 ^ 53) by (destruct s; cbn [cond_Zopp] in Ea; lia).
    destruct b as [ | q | q]; try lia.
    pose proof (Z.log2_nonneg (Zpos p)) as L0.
    pose proof (Z.log2_nonneg (Zpos q)) as L0'.
    assert (L1 : Z.log2 (Zpos p) < 53) by (apply Z.log2_lt_pow2; lia).
    assert (L2 : Z.log2 (Zpos q) < 53) by (apply Z.log2_lt_pow2; lia).
    destruct (SFdiv_rounds s false p q 0 0) as (Hn & Hr & He); try lia.
    exists (fdiv (raw_int a) (raw_int (Zpos q))).
    unfold int_truediv. rewrite Er. cbn [raw_int Z.eqb]. unfold fdiv.
    destruct (normal_finite _ Hn) as (s' & m' & e' & Ef & _).
    split; [rewrite Ef; reflexivity | ].
    split; [exact Hn | split; [ | lia]].
    rewrite xorb_false_r, !bpow_0, !Rmult_1_r in Hr.
    rewrite Ea, IZR_cond_Zopp, signed_div. exact Hr. }
  destruct a as [ | p | p]; [congruence | | ].
  - apply (G false p); reflexivity.
  - apply (G true p); reflexivity.
Qed.

Lemma int_truediv_0 (b : Z) : 0 < b -> int_truediv 0 b = Ok (S754_zero false).
Proof.
  intros Hb. unfold int_truediv. destruct b as [ | q | q]; try lia. reflexivity.
Qed.

Lemma fdiv_rounds (x y : float) :
  normal x -> normal y -> -1021 <= expo x - expo y <= 1021 ->
  normal (fdiv x y) /\ nearest (SF2R x / SF2R y) (SF2R (fdiv x y)) /\
  expo x - expo y - 53 <= expo (fdiv x y) <= expo x - expo y - 51.
Proof.
  intros Hx Hy He.
  destruct (normal_finite x Hx) as (sx & mx & ex & -> & Mx & Ex).
  destruct (normal_finite y Hy) as (sy & my & ey & -> & My & Ey).
  cbn [expo] in He |- *. unfold fdiv.
  pose proof (normal_log2 mx Mx) as Lx. pose proof (normal_log2 my My) as Ly.
  destruct (SFdiv_rounds sx sy mx my ex ey) as (Hn & Hr & Hexp); try lia.
  split; [exact Hn | split; [ | lia]].
  rewrite !SF2R_finite.
  replace (signed sx (IZR (Zpos mx) * bpow ex) / signed sy (IZR (Zpos my) * bpow ey))%R
    with (signed (xorb sx sy) (IZR (Zpos mx) * bpow ex / (IZR (Zpos my) * bpow ey)));
    [exact Hr | ].
  pose proof (bpow_pos ey).
  assert (0 < IZR (Zpos my))%R by (apply IZR_lt; lia).
  destruct sx, sy; cbn [signed xorb]; field; nra.
Qed.

Lemma shl_align_fst (mx : positive) (ex ez : Z) :
  ez <= ex -> Zpos (fst (shl_align mx ex ez)) = Zpos mx * 2 ^ (ex - ez).
Proof.
  intros H. unfold shl_align.
  destruct (ez - ex) as [ | d | d] eqn:E; try lia.
  - replace (ex - ez) with 0 by lia. cbn [fst]. lia.
  - cbn [fst]. rewrite iter_xO_pow. f_equal. f_equal. lia.
Qed.

Lemma binary_normalize_rounds (S ez : Z) :
  -1000 <= ez -> Z.log2 (Z.abs S) + ez <= 1000 ->
  let f := binary_normalize prec emax S ez false in
  well_formed f /\ nearest (IZR S * bpow ez) (SF2R f).
Proof.
  intros He Hl. destruct S as [ | p | p]; cbn [binary_normalize].
  - split; [exact I | ]. rewrite Rmult_0_l. apply nearest_self_zero.
  - pose proof (Z.log2_nonneg (Zpos p)). cbn [Z.abs] in Hl.
    destruct (binary_round_rounds false p ez ltac:(lia)) as (Hn & Hr & _).
    split; [apply normal_well_formed, Hn | exact Hr].
  - pose proof (Z.log2_nonneg (Zpos p)). cbn [Z.abs] in Hl.
    destruct (binary_round_rounds true p ez ltac:(lia)) as (Hn & Hr & _).
    split; [apply normal_well_formed, Hn | ].
    cbn [signed] in Hr. change (Zneg p) with (- Zpos p). rewrite opp_IZR.
    replace (- IZR (Zpos p) * bpow ez)%R with (- (IZR (Zpos p) * bpow ez))%R by ring.
    exact Hr.
Qed.

Lemma IZR_cond_Zopp_Z (s : bool) (z : Z) :
  IZR (cond_Zopp s z) = signed s (IZR z).
Proof.
  destruct s; cbn [cond_Zopp signed]; [ | reflexivity].
  rewrite opp_IZR. reflexivity.
Qed.

Lemma aligned_value (m : positive) (e ez : Z) :
  ez <= e ->
  (IZR (Zpos (fst (shl_align m e ez))) * bpow ez = IZR (Zpos m) * bpow e)%R.
Proof.
  intros H. rewrite shl_align_fst, mult_IZR, <- bpow_IZR by lia.
  rewrite Rmult_assoc, <- bpow_add. f_equal. f_equal. lia.
Qed.

Lemma aligned_bound (m : positive) (e ez M : Z) :
  ez <= e -> e <= M -> Zpos m < 2 ^ 53 ->
  Zpos (fst (shl_align m e ez)) < 2 ^ (53 + M - ez).
Proof.
  intros H1 H2 Hm. rewrite shl_align_fst by assumption.
  replace (53 + M - ez) with (53 + (e - ez) + (M - e)) by lia.
  rewrite !Z.pow_add_r by lia.
  pose proof (Z.pow_pos_nonneg 2 (e - ez) ltac:(lia) ltac:(lia)).
  pose proof (Z.pow_pos_nonneg 2 (M - e) ltac:(lia) ltac:(lia)).
  nia.
Qed.

Lemma fsub_rounds (x y : float) :
  well_formed x -> well_formed y ->
  -900 <= expo x <= 900 -> -900 <= expo y <= 900 ->
  well_formed (fsub x y) /\ nearest (SF2R x - SF2R y) (SF2R (fsub x y)).
Proof.
  intros Wx Wy Ex Ey.
  destruct x as [sx | sx | | sx mx ex]; try contradiction;
    destruct y as [sy | sy | | sy my ey]; try contradiction.
  - replace (SF2R (S754_zero sx) - SF2R (S754_zero sy))%R with 0%R
      by (cbn [SF2R]; ring).
    destruct sx, sy; cbn; (split; [exact I | apply nearest_self_zero]).
  - unfold fsub. cbn [SFsub]. split.
    + exact Wy.
    + replace (SF2R (S754_zero sx) - SF2R (S754_finite sy my ey))%R
        with (SF2R (S754_finite (negb sy) my ey)); [apply nearest_refl | ].
      rewrite !SF2R_finite. cbn [SF2R]. destruct sy; cbn [signed negb]; ring.
  - unfold fsub. cbn [SFsub]. split; [exact Wx | ].
    replace (SF2R (S754_finite sx mx ex) - SF2R (S754_zero sy))%R
      with (SF2R (S754_finite sx mx ex)) by (cbn [SF2R]; ring).
    apply nearest_refl.
  - cbn [expo] in Ex, Ey. cbn [well_formed normal] in Wx, Wy.
    destruct Wx as [Mx _]. destruct Wy as [My _].
    unfold fsub. cbn [SFsub].
    set (ez := Z.min ex ey).
    set (M := Z.max ex ey).
    assert (Hzx : ez <= ex) by (unfold ez; lia).
    assert (Hzy : ez <= ey) by (unfold ez; lia).
    pose proof (aligned_value mx ex ez Hzx) as Vx.
    pose proof (aligned_value my ey ez Hzy) as Vy.
    pose proof (aligned_bound mx ex ez M Hzx ltac:(unfold M; lia) ltac:(lia)) as Bx.
    pose proof (aligned_bound my ey ez M Hzy ltac:(unfold M; lia) ltac:(lia)) as By.
    set (X := Zpos (fst (shl_align mx ex ez))) in *.
    set (Y := Zpos (fst (shl_align my ey ez))) in *.
    set (S := cond_Zopp sx X - cond_Zopp sy Y).
    assert (BS : Z.abs S < 2 ^ (54 + M - ez)).
    { replace (54 + M - ez) with (1 + (53 + M - ez)) by lia.
      rewrite Z.pow_add_r by (unfold M, ez; lia). change (2 ^ 1) with 2.
      assert (0 < X) by (unfold X; lia). assert (0 < Y) by (unfold Y; lia).
      unfold S. destruct sx, sy; cbn [cond_Zopp]; lia. }
    assert (LS : Z.log2 (Z.abs S) + ez <= 1000).
    { destruct (Z.eq_dec S 0) as [E0 | E0].
      - rewrite E0. cbn. unfold ez. lia.
      - assert (Z.log2 (Z.abs S) < 54 + M - ez).
        { apply Z.log2_lt_pow2; lia. }
        unfold M in *. lia. }
    destruct (binary_normalize_rounds S ez ltac:(unfold ez; lia) LS) as (Hw & Hr).
    split; [exact Hw | ].
    replace (SF2R (S754_finite sx mx ex) - SF2R (S754_finite sy my ey))%R
      with (IZR S * bpow ez)%R; [exact Hr | ].
    unfold S. rewrite minus_IZR, !IZR_cond_Zopp_Z, !SF2R_finite.
    rewrite <- Vx, <- Vy. destruct sx, sy; cbn [signed]; ring.
Qed.

Lemma pow2_neg_pos (e : Z) : e < 0 -> 0 < 2 ^ (- e).
Proof. intros H. apply Z.pow_pos_nonneg; lia. Qed.

(** [int(f)] truncates: the integer part of the magnitude, with the sign. *)
Lemma int_of_float_magnitude (m : positive) (e : Z) :
  let T := if 0 <=? e then Zpos m * 2 ^ e else Zpos m / 2 ^ (- e) in
  0 <= T /\ (IZR T <= IZR (Zpos m) * bpow e < IZR T + 1)%R.
Proof.
  destruct (Z.leb_spec 0 e) as [He | He]; cbn zeta.
  - pose proof (Z.pow_pos_nonneg 2 e ltac:(lia) He).
    split; [lia | ]. rewrite mult_IZR, <- bpow_IZR by assumption. lra.
  - pose proof (pow2_neg_pos e He) as P.
    pose proof (Z.div_mod (Zpos m) (2 ^ (- e)) ltac:(lia)) as E.
    pose proof (Z.mod_pos_bound (Zpos m) (2 ^ (- e)) P) as B.
    split; [apply Z.div_pos; lia | ].
    set (T := Zpos m / 2 ^ (- e)) in *. set (r := Zpos m mod 2 ^ (- e)) in *.
    pose proof (bpow_neg (- e) ltac:(lia)) as Eb. rewrite Z.opp_involutive in Eb.
    pose proof (bpow_pos e) as Pb.
    assert (PR : (0 < IZR (2 ^ (- e)))%R) by (apply IZR_lt; assumption).
    assert (Er : (IZR (Zpos m) * bpow e = IZR T + IZR r * bpow e)%R).
    { rewrite E, plus_IZR, mult_IZR.
      replace ((IZR (2 ^ (- e)) * IZR T + IZR r) * bpow e)%R
        with (IZR T * (bpow e * IZR (2 ^ (- e))) + IZR r * bpow e)%R by ring.
      rewrite Eb. ring. }
    assert (R0 : (0 <= IZR r)%R) by (apply IZR_le; lia).
    assert (R1 : (IZR r < IZR (2 ^ (- e)))%R) by (apply IZR_lt; lia).
    assert (F1 : (IZR r * bpow e < 1)%R).
    { rewrite <- Eb. rewrite (Rmult_comm (bpow e)).
      apply Rmult_lt_compat_r; assumption. }
    assert (F0 : (0 <= IZR r * bpow e)%R) by (apply Rmult_le_pos; lra).
    lra.
Qed.

Lemma int_of_float_spec (f : float) :
  well_formed f ->
  exists z : Z, int_of_float f = Ok z /\
    ((0 <= SF2R f)%R -> 0 <= z /\ (IZR z <= SF2R f < IZR z + 1)%R) /\
    ((SF2R f <= 0)%R -> z <= 0 /\ (IZR z - 1 < SF2R f <= IZR z)%R).
Proof.
  destruct f as [s | s | | s m e]; try contradiction; intros W.
  - exists 0. cbn [int_of_float SF2R]. split; [reflexivity | ].
    split; intros _; (split; [lia | lra]).
  - cbn [int_of_float]. eexists. split; [reflexivity | ].
    destruct (int_of_float_magnitude m e) as (T0 & T1).
    set (T := if 0 <=? e then Zpos m * 2 ^ e else Zpos m / 2 ^ (- e)) in *.
    rewrite SF2R_finite.
    assert (V : (0 < IZR (Zpos m) * bpow e)%R).
    { apply Rmult_lt_0_compat; [apply IZR_lt; lia | apply bpow_pos]. }
    destruct s; cbn [signed cond_Zopp].
    + split; [intros; lra | intros _]. split; [lia | ].
      rewrite opp_IZR. lra.
    + split; [intros _ | intros; lra]. split; [lia | lra].
Qed.

(** ** Comparison with an [int]; uniqueness of normal floats *)

Lemma int_lt_float_spec (z : Z) (f : float) :
  well_formed f -> (int_lt_float z f = true <-> (IZR z < SF2R f)%R).
Proof.
  destruct f as [s | s | | s m e]; try contradiction; intros _.
  - cbn [int_lt_float SF2R]. rewrite Z.ltb_lt. split.
    + intros H. apply IZR_lt in H. exact H.
    + intros H. apply lt_IZR. exact H.
  - cbn [int_lt_float SF2R]. destruct (Z.leb_spec 0 e) as [He | He].
    + rewrite Z.ltb_lt, bpow_IZR, <- mult_IZR by assumption. split.
      * apply IZR_lt.
      * apply lt_IZR.
    + pose proof (pow2_neg_pos e He) as P.
      pose proof (bpow_neg (- e) ltac:(lia)) as Eb.
      rewrite Z.opp_involutive in Eb.
      assert (PR : (0 < IZR (2 ^ (- e)))%R) by (apply IZR_lt; assumption).
      pose proof (bpow_pos e) as Pb.
      rewrite Z.ltb_lt. split.
      * intros H. apply IZR_lt in H. rewrite mult_IZR in H.
        apply Rmult_lt_reg_r with (IZR (2 ^ (- e))); [assumption | ].
        rewrite Rmult_assoc, Eb. lra.
      * intros H. apply lt_IZR. rewrite mult_IZR.
        apply Rmult_lt_compat_r with (r := IZR (2 ^ (- e))) in H; [ | assumption].
        rewrite Rmult_assoc, Eb in H. lra.
Qed.

Lemma normal_value_pos (s : bool) (m : positive) (e : Z) :
  (0 < IZR (Zpos m) * bpow e)%R.
Proof.
  apply Rmult_lt_0_compat; [apply IZR_lt; lia | apply bpow_pos].
Qed.

(** Two normal floats with the same value are the same float. *)
Lemma normal_eq (f g : float) :
  normal f -> normal g -> SF2R f = SF2R g -> f = g.
Proof.
  intros Hf Hg E.
  destruct (normal_finite f Hf) as (s1 & m1 & e1 & -> & M1 & E1).
  destruct (normal_finite g Hg) as (s2 & m2 & e2 & -> & M2 & E2).
  rewrite !SF2R_finite in E.
  pose proof (normal_value_pos s1 m1 e1) as P1.
  pose proof (normal_value_pos s2 m2 e2) as P2.
  assert (Es : s1 = s2).
  { destruct s1, s2; cbn [signed] in E; try reflexivity; lra. }
  subst s2.
  assert (Ev : (IZR (Zpos m1) * bpow e1 = IZR (Zpos m2) * bpow e2)%R).
  { destruct s1; cbn [signed] in E; lra. }
  assert (G : forall (a b : positive) (ea eb : Z),
             2 ^ 52 <= Zpos a < 2 ^ 53 -> 2 ^ 52 <= Zpos b < 2 ^ 53 ->
             (IZR (Zpos a) * bpow ea = IZR (Zpos b) * bpow eb)%R ->
             ea <= eb -> ea = eb /\ a = b).
  { intros a b ea eb Ma Mb Eab Hle.
    replace eb with (ea + (eb - ea)) in Eab by lia.
    rewrite bpow_add, (bpow_IZR (eb - ea)) in Eab by lia.
    assert (Ez : Zpos a = Zpos b * 2 ^ (eb - ea)).
    { apply eq_IZR. rewrite mult_IZR.
      apply Rmult_eq_reg_r with (bpow ea); [ | pose proof (bpow_pos ea); lra].
      rewrite Eab. ring. }
    destruct (Z.eq_dec ea eb) as [Ee | Ne].
    - split; [assumption | ]. subst eb. rewrite Z.sub_diag in Ez.
      change (2 ^ 0) with 1 in Ez. lia.
    - exfalso.
      assert (2 <= 2 ^ (eb - ea)).
      { change 2 with (2 ^ 1) at 1. apply Z.pow_le_mono_r; lia. }
      change (2 ^ 53) with (2 * 2 ^ 52) in *.
      pose proof (Z.pow_pos_nonneg 2 52 ltac:(lia) ltac:(lia)). nia. }
  destruct (Z_le_gt_dec e1 e2) as [Hle | Hgt].
  - destruct (G m1 m2 e1 e2 M1 M2 Ev Hle) as [-> ->]. reflexivity.
  - destruct (G m2 m1 e2 e1 M2 M1 (eq_sym Ev) ltac:(lia)) as [-> ->]. reflexivity.
Qed.

Lemma bpow_m10 : bpow (-10) = (/ 1024)%R.
Proof.
  pose proof (bpow_neg 10 ltac:(lia)) as H. change (2 ^ 10) with 1024 in H.
  change (- (10)) with (-10) in H.
  apply Rmult_eq_reg_r with 1024%R; [ | lra].
  rewrite H. field.
Qed.

Lemma rounded_bracket (x : R) (f : float) (q : Z) :
  nearest x (SF2R f) -> 0 <= q < 2 ^ 42 ->
  (IZR q <= x <= IZR q + 1 - / 1024)%R ->
  (IZR q <= SF2R f <= IZR q + 1 - / 1024)%R.
Proof.
  intros N Hq [Lx Ux]. split.
  - replace (IZR q) with (IZR q * bpow 0)%R by (rewrite bpow_0; ring).
    apply (nearest_ge x); [assumption | | rewrite bpow_0; lra].
    assert (2 ^ 42 < 2 ^ 53) by (apply Z.pow_lt_mono_r; lia). lia.
  - replace (IZR q + 1 - / 1024)%R with (IZR ((q + 1) * 1024 - 1) * bpow (-10))%R.
    + apply (nearest_le x); [assumption | | ].
      * change (2 ^ 53) with (2 ^ 42 * 2048).
        pose proof (Z.pow_pos_nonneg 2 42 ltac:(lia) ltac:(lia)). lia.
      * rewrite bpow_m10, minus_IZR, mult_IZR, plus_IZR. lra.
    + rewrite bpow_m10, minus_IZR, mult_IZR, plus_IZR. field.
Qed.

(** A rounded nonnegative number whose exact value leaves room below the
    next integer truncates to the floor of the exact value. *)
Lemma int_of_rounded (x : R) (f : float) (q : Z) :
  well_formed f -> nearest x (SF2R f) -> 0 <= q < 2 ^ 42 ->
  (IZR q <= x <= IZR q + 1 - / 1024)%R ->
  int_of_float f = Ok q.
Proof.
  intros W N Hq Hx.
  destruct (rounded_bracket x f q N Hq Hx) as [L U].
  destruct (int_of_float_spec f W) as (z & Ez & Hpos & _).
  assert (P : (0 <= SF2R f)%R).
  { apply Rle_trans with (IZR q); [apply IZR_le; lia | assumption]. }
  destruct (Hpos P) as (Hz & Lz & Uz).
  rewrite Ez. f_equal.
  assert (z < q + 1) by (apply lt_IZR; rewrite plus_IZR; lra).
  assert (q < z + 1) by (apply lt_IZR; rewrite plus_IZR; lra).
  lia.
Qed.

(** ** The constants *)

Lemma bpow_neg_inv (e : Z) : 0 <= e -> bpow (- e) = (/ IZR (2 ^ e))%R.
Proof.
  intros He. pose proof (bpow_neg e He) as H.
  assert (P : (0 < IZR (2 ^ e))%R).
  { apply IZR_lt. apply Z.pow_pos_nonneg; lia. }
  apply Rmult_eq_reg_r with (IZR (2 ^ e)); [ | lra].
  rewrite H. field. lra.
Qed.

Lemma VERTICAL_EXPANSION_FACTOR_value :
  SF2R VERTICAL_EXPANSION_FACTOR = (8106479329266893 / 4503599627370496)%R.
Proof.
  unfold VERTICAL_EXPANSION_FACTOR. cbn [SF2R cond_Zopp].
  change (-52) with (- (52)). rewrite bpow_neg_inv by lia.
  change (2 ^ 52) with 4503599627370496. reflexivity.
Qed.

Lemma FACE_HORIZONTAL_PADDING_value :
  SF2R FACE_HORIZONTAL_PADDING = (4953959590107546 / 4503599627370496)%R.
Proof.
  unfold FACE_HORIZONTAL_PADDING. cbn [SF2R cond_Zopp].
  change (-52) with (- (52)). rewrite bpow_neg_inv by lia.
  change (2 ^ 52) with 4503599627370496. reflexivity.
Qed.

Lemma PORTRAIT_ASPECT_RATIO_value :
  SF2R PORTRAIT_ASPECT_RATIO = (3 / 4)%R.
Proof.
  unfold PORTRAIT_ASPECT_RATIO. cbn [SF2R cond_Zopp].
  change (-53) with (- (53)). rewrite bpow_neg_inv by lia.
  change (2 ^ 53) with 9007199254740992. field.
Qed.

Lemma FACE_VERTICAL_ANCHOR_value :
  SF2R FACE_VERTICAL_ANCHOR = (8286623314361713 / 36028797018963968)%R.
Proof.
  unfold FACE_VERTICAL_ANCHOR. cbn [SF2R cond_Zopp].
  change (-55) with (- (55)). rewrite bpow_neg_inv by lia.
  change (2 ^ 55) with 36028797018963968. reflexivity.
Qed.

Lemma constants_normal :
  normal VERTICAL_EXPANSION_FACTOR /\ normal FACE_HORIZONTAL_PADDING /\
  normal PORTRAIT_ASPECT_RATIO /\ normal FACE_VERTICAL_ANCHOR.
Proof.
  unfold VERTICAL_EXPANSION_FACTOR, FACE_HORIZONTAL_PADDING,
    PORTRAIT_ASPECT_RATIO, FACE_VERTICAL_ANCHOR. cbn [normal].
  change (2 ^ 52) with 4503599627370496. change (2 ^ 53) with 9007199254740992.
  lia.
Qed.

Lemma int_mul_float_rounds (z : Z) (c : float) :
  z <> 0 -> Z.abs z < 2 ^ 53 -> normal c -> -60 <= expo c <= 0 ->
  exists t, int_mul_float z c = Ok t /\ normal t /\
            nearest (IZR z * SF2R c) (SF2R t) /\ -60 <= expo t <= 55.
Proof.
  intros Hz Bz Nc Ec.
  destruct (float_of_int_exact z Hz Bz) as (x & Ex & Nx & Vx & Xx).
  destruct (fmul_rounds x c Nx Nc ltac:(lia)) as (Nt & Rt & Et).
  exists (fmul x c). unfold int_mul_float. rewrite Ex. cbn [bind].
  split; [reflexivity | split; [assumption | split; [ | lia]]].
  rewrite <- Vx. exact Rt.
Qed.

(** [int(z * c)] for a positive [z] and a constant [c]. *)
Lemma int_mul_const (z q : Z) (c : float) :
  0 < z < 2 ^ 42 -> normal c -> -60 <= expo c <= 0 -> 0 <= q < 2 ^ 42 ->
  (IZR q <= IZR z * SF2R c <= IZR q + 1 - / 1024)%R ->
  (t <- int_mul_float z c ;; int_of_float t) = Ok q.
Proof.
  intros Hz Nc Ec Hq Hx.
  assert (2 ^ 42 < 2 ^ 53) by (apply Z.pow_lt_mono_r; lia).
  destruct (int_mul_float_rounds z c ltac:(lia) ltac:(lia) Nc Ec)
    as (t & Et & Nt & Rt & _).
  rewrite Et. cbn [bind].
  apply (int_of_rounded (IZR z * SF2R c)); try assumption.
  apply normal_well_formed, Nt.
Qed.

(** ** The crop size *)

(** The floor of a quotient, read in the reals. *)
Lemma floor_div_real (a b : Z) :
  0 < b ->
  (IZR b * IZR (a / b) <= IZR a <= IZR b * IZR (a / b) + IZR b - 1)%R.
Proof.
  intros Hb. pose proof (Z.div_mod a b ltac:(lia)) as E.
  pose proof (Z.mod_pos_bound a b Hb) as B.
  assert (L : b * (a / b) <= a) by lia.
  assert (U : a <= b * (a / b) + b - 1) by lia.
  apply IZR_le in L, U.
  rewrite minus_IZR, plus_IZR, mult_IZR in U. rewrite mult_IZR in L.
  split; assumption.
Qed.

Lemma height_from_face (h_f : Z) :
  0 < h_f < 2 ^ 32 ->
  (t <- int_mul_float h_f VERTICAL_EXPANSION_FACTOR ;; int_of_float t)
  = Ok (9 * h_f / 5).
Proof.
  intros Hh. destruct constants_normal as (N1 & _).
  change (2 ^ 32) with 4294967296 in Hh.
  assert (Hq : 0 <= 9 * h_f / 5 < 8589934592).
  { split; [apply Z.div_pos; lia | apply Z.div_lt_upper_bound; lia]. }
  apply int_mul_const; try assumption.
  - change (2 ^ 42) with 4398046511104. lia.
  - cbn. lia.
  - change (2 ^ 42) with 4398046511104. lia.
  - rewrite VERTICAL_EXPANSION_FACTOR_value.
    pose proof (floor_div_real (9 * h_f) 5 ltac:(lia)) as F.
    rewrite mult_IZR in F.
    assert (B1 : (0 < IZR h_f)%R) by (apply IZR_lt; lia).
    assert (B2 : (IZR h_f < 4294967296)%R) by (apply IZR_lt; lia).
    lra.
Qed.

Lemma width_from_height (H_crop : Z) :
  0 < H_crop < 2 ^ 34 ->
  (t <- int_mul_float H_crop PORTRAIT_ASPECT_RATIO ;; int_of_float t)
  = Ok (3 * H_crop / 4).
Proof.
  intros Hh. destruct constants_normal as (_ & _ & N3 & _).
  change (2 ^ 34) with 17179869184 in Hh.
  assert (Hq : 0 <= 3 * H_crop / 4 < 17179869184).
  { split; [apply Z.div_pos; lia | apply Z.div_lt_upper_bound; lia]. }
  apply int_mul_const; try assumption.
  - change (2 ^ 42) with 4398046511104. lia.
  - cbn. lia.
  - change (2 ^ 42) with 4398046511104. lia.
  - rewrite PORTRAIT_ASPECT_RATIO_value.
    pose proof (floor_div_real (3 * H_crop) 4 ltac:(lia)) as F.
    rewrite mult_IZR in F. lra.
Qed.

Lemma padded_face_width (w_f : Z) :
  0 < w_f < 2 ^ 32 ->
  exists padded,
    int_mul_float w_f FACE_HORIZONTAL_PADDING = Ok padded /\ normal padded /\
    (IZR (11 * w_f / 10) <= SF2R padded <= IZR (11 * w_f / 10) + 1 - / 1024)%R /\
    int_of_float padded = Ok (11 * w_f / 10).
Proof.
  intros Hw. destruct constants_normal as (_ & N2 & _).
  change (2 ^ 32) with 4294967296 in Hw.
  assert (Hq : 0 <= 11 * w_f / 10 < 8589934592).
  { split; [apply Z.div_pos; lia | apply Z.div_lt_upper_bound; lia]. }
  assert (P53 : 2 ^ 53 = 9007199254740992) by reflexivity.
  destruct (int_mul_float_rounds w_f FACE_HORIZONTAL_PADDING)
    as (t & Et & Nt & Rt & _); try assumption; try lia.
  { cbn. lia. }
  exists t. split; [assumption | split; [assumption | ]].
  assert (Hx : (IZR (11 * w_f / 10) <= IZR w_f * SF2R FACE_HORIZONTAL_PADDING
                <= IZR (11 * w_f / 10) + 1 - / 1024)%R).
  { rewrite FACE_HORIZONTAL_PADDING_value.
    pose proof (floor_div_real (11 * w_f) 10 ltac:(lia)) as F.
    rewrite mult_IZR in F.
    assert (B1 : (0 < IZR w_f)%R) by (apply IZR_lt; lia).
    assert (B2 : (IZR w_f < 4294967296)%R) by (apply IZR_lt; lia).
    lra. }
  assert (Hq' : 0 <= 11 * w_f / 10 < 2 ^ 42).
  { change (2 ^ 42) with 4398046511104. lia. }
  split.
  - apply (rounded_bracket _ _ _ Rt Hq' Hx).
  - apply (int_of_rounded _ _ _ (normal_well_formed _ Nt) Rt Hq' Hx).
Qed.

Lemma height_from_width (W_crop : Z) :
  0 < W_crop < 2 ^ 34 ->
  (t <- int_div_float W_crop PORTRAIT_ASPECT_RATIO ;; int_of_float t)
  = Ok (4 * W_crop / 3).
Proof.
  intros Hw. destruct constants_normal as (_ & _ & N3 & _).
  change (2 ^ 34) with 17179869184 in Hw.
  assert (Hq : 0 <= 4 * W_crop / 3 < 4398046511104).
  { split; [apply Z.div_pos; lia | apply Z.div_lt_upper_bound; lia]. }
  assert (P53 : 2 ^ 53 = 9007199254740992) by reflexivity.
  destruct (float_of_int_exact W_crop ltac:(lia) ltac:(lia))
    as (x & Ex & Nx & Vx & Xx).
  unfold int_div_float. rewrite Ex. cbn [bind].
  assert (Ep : expo PORTRAIT_ASPECT_RATIO = -53) by reflexivity.
  destruct (fdiv_rounds x PORTRAIT_ASPECT_RATIO Nx N3 ltac:(lia)) as (Nt & Rt & _).
  unfold PORTRAIT_ASPECT_RATIO at 1. cbn [float_truediv bind].
  fold PORTRAIT_ASPECT_RATIO.
  apply (int_of_rounded (SF2R x / SF2R PORTRAIT_ASPECT_RATIO)).
  - apply normal_well_formed, Nt.
  - exact Rt.
  - exact Hq.
  - rewrite Vx, PORTRAIT_ASPECT_RATIO_value.
    pose proof (floor_div_real (4 * W_crop) 3 ltac:(lia)) as F.
    rewrite mult_IZR in F.
    replace (IZR W_crop / (3 / 4))%R with (4 * IZR W_crop / 3)%R by field.
    lra.
Qed.

Lemma crop_size_spec (w_f h_f : Z) :
  0 < w_f < 2 ^ 32 -> 0 < h_f < 2 ^ 32 ->
  exists padded,
    int_mul_float w_f FACE_HORIZONTAL_PADDING = Ok padded /\ normal padded /\
    (IZR (11 * w_f / 10) <= SF2R padded <= IZR (11 * w_f / 10) + 1 - / 1024)%R /\
    width_driven w_f h_f = Ok (int_lt_float (3 * (9 * h_f / 5) / 4) padded) /\
    crop_size w_f h_f =
      Ok (if int_lt_float (3 * (9 * h_f / 5) / 4) padded
          then (11 * w_f / 10, 4 * (11 * w_f / 10) / 3)
          else (3 * (9 * h_f / 5) / 4, 9 * h_f / 5)).
Proof.
  intros Hw Hh.
  destruct (padded_face_width w_f Hw) as (padded & Ep & Np & Bp & Ip).
  exists padded. split; [assumption | split; [assumption | split; [assumption | ]]].
  change (2 ^ 32) with 4294967296 in *.
  assert (HH : 0 < 9 * h_f / 5 < 2 ^ 34).
  { change (2 ^ 34) with 17179869184.
    split; [apply Z.div_str_pos; lia | apply Z.div_lt_upper_bound; lia]. }
  assert (HW : 0 < 11 * w_f / 10 < 2 ^ 34).
  { change (2 ^ 34) with 17179869184.
    split; [apply Z.div_str_pos; lia | apply Z.div_lt_upper_bound; lia]. }
  unfold width_driven, crop_size.
  rewrite (height_from_face h_f) by (change (2 ^ 32) with 4294967296; lia).
  cbn [bind]. rewrite (width_from_height _ HH). cbn [bind].
  rewrite Ep. cbn [bind]. split; [reflexivity | ].
  destruct (int_lt_float (3 * (9 * h_f / 5) / 4) padded); [ | reflexivity].
  rewrite Ip. cbn [bind]. rewrite (height_from_width _ HW). reflexivity.
Qed.

(** ** The crop placement *)

Lemma bpow_m1 : bpow (-1) = (/ 2)%R.
Proof.
  change (-1) with (- (1)). rewrite bpow_neg_inv by lia.
  change (2 ^ 1) with 2. reflexivity.
Qed.

(** [a / 2] on an [int] is exact. *)
Lemma int_truediv_2 (a : Z) :
  Z.abs a < 2 ^ 53 ->
  exists f, int_truediv a 2 = Ok f /\ well_formed f /\
            SF2R f = (IZR a / 2)%R /\ -900 <= expo f <= 900.
Proof.
  intros Ha. destruct (Z.eq_dec a 0) as [-> | Na].
  - exists (S754_zero false). rewrite int_truediv_0 by lia.
    split; [reflexivity | split; [exact I | ]].
    cbn [SF2R expo]. split; [lra | lia].
  - destruct (int_truediv_rounds a 2 Na Ha) as (f & Ef & Nf & Rf & Xf).
    { change (2 ^ 53) with 9007199254740992. lia. }
    exists f. split; [assumption | split; [apply normal_well_formed, Nf | ]].
    split; [ | lia].
    apply (nearest_exact _ _ a (-1) Rf Ha). rewrite bpow_m1. reflexivity.
Qed.

Lemma trunc_half (S z : Z) (v : R) :
  v = (IZR S / 2)%R ->
  ((0 <= v)%R -> 0 <= z /\ (IZR z <= v < IZR z + 1)%R) ->
  ((v <= 0)%R -> z <= 0 /\ (IZR z - 1 < v <= IZR z)%R) ->
  z = Z.quot S 2.
Proof.
  intros Ev Hp Hn.
  destruct (Z_le_gt_dec 0 S) as [HS | HS].
  - assert (P : (0 <= v)%R).
    { rewrite Ev. apply IZR_le in HS. lra. }
    destruct (Hp P) as (Hz & L & U). rewrite Ev in L, U.
    assert (2 * z <= S) by (apply le_IZR; rewrite mult_IZR; lra).
    assert (S < 2 * z + 2) by (apply lt_IZR; rewrite plus_IZR, mult_IZR; lra).
    rewrite Z.quot_div_nonneg by lia.
    apply Z.div_unique with (S - 2 * z); lia.
  - assert (P : (v <= 0)%R).
    { rewrite Ev. assert (S <= 0) as H by lia. apply IZR_le in H. lra. }
    destruct (Hn P) as (Hz & L & U). rewrite Ev in L, U.
    assert (S <= 2 * z) by (apply le_IZR; rewrite mult_IZR; lra).
    assert (2 * z - 2 < S) by (apply lt_IZR; rewrite minus_IZR, mult_IZR; lra).
    replace S with (- (- S)) by lia. rewrite Z.quot_opp_l by lia.
    rewrite Z.quot_div_nonneg by lia.
    assert (- z = - S / 2); [ | lia].
    apply Z.div_unique with (- S + 2 * z); lia.
Qed.

Lemma crop_origin_x (x0_f x1_f W_crop : Z) :
  Z.abs (x0_f + x1_f) < 2 ^ 52 -> 0 <= W_crop < 2 ^ 52 ->
  (c <- int_truediv (x0_f + x1_f) 2 ;;
   h <- int_truediv W_crop 2 ;;
   int_of_float (fsub c h)) = Ok (Z.quot (x0_f + x1_f - W_crop) 2).
Proof.
  intros Hx Hw.
  assert (P : 2 ^ 53 = 2 * 2 ^ 52) by reflexivity.
  pose proof (Z.pow_pos_nonneg 2 52 ltac:(lia) ltac:(lia)) as P52.
  destruct (int_truediv_2 (x0_f + x1_f) ltac:(lia)) as (c & Ec & Wc & Vc & Xc).
  destruct (int_truediv_2 W_crop ltac:(lia)) as (h & Eh & Wh & Vh & Xh).
  rewrite Ec, Eh. cbn [bind].
  destruct (fsub_rounds c h Wc Wh Xc Xh) as (Wt & Rt).
  assert (Ev : SF2R (fsub c h) = (IZR (x0_f + x1_f - W_crop) / 2)%R).
  { rewrite Vc, Vh in Rt.
    assert (E : (IZR (x0_f + x1_f) / 2 - IZR W_crop / 2
                 = IZR (x0_f + x1_f - W_crop) * bpow (-1))%R).
    { rewrite bpow_m1, minus_IZR. field. }
    rewrite (nearest_exact _ _ (x0_f + x1_f - W_crop) (-1) Rt ltac:(lia) E).
    rewrite minus_IZR. field. }
  destruct (int_of_float_spec _ Wt) as (z & Ez & Hp & Hn).
  rewrite Ez. f_equal. apply (trunc_half _ _ _ Ev Hp Hn).
Qed.

Lemma FACE_VERTICAL_ANCHOR_above :
  (23 / 100 <= SF2R FACE_VERTICAL_ANCHOR <= 23 / 100 + / 1000000000000000)%R.
Proof. rewrite FACE_VERTICAL_ANCHOR_value. lra. Qed.

Lemma crop_origin_y (y0_f H_crop : Z) :
  Z.abs y0_f < 2 ^ 40 -> 0 < H_crop < 2 ^ 34 ->
  exists y0_c,
    (a <- int_mul_float H_crop FACE_VERTICAL_ANCHOR ;;
     t <- int_sub_float y0_f a ;; int_of_float t) = Ok y0_c /\
    100 * y0_f - 23 * H_crop - 100 <= 100 * y0_c <= 100 * y0_f - 23 * H_crop + 100.
Proof.
  intros Hy Hh. destruct constants_normal as (_ & _ & _ & N4).
  change (2 ^ 34) with 17179869184 in Hh.
  change (2 ^ 40) with 1099511627776 in Hy.
  assert (P53 : 2 ^ 53 = 9007199254740992) by reflexivity.
  destruct (int_mul_float_rounds H_crop FACE_VERTICAL_ANCHOR)
    as (a & Ea & Na & Ra & Xa); try assumption; try lia.
  { cbn. lia. }
  rewrite Ea. cbn [bind].
  assert (Ey : exists y, float_of_int y0_f = Ok y /\ well_formed y /\
                         SF2R y = IZR y0_f /\ -900 <= expo y <= 900).
  { destruct (Z.eq_dec y0_f 0) as [-> | Ny].
    - exists (S754_zero false). rewrite float_of_int_0.
      split; [reflexivity | split; [exact I | ]]. cbn [SF2R expo]. split; [reflexivity | lia].
    - destruct (float_of_int_exact y0_f Ny ltac:(lia)) as (y & E1 & E2 & E3 & E4).
      exists y. split; [assumption | split; [apply normal_well_formed, E2 | ]].
      split; [assumption | lia]. }
  destruct Ey as (y & Ey & Wy & Vy & Xy).
  unfold int_sub_float. rewrite Ey. cbn [bind].
  destruct (fsub_rounds y a Wy (normal_well_formed _ Na) Xy ltac:(lia)) as (Wt & Rt).
  rewrite Vy in Rt.
  (* the product lies between two multiples of 1/1024 *)
  set (k := 23 * 1024 * H_crop / 100).
  pose proof (floor_div_real (23 * 1024 * H_crop) 100 ltac:(lia)) as F.
  fold k in F. rewrite !mult_IZR in F.
  assert (Hk : 0 <= k < 4398046511104).
  { unfold k. split; [apply Z.div_pos; lia | apply Z.div_lt_upper_bound; lia]. }
  assert (B1 : (0 < IZR H_crop)%R) by (apply IZR_lt; lia).
  assert (B2 : (IZR H_crop < 17179869184)%R) by (apply IZR_lt; lia).
  pose proof FACE_VERTICAL_ANCHOR_above as [A1 A2].
  assert (X1 : (IZR H_crop * (23 / 100) <= IZR H_crop * SF2R FACE_VERTICAL_ANCHOR)%R).
  { apply Rmult_le_compat_l; lra. }
  assert (X2 : (IZR H_crop * SF2R FACE_VERTICAL_ANCHOR
                <= IZR H_crop * (23 / 100 + / 1000000000000000))%R).
  { apply Rmult_le_compat_l; lra. }
  assert (La : (IZR k * bpow (-10) <= SF2R a)%R).
  { apply (nearest_ge _ _ _ _ Ra); [lia | ]. rewrite bpow_m10. lra. }
  assert (Ua : (SF2R a <= IZR (k + 2) * bpow (-10))%R).
  { apply (nearest_le _ _ _ _ Ra); [lia | ]. rewrite bpow_m10, plus_IZR. lra. }
  assert (By : (- 1099511627776 < IZR y0_f < 1099511627776)%R).
  { split; [apply (IZR_lt (- 1099511627776)) | apply IZR_lt]; lia. }
  assert (Lt : (IZR (1024 * y0_f - k - 2) * bpow (-10) <= SF2R (fsub y a))%R).
  { apply (nearest_ge _ _ _ _ Rt); [lia | ].
    rewrite bpow_m10 in *. rewrite !minus_IZR, mult_IZR. rewrite plus_IZR in Ua. lra. }
  assert (Ut : (SF2R (fsub y a) <= IZR (1024 * y0_f - k) * bpow (-10))%R).
  { apply (nearest_le _ _ _ _ Rt); [lia | ].
    rewrite bpow_m10 in *. rewrite !minus_IZR, mult_IZR. lra. }
  rewrite bpow_m10 in Lt, Ut.
  repeat rewrite minus_IZR in Lt. rewrite mult_IZR in Lt.
  repeat rewrite minus_IZR in Ut. rewrite mult_IZR in Ut.
  destruct (int_of_float_spec _ Wt) as (z & Ez & Hp & Hn).
  exists z. split; [assumption | ].
  assert (Bz : (SF2R (fsub y a) - 1 < IZR z < SF2R (fsub y a) + 1)%R).
  { destruct (Rle_lt_dec 0 (SF2R (fsub y a))) as [C | C].
    - destruct (Hp C) as (_ & L & U). lra.
    - destruct (Hn ltac:(lra)) as (_ & L & U). lra. }
  split.
  - assert (100 * y0_f - 23 * H_crop - 101 < 100 * z); [ | lia].
    apply lt_IZR. rewrite !minus_IZR, !mult_IZR. lra.
  - assert (100 * z < 100 * y0_f - 23 * H_crop + 101); [ | lia].
    apply lt_IZR. rewrite plus_IZR, !minus_IZR, !mult_IZR. lra.
Qed.

(** Two normal numbers are at least one unit of the smaller one apart. *)
Lemma normal_gap (m n : positive) (e s : Z) :
  2 ^ 52 <= Zpos m < 2 ^ 53 -> 2 ^ 52 <= Zpos n < 2 ^ 53 ->
  (IZR (Zpos n) * bpow s < IZR (Zpos m) * bpow e)%R ->
  (IZR (Zpos n + 1) * bpow s <= IZR (Zpos m) * bpow e)%R.
Proof.
  change (2 ^ 52) with 4503599627370496. change (2 ^ 53) with 9007199254740992.
  intros Hm Hn Hlt.
  pose proof (bpow_pos s) as Bs. pose proof (bpow_pos e) as Be.
  assert (M1 : (4503599627370496 <= IZR (Zpos m))%R) by (apply IZR_le; lia).
  assert (M2 : (IZR (Zpos m) <= 9007199254740991)%R) by (apply IZR_le; lia).
  assert (N1 : (4503599627370496 <= IZR (Zpos n))%R) by (apply IZR_le; lia).
  assert (N2 : (IZR (Zpos n) <= 9007199254740991)%R) by (apply IZR_le; lia).
  rewrite plus_IZR.
  destruct (Z.lt_trichotomy e s) as [C | [C | C]].
  - exfalso.
    assert (E : (bpow e <= bpow s / 2)%R).
    { replace (bpow s / 2)%R with (bpow (s + -1)).
      - apply bpow_le. lia.
      - rewrite bpow_add, bpow_m1. field. }
    assert (P1 : (IZR (Zpos m) * bpow e <= 9007199254740991 * (bpow s / 2))%R).
    { apply Rmult_le_compat; lra. }
    assert (P2 : (4503599627370496 * bpow s <= IZR (Zpos n) * bpow s)%R).
    { apply Rmult_le_compat_r; lra. }
    lra.
  - subst e.
    assert (L : (IZR (Zpos n) < IZR (Zpos m))%R).
    { apply Rmult_lt_reg_r with (bpow s); assumption. }
    apply lt_IZR in L.
    assert (L' : (IZR (Zpos n + 1) <= IZR (Zpos m))%R) by (apply IZR_le; lia).
    rewrite plus_IZR in L'.
    apply Rmult_le_compat_r; lra.
  - assert (E : (2 * bpow s <= bpow e)%R).
    { replace (2 * bpow s)%R with (bpow (s + 1)).
      - apply bpow_le. lia.
      - rewrite bpow_add. change (bpow 1) with (powerRZ 2 1). simpl. ring. }
    assert (P1 : (4503599627370496 * (2 * bpow s) <= IZR (Zpos m) * bpow e)%R).
    { apply Rmult_le_compat; lra. }
    assert (P2 : ((IZR (Zpos n) + 1) * bpow s <= 9007199254740992 * bpow s)%R).
    { apply Rmult_le_compat_r; lra. }
    lra.
Qed.

(** A real that lies above a positive normal number by less than half a
    unit of it rounds to that number. *)
Lemma nearest_just_above (x : R) (f g : float) :
  normal f -> normal g -> (0 < SF2R g)%R ->
  nearest x (SF2R f) ->
  (SF2R g <= x < SF2R g + bpow (expo g) / 2)%R ->
  SF2R f = SF2R g.
Proof.
  intros Nf Ng Pg Rf [Lx Ux].
  destruct (normal_finite f Nf) as (sf & mf & ef & -> & Bf & _).
  destruct (normal_finite g Ng) as (sg & mg & eg & -> & Bg & _).
  rewrite SF2R_finite in *. cbn [expo] in Ux.
  pose proof (normal_value_pos sf mf ef) as Vf.
  pose proof (normal_value_pos sg mg eg) as Vg.
  pose proof (bpow_pos eg) as Be.
  destruct sg; cbn [signed] in *; [lra | ].
  assert (K : Z.abs (Zpos mg) < 2 ^ 53) by (rewrite Z.abs_eq; lia).
  pose proof (nearest_ge _ _ _ _ Rf K Lx) as Ge.
  destruct sf; cbn [signed] in *; [lra | ].
  destruct (Rle_lt_or_eq_dec _ _ Ge) as [Gt | Eq]; [ | symmetry; exact Eq].
  exfalso.
  pose proof (normal_gap mf mg ef eg Bf Bg Gt) as Gap.
  rewrite plus_IZR in Gap.
  pose proof (Rf (Zpos mg) eg K) as Cl.
  rewrite (Rabs_left1 (IZR (Zpos mg) * bpow eg - x)) in Cl by lra.
  rewrite Rabs_right in Cl by lra.
  lra.
Qed.

Lemma FACE_VERTICAL_ANCHOR_excess :
  (100 * SF2R FACE_VERTICAL_ANCHOR - 23 = 36 / 36028797018963968)%R.
Proof. rewrite FACE_VERTICAL_ANCHOR_value. lra. Qed.

(** [cropH * 0.23] is exact when [cropH] is a multiple of 100. *)
Lemma anchor_times_hundreds (m : Z) (a : float) :
  0 < m < 2 ^ 28 ->
  normal a ->
  nearest (IZR (100 * m) * SF2R FACE_VERTICAL_ANCHOR) (SF2R a) ->
  SF2R a = IZR (23 * m).
Proof.
  intros Hm Na Ra.
  change (2 ^ 28) with 268435456 in Hm.
  assert (P53 : 2 ^ 53 = 9007199254740992) by reflexivity.
  destruct (float_of_int_exact (23 * m) ltac:(lia) ltac:(lia)) as (g & _ & Ng & Vg & _).
  rewrite <- Vg.
  assert (Pm : (0 < IZR m)%R) by (apply IZR_lt; lia).
  assert (P23 : (0 < IZR (23 * m))%R) by (apply IZR_lt; lia).
  apply (nearest_just_above (IZR (100 * m) * SF2R FACE_VERTICAL_ANCHOR) a g Na Ng);
    [rewrite Vg; exact P23 | exact Ra | ].
  pose proof FACE_VERTICAL_ANCHOR_excess as X.
  assert (Ex : (IZR (100 * m) * SF2R FACE_VERTICAL_ANCHOR
                = IZR (23 * m) + IZR m * (36 / 36028797018963968))%R).
  { rewrite !mult_IZR.
    replace (100 * IZR m * SF2R FACE_VERTICAL_ANCHOR)%R
      with (IZR m * (100 * SF2R FACE_VERTICAL_ANCHOR - 23) + 23 * IZR m)%R by ring.
    rewrite X. ring. }
  rewrite Ex.
  destruct (normal_finite g Ng) as (sg & mg & eg & -> & Bg & _).
  rewrite SF2R_finite in *. cbn [expo].
  pose proof (normal_value_pos sg mg eg) as Pg.
  pose proof (bpow_pos eg) as Be.
  destruct sg; cbn [signed] in *; [lra | ].
  assert (M2 : (IZR (Zpos mg) < 9007199254740992)%R) by (apply IZR_lt; lia).
  assert (U : (IZR (Zpos mg) * bpow eg < 9007199254740992 * bpow eg)%R).
  { apply Rmult_lt_compat_r; assumption. }
  rewrite Vg in *. rewrite mult_IZR in *.
  split; lra.
Qed.

(** Truncation toward zero of a number of hundredths. *)
Lemma trunc_hundredths (S z : Z) (v : R) :
  (S mod 100 = 0 -> v = IZR (S / 100)) ->
  (S mod 100 <> 0 -> (IZR (S / 100) < v < IZR (S / 100) + 1)%R) ->
  ((0 <= v)%R -> 0 <= z /\ (IZR z <= v < IZR z + 1)%R) ->
  ((v <= 0)%R -> z <= 0 /\ (IZR z - 1 < v <= IZR z)%R) ->
  z = Z.quot S 100.
Proof.
  intros Hex Hin Hp Hn.
  pose proof (Z.div_mod S 100 ltac:(lia)) as Ed.
  pose proof (Z.mod_pos_bound S 100 ltac:(lia)) as Bd.
  pose proof (Z.quot_rem' S 100) as Eq.
  assert (Br : Z.abs (Z.rem S 100) < 100).
  { pose proof (Z.rem_bound_abs S 100 ltac:(lia)). lia. }
  assert (Sr : 0 <= S -> 0 <= Z.rem S 100).
  { intros H. apply Z.rem_nonneg; lia. }
  assert (Sn : S <= 0 -> Z.rem S 100 <= 0).
  { intros H. apply Z.rem_nonpos; lia. }
  set (q := S / 100) in *. set (r := S mod 100) in *.
  destruct (Z.eq_dec r 0) as [E0 | N0].
  - specialize (Hex E0).
    assert (Ez : z = q).
    { destruct (Rle_lt_dec 0 v) as [C | C].
      - destruct (Hp C) as (_ & L & U). rewrite Hex in L, U.
        apply le_IZR in L. assert (q < z + 1) by (apply lt_IZR; rewrite plus_IZR; lra). lia.
      - destruct (Hn ltac:(lra)) as (_ & L & U). rewrite Hex in L, U.
        apply le_IZR in U. assert (z - 1 < q) by (apply lt_IZR; rewrite minus_IZR; lra). lia. }
    destruct (Z_le_gt_dec 0 S); lia.
  - destruct (Hin N0) as (L0 & U0).
    destruct (Rle_lt_dec 0 v) as [C | C].
    + destruct (Hp C) as (Hz & L & U).
      assert (q < z + 1) by (apply lt_IZR; rewrite plus_IZR; lra).
      assert (z < q + 1) by (apply lt_IZR; rewrite plus_IZR; lra).
      destruct (Z_le_gt_dec 0 S); lia.
    + destruct (Hn ltac:(lra)) as (Hz & L & U).
      assert (q < z) by (apply lt_IZR; lra).
      assert (z - 1 < q + 1) by (apply lt_IZR; rewrite minus_IZR, plus_IZR; lra).
      destruct (Z_le_gt_dec 0 S); lia.
Qed.

(** The vertical placement is [y0 - cropH * 0.23], computed exactly and
    truncated toward zero: the two binary64 roundings never carry the value
    across an integer. *)
Lemma crop_origin_y_exact (y0_f H_crop : Z) :
  Z.abs y0_f < 2 ^ 40 -> 0 < H_crop < 2 ^ 34 ->
  (a <- int_mul_float H_crop FACE_VERTICAL_ANCHOR ;;
   t <- int_sub_float y0_f a ;; int_of_float t)
  = Ok (Z.quot (100 * y0_f - 23 * H_crop) 100).
Proof.
  intros Hy Hh. destruct constants_normal as (_ & _ & _ & N4).
  change (2 ^ 34) with 17179869184 in Hh.
  change (2 ^ 40) with 1099511627776 in Hy.
  assert (P53 : 2 ^ 53 = 9007199254740992) by reflexivity.
  destruct (int_mul_float_rounds H_crop FACE_VERTICAL_ANCHOR)
    as (a & Ea & Na & Ra & Xa); try assumption; try lia.
  { cbn. lia. }
  rewrite Ea. cbn [bind].
  assert (Ey : exists y, float_of_int y0_f = Ok y /\ well_formed y /\
                         SF2R y = IZR y0_f /\ -900 <= expo y <= 900).
  { destruct (Z.eq_dec y0_f 0) as [-> | Ny].
    - exists (S754_zero false). rewrite float_of_int_0.
      split; [reflexivity | split; [exact I | ]]. cbn [SF2R expo]. split; [reflexivity | lia].
    - destruct (float_of_int_exact y0_f Ny ltac:(lia)) as (y & E1 & E2 & E3 & E4).
      exists y. split; [assumption | split; [apply normal_well_formed, E2 | ]].
      split; [assumption | lia]. }
  destruct Ey as (y & Ey & Wy & Vy & Xy).
  unfold int_sub_float. rewrite Ey. cbn [bind].
  destruct (fsub_rounds y a Wy (normal_well_formed _ Na) Xy ltac:(lia)) as (Wt & Rt).
  rewrite Vy in Rt.
  destruct (int_of_float_spec _ Wt) as (z & Ez & Hp & Hn).
  rewrite Ez. f_equal.
  apply (trunc_hundredths _ _ (SF2R (fsub y a))); [ | | exact Hp | exact Hn].
  - (* the exact value is an integer: [H_crop] is a multiple of 100 *)
    intros E0.
    pose proof (Z.div_mod (100 * y0_f - 23 * H_crop) 100 ltac:(lia)) as Ed.
    rewrite E0 in Ed.
    set (q := (100 * y0_f - 23 * H_crop) / 100) in *.
    set (m := 87 * (y0_f - q) - 20 * H_crop).
    assert (Em : H_crop = 100 * m) by (unfold m; lia).
    assert (Eq : q = y0_f - 23 * m) by lia.
    rewrite Em in Ra.
    rewrite (anchor_times_hundreds m a ltac:(change (2 ^ 28) with 268435456; lia) Na Ra)
      in Rt.
    rewrite Eq.
    assert (Ex : (IZR y0_f - IZR (23 * m) = IZR (y0_f - 23 * m) * bpow 0)%R).
    { rewrite bpow_0, minus_IZR. ring. }
    rewrite (nearest_exact _ _ (y0_f - 23 * m) 0 Rt ltac:(lia) Ex).
    rewrite minus_IZR. reflexivity.
  - (* otherwise it is at least a hundredth away from every integer *)
    intros N0.
    pose proof (Z.div_mod (100 * y0_f - 23 * H_crop) 100 ltac:(lia)) as Ed.
    pose proof (Z.mod_pos_bound (100 * y0_f - 23 * H_crop) 100 ltac:(lia)) as Bd.
    set (q := (100 * y0_f - 23 * H_crop) / 100) in *.
    set (r := (100 * y0_f - 23 * H_crop) mod 100) in *.
    set (k := 23 * 1024 * H_crop / 100).
    pose proof (floor_div_real (23 * 1024 * H_crop) 100 ltac:(lia)) as F.
    fold k in F. rewrite !mult_IZR in F.
    assert (Hk : 0 <= k < 4398046511104).
    { unfold k. split; [apply Z.div_pos; lia | apply Z.div_lt_upper_bound; lia]. }
    assert (B1 : (0 < IZR H_crop)%R) by (apply IZR_lt; lia).
    assert (B2 : (IZR H_crop < 17179869184)%R) by (apply IZR_lt; lia).
    pose proof FACE_VERTICAL_ANCHOR_above as [A1 A2].
    assert (X1 : (IZR H_crop * (23 / 100) <= IZR H_crop * SF2R FACE_VERTICAL_ANCHOR)%R).
    { apply Rmult_le_compat_l; lra. }
    assert (X2 : (IZR H_crop * SF2R FACE_VERTICAL_ANCHOR
                  <= IZR H_crop * (23 / 100 + / 1000000000000000))%R).
    { apply Rmult_le_compat_l; lra. }
    assert (La : (IZR k * bpow (-10) <= SF2R a)%R).
    { apply (nearest_ge _ _ _ _ Ra); [lia | ]. rewrite bpow_m10. lra. }
    assert (Ua : (SF2R a <= IZR (k + 2) * bpow (-10))%R).
    { apply (nearest_le _ _ _ _ Ra); [lia | ]. rewrite bpow_m10, plus_IZR. lra. }
    assert (By : (- 1099511627776 < IZR y0_f < 1099511627776)%R).
    { split; [apply (IZR_lt (- 1099511627776)) | apply IZR_lt]; lia. }
    assert (Lt : (IZR (1024 * y0_f - k - 2) * bpow (-10) <= SF2R (fsub y a))%R).
    { apply (nearest_ge _ _ _ _ Rt); [lia | ].
      rewrite bpow_m10 in *. rewrite !minus_IZR, mult_IZR. rewrite plus_IZR in Ua. lra. }
    assert (Ut : (SF2R (fsub y a) <= IZR (1024 * y0_f - k) * bpow (-10))%R).
    { apply (nearest_le _ _ _ _ Rt); [lia | ].
      rewrite bpow_m10 in *. rewrite !minus_IZR, mult_IZR. lra. }
    rewrite bpow_m10 in Lt, Ut.
    repeat rewrite minus_IZR in Lt. rewrite mult_IZR in Lt.
    repeat rewrite minus_IZR in Ut. rewrite mult_IZR in Ut.
    assert (R1 : (100 * IZR q + 1 <= 100 * IZR y0_f - 23 * IZR H_crop)%R).
    { replace (100 * IZR q + 1)%R with (IZR (100 * q + 1))
        by (rewrite plus_IZR, mult_IZR; reflexivity).
      replace (100 * IZR y0_f - 23 * IZR H_crop)%R with (IZR (100 * y0_f - 23 * H_crop))
        by (rewrite minus_IZR, !mult_IZR; reflexivity).
      apply IZR_le. lia. }
    assert (R2 : (100 * IZR y0_f - 23 * IZR H_crop <= 100 * IZR q + 99)%R).
    { replace (100 * IZR q + 99)%R with (IZR (100 * q + 99))
        by (rewrite plus_IZR, mult_IZR; reflexivity).
      replace (100 * IZR y0_f - 23 * IZR H_crop)%R with (IZR (100 * y0_f - 23 * H_crop))
        by (rewrite minus_IZR, !mult_IZR; reflexivity).
      apply IZR_le. lia. }
    split; lra.
Qed.

Lemma crop_origin_exact (x0_f y0_f x1_f W_crop H_crop : Z) :
  Z.abs (x0_f + x1_f) < 2 ^ 52 -> 0 <= W_crop < 2 ^ 52 ->
  Z.abs y0_f < 2 ^ 40 -> 0 < H_crop < 2 ^ 34 ->
  crop_origin x0_f y0_f x1_f W_crop H_crop
  = Ok (Z.quot (x0_f + x1_f - W_crop) 2, Z.quot (100 * y0_f - 23 * H_crop) 100).
Proof.
  intros Hx Hw Hy Hh. unfold crop_origin.
  rewrite (crop_origin_y_exact y0_f H_crop Hy Hh). cbn [bind].
  rewrite (crop_origin_x x0_f x1_f W_crop Hx Hw). reflexivity.
Qed.

(** ** Progress values *)

Lemma ratio_bounds (a b : R) :
  (0 <= a <= b)%R -> (0 < b)%R -> (0 <= a / b <= 1)%R.
Proof.
  intros [Ha Hab] Hb. pose proof (Rinv_0_lt_compat b Hb) as Hi.
  unfold Rdiv. split.
  - apply Rmult_le_pos; lra.
  - replace 1%R with (b * / b)%R by (field; lra).
    apply Rmult_le_compat_r; lra.
Qed.

Lemma ratio_lt (a b c : R) :
  (a < b)%R -> (0 < c)%R -> (a / c < b / c)%R.
Proof.
  intros Hab Hc. unfold Rdiv. apply Rmult_lt_compat_r; [ | assumption].
  apply Rinv_0_lt_compat. assumption.
Qed.

Lemma nearest_within (x r : R) (lo hi : Z) :
  nearest x r -> Z.abs lo < 2 ^ 53 -> Z.abs hi < 2 ^ 53 ->
  (IZR lo <= x <= IZR hi)%R -> (IZR lo <= r <= IZR hi)%R.
Proof.
  intros N Hlo Hhi [L U]. split.
  - replace (IZR lo) with (IZR lo * bpow 0)%R by (rewrite bpow_0; ring).
    apply (nearest_ge x); [assumption | assumption | rewrite bpow_0; lra].
  - replace (IZR hi) with (IZR hi * bpow 0)%R by (rewrite bpow_0; ring).
    apply (nearest_le x); [assumption | assumption | rewrite bpow_0; lra].
Qed.

(** The two floats behind one progress value. *)
Lemma progress_floats (i n : Z) :
  0 <= i < n -> n < 2 ^ 53 ->
  exists q c t v,
    int_truediv (i + 1) n = Ok q /\ normal q /\
    nearest (IZR (i + 1) / IZR n) (SF2R q) /\
    float_of_int 100 = Ok c /\ t = fmul q c /\ normal t /\
    nearest (SF2R q * 100) (SF2R t) /\
    (0 <= SF2R q <= 1)%R /\ (0 <= SF2R t <= 100)%R /\
    progress_value i n = Ok v /\ 0 <= v <= 100 /\
    (IZR v <= SF2R t < IZR v + 1)%R.
Proof.
  intros Hi Hn.
  assert (P53 : 2 ^ 53 = 9007199254740992) by reflexivity.
  destruct (int_truediv_rounds (i + 1) n) as (q & Eq & Nq & Rq & Xq); try lia.
  destruct (float_of_int_exact 100) as (c & Ec & Nc & Vc & Xc); try lia.
  destruct (fmul_rounds q c Nq Nc ltac:(lia)) as (Nt & Rt & Xt).
  rewrite Vc in Rt.
  assert (Bn : (0 < IZR n)%R) by (apply IZR_lt; lia).
  assert (Bi : (0 <= IZR (i + 1) <= IZR n)%R).
  { split; apply IZR_le; lia. }
  pose proof (ratio_bounds _ _ Bi Bn) as Bx.
  assert (Bq : (0 <= SF2R q <= 1)%R).
  { apply (nearest_within _ _ 0 1 Rq); try lia. exact Bx. }
  assert (Bt : (0 <= SF2R (fmul q c) <= 100)%R).
  { apply (nearest_within _ _ 0 100 Rt); try lia. lra. }
  destruct (int_of_float_spec _ (normal_well_formed _ Nt)) as (v & Ev & Hp & _).
  destruct (Hp ltac:(lra)) as (Hv & Lv & Uv).
  exists q, c, (fmul q c), v.
  repeat (split; try assumption; try reflexivity).
  - unfold progress_value, float_mul_int. rewrite Eq. cbn [bind].
    rewrite Ec. cbn [bind]. exact Ev.
  - apply le_IZR. lra.
Qed.

Lemma progress_value_total (i n : Z) :
  0 <= i < n -> n < 2 ^ 53 ->
  exists v, progress_value i n = Ok v /\ 0 <= v <= 100.
Proof.
  intros Hi Hn.
  destruct (progress_floats i n Hi Hn)
    as (q & c & t & v & _ & _ & _ & _ & _ & _ & _ & _ & _ & Ev & Bv & _).
  exists v. split; assumption.
Qed.

Lemma progress_value_last (n : Z) :
  0 < n < 2 ^ 53 -> progress_value (n - 1) n = Ok 100.
Proof.
  intros Hn.
  destruct (progress_floats (n - 1) n ltac:(lia) ltac:(lia))
    as (q & c & t & v & Eq & Nq & Rq & Ec & Et & Nt & Rt & Bq & Bt & Ev & Bv & Lv & Uv).
  assert (Bn : (0 < IZR n)%R) by (apply IZR_lt; lia).
  replace (n - 1 + 1) with n in Rq by lia.
  assert (Vq : SF2R q = 1%R).
  { replace (IZR n / IZR n)%R with 1%R in Rq by (field; lra).
    apply (nearest_exact _ _ 1 0 Rq); [reflexivity | rewrite bpow_0; ring]. }
  assert (Vt : SF2R t = 100%R).
  { rewrite Vq in Rt. replace (1 * 100)%R with 100%R in Rt by ring.
    apply (nearest_exact _ _ 100 0 Rt); [reflexivity | rewrite bpow_0; ring]. }
  rewrite Ev. f_equal. rewrite Vt in Lv, Uv.
  assert (99 < v); [ | lia].
  apply lt_IZR. lra.
Qed.

Lemma progress_value_mono (i j n vi vj : Z) :
  0 <= i <= j -> j < n -> n < 2 ^ 53 ->
  progress_value i n = Ok vi -> progress_value j n = Ok vj -> vi <= vj.
Proof.
  intros Hij Hj Hn Ei Ej.
  destruct (Z.eq_dec i j) as [-> | Nij].
  { rewrite Ei in Ej. injection Ej as ->. lia. }
  destruct (progress_floats i n ltac:(lia) Hn)
    as (q1 & c1 & t1 & v1 & Eq1 & Nq1 & Rq1 & Ec1 & Et1 & Nt1 & Rt1 & Bq1 & Bt1 & Ev1 & Bv1 & Lv1 & Uv1).
  destruct (progress_floats j n ltac:(lia) Hn)
    as (q2 & c2 & t2 & v2 & Eq2 & Nq2 & Rq2 & Ec2 & Et2 & Nt2 & Rt2 & Bq2 & Bt2 & Ev2 & Bv2 & Lv2 & Uv2).
  rewrite Ei in Ev1. injection Ev1 as <-.
  rewrite Ej in Ev2. injection Ev2 as <-.
  rewrite Ec1 in Ec2. injection Ec2 as <-.
  assert (Bn : (0 < IZR n)%R) by (apply IZR_lt; lia).
  assert (Hx : (IZR (i + 1) / IZR n < IZR (j + 1) / IZR n)%R).
  { apply ratio_lt; [apply IZR_lt; lia | assumption]. }
  assert (Mq : (SF2R q1 <= SF2R q2)%R).
  { apply (nearest_monotone _ _ q1 q2) in Hx; [assumption | | ];
      split; try assumption; apply normal_well_formed; assumption. }
  assert (Mt : (SF2R t1 <= SF2R t2)%R).
  { destruct (Rle_lt_or_eq_dec _ _ Mq) as [Hlt | Heq].
    - assert (Hy : (SF2R q1 * 100 < SF2R q2 * 100)%R) by lra.
      apply (nearest_monotone _ _ t1 t2) in Hy; [assumption | | ];
        split; try assumption; apply normal_well_formed; assumption.
    - rewrite (normal_eq q1 q2 Nq1 Nq2 Heq) in Et1. rewrite Et1, Et2. lra. }
  assert (vi < vj + 1); [ | lia].
  apply lt_IZR. rewrite plus_IZR. lra.
Qed.

(** ** The signals of a run *)

Lemma same_dir_eq (d d' : dir) : same_dir d d' = true <-> d = d'.
Proof.
  unfold same_dir. destruct (list_eq_dec string_dec d d'); split; congruence.
Qed.

Lemma created_in (d : dir) (l : list dir) :
  existsb (same_dir d) l = true <-> In d l.
Proof.
  rewrite existsb_exists. split.
  - intros (d' & Hin & E). apply same_dir_eq in E. subst. exact Hin.
  - intros Hin. exists d. split; [exact Hin | apply same_dir_eq; reflexivity].
Qed.

Lemma created_ok_initial (w : world) : created_ok w initial.
Proof. intros d []. Qed.

Lemma created_ok_add_dir (w : world) (d : dir) (st : state) :
  mkdir_fails w d = false -> created_ok w st -> created_ok w (add_dir d st).
Proof. intros Hd Hst d' [<- | Hin]; [exact Hd | exact (Hst _ Hin)]. Qed.

(** Creating directories sends no signal and writes no file, and creates
    only what can be created. *)
Lemma make_dirs_keeps (w : world) (target : dir) (ds : list dir) :
  forall st : state,
  emitted (fst (make_dirs w target ds st)) = emitted st /\
  saved (fst (make_dirs w target ds st)) = saved st /\
  (created_ok w st -> created_ok w (fst (make_dirs w target ds st))).
Proof.
  induction ds as [ | d rest IH]; intros st; cbn [make_dirs].
  - cbn [fst]. auto.
  - destruct (present w st d); [apply IH | ].
    destruct (mkdir_fails w d) eqn:Ef; [cbn [fst]; auto | ].
    destruct (IH (add_dir d st)) as (E1 & E2 & E3).
    split; [exact E1 | split; [exact E2 | ]].
    intros Hst. apply E3, created_ok_add_dir; assumption.
Qed.

(** Whether the call raises, and what, does not depend on what the run has
    created so far. *)
Lemma make_dirs_result (w : world) (target : dir) (ds : list dir) :
  forall st1 st2 : state, created_ok w st1 -> created_ok w st2 ->
  snd (make_dirs w target ds st1) = snd (make_dirs w target ds st2).
Proof.
  induction ds as [ | d rest IH]; intros st1 st2 H1 H2; cbn [make_dirs];
    [reflexivity | ].
  unfold present.
  destruct (dir_exists w d); cbn [orb]; [apply IH; assumption | ].
  destruct (mkdir_fails w d) eqn:Ef.
  - destruct (existsb (same_dir d) (dirs st1)) eqn:E1.
    { apply created_in in E1. rewrite (H1 _ E1) in Ef. discriminate. }
    destruct (existsb (same_dir d) (dirs st2)) eqn:E2.
    { apply created_in in E2. rewrite (H2 _ E2) in Ef. discriminate. }
    reflexivity.
  - destruct (existsb (same_dir d) (dirs st1)), (existsb (same_dir d) (dirs st2));
      apply IH; try assumption; apply created_ok_add_dir; assumption.
Qed.

Lemma try_body_keeps (w : world) (out_dir : list string) (p : path) (st : state) :
  emitted (fst (try_body w out_dir p st)) = emitted st /\
  (created_ok w st -> created_ok w (fst (try_body w out_dir p st))).
Proof.
  unfold try_body. walk_stages; auto. unfold mkdir.
  destruct (make_dirs_keeps w (out_dir ++ path_parent p)
              (ancestors (out_dir ++ path_parent p)) st) as (E1 & _ & E3).
  destruct (make_dirs w (out_dir ++ path_parent p)
              (ancestors (out_dir ++ path_parent p)) st) as [st' [[] | e]];
    cbn [fst] in *; [ | auto].
  destruct (save_image w _ _ _ _); cbn [fst add_file emitted]; split; auto.
Qed.

Lemma try_body_emitted (w : world) (out_dir : list string) (p : path) (st : state) :
  emitted (fst (try_body w out_dir p st)) = emitted st.
Proof. apply try_body_keeps. Qed.

Lemma try_body_result (w : world) (out_dir : list string) (p : path) (st : state) :
  created_ok w st ->
  snd (try_body w out_dir p st) = file_result w out_dir p.
Proof.
  intros Hst. unfold file_result, try_body. walk_stages; try reflexivity.
  unfold mkdir.
  pose proof (make_dirs_result w (out_dir ++ path_parent p)
                (ancestors (out_dir ++ path_parent p)) st initial Hst
                (created_ok_initial w)) as E.
  destruct (make_dirs w (out_dir ++ path_parent p)
              (ancestors (out_dir ++ path_parent p)) st) as [st1 r1].
  destruct (make_dirs w (out_dir ++ path_parent p)
              (ancestors (out_dir ++ path_parent p)) initial) as [st2 r2].
  cbn [snd] in E. subst r2. destruct r1 as [[] | e]; [ | reflexivity].
  destruct (save_image w _ _ _ _); reflexivity.
Qed.

Lemma process_file_emitted (w : world) (out_dir : list string) (p : path) (st : state) :
  created_ok w st ->
  emitted (process_file w out_dir p st)
  = (emitted st ++ [SigLog (file_log w out_dir p)])%list.
Proof.
  intros Hst. unfold process_file, file_log.
  pose proof (try_body_emitted w out_dir p st) as E.
  pose proof (try_body_result w out_dir p st Hst) as R.
  destruct (try_body w out_dir p st) as [st' r]. cbn [fst snd] in E, R.
  rewrite <- R. destruct r; cbn [emit emitted]; rewrite E; reflexivity.
Qed.

Lemma process_file_created_ok (w : world) (out_dir : list string) (p : path) (st : state) :
  created_ok w st -> created_ok w (process_file w out_dir p st).
Proof.
  intros Hst. unfold process_file.
  destruct (try_body_keeps w out_dir p st) as (_ & K). specialize (K Hst).
  destruct (try_body w out_dir p st) as [st' [l | e]]; exact K.
Qed.

Lemma loop_emitted (w : world) (out_dir : list string) (n : Z) :
  n < 2 ^ 53 ->
  forall (files : list path) (i : Z) (st : state),
  created_ok w st ->
  0 <= i -> i + Z.of_nat (List.length files) <= n ->
  exists st' vs,
    loop w out_dir n i files st = Ok st' /\
    List.length vs = List.length files /\
    emitted st' = (emitted st ++ flat_map (signals_of w out_dir) (combine files vs))%list /\
    forall k : nat, (k < List.length files)%nat ->
                    progress_value (i + Z.of_nat k) n = Ok (nth k vs 0).
Proof.
  intros Hn files. induction files as [ | p rest IH]; intros i st Hst Hi Hlen.
  - exists st, []. cbn [loop List.length combine flat_map].
    rewrite app_nil_r. repeat split; try reflexivity. intros k Hk. inversion Hk.
  - cbn [List.length] in Hlen. rewrite Nat2Z.inj_succ in Hlen.
    destruct (progress_value_total i n ltac:(lia) Hn) as (v & Ev & _).
    cbn [loop]. rewrite Ev. cbn [bind].
    destruct (IH (i + 1) (emit (SigProgress v) (process_file w out_dir p st))
                (process_file_created_ok w out_dir p st Hst)
                ltac:(lia) ltac:(lia)) as (st' & vs & El & Ll & Ee & Ev').
    exists st', (v :: vs). split; [exact El | ].
    split; [cbn [List.length]; congruence | ]. split.
    + rewrite Ee. cbn [emit emitted combine flat_map signals_of fst snd].
      rewrite process_file_emitted by assumption. rewrite <- !app_assoc. reflexivity.
    + intros [ | k] Hk.
      * cbn [nth]. rewrite Z.add_0_r. exact Ev.
      * cbn [nth]. cbn [List.length] in Hk.
        replace (i + Z.of_nat (S k)) with (i + 1 + Z.of_nat k) by lia.
        apply Ev'. lia.
Qed.

Lemma logs_app (st : state) (l1 l2 : list signal) :
  emitted st = (l1 ++ l2)%list ->
  logs st = (flat_map (fun s => match s with SigLog l => [l] | _ => [] end) l1 ++
             flat_map (fun s => match s with SigLog l => [l] | _ => [] end) l2)%list.
Proof. intros E. unfold logs. rewrite E. apply flat_map_app. Qed.

Lemma logs_of_signals (w : world) (out_dir : list string) :
  forall (files : list path) (vs : list Z),
  List.length vs = List.length files ->
  flat_map (fun s => match s with SigLog l => [l] | _ => [] end)
    (flat_map (signals_of w out_dir) (combine files vs))
  = map (file_log w out_dir) files.
Proof.
  induction files as [ | p rest IH]; intros [ | v vs] Hl; cbn in Hl; try discriminate.
  - reflexivity.
  - cbn [combine flat_map signals_of fst snd app map].
    rewrite IH by lia. reflexivity.
Qed.

Lemma progress_of_signals (w : world) (out_dir : list string) :
  forall (files : list path) (vs : list Z),
  List.length vs = List.length files ->
  flat_map (fun s => match s with SigProgress v => [v] | _ => [] end)
    (flat_map (signals_of w out_dir) (combine files vs))
  = vs.
Proof.
  induction files as [ | p rest IH]; intros [ | v vs] Hl; cbn in Hl; try discriminate.
  - reflexivity.
  - cbn [combine flat_map signals_of fst snd app map].
    rewrite IH by lia. reflexivity.
Qed.

Lemma finished_of_signals (w : world) (out_dir : list string) (l : list (path * Z)) :
  filter is_finished (flat_map (signals_of w out_dir) l) = [].
Proof.
  induction l as [ | pv l IH]; [reflexivity | ].
  cbn [flat_map signals_of app filter is_finished]. exact IH.
Qed.

(** A run over a non-empty listing: it returns, and its signals are one log
    line and one progress value per file, then [finished]. *)
Lemma run_signals (w : world) (out_dir : list string) :
  let files := filter supported (rglob w) in
  files <> [] -> Z.of_nat (List.length files) < 2 ^ 53 ->
  exists st vs,
    run w out_dir = Ok st /\
    List.length vs = List.length files /\
    emitted st = (flat_map (signals_of w out_dir) (combine files vs) ++ [SigFinished])%list /\
    forall k : nat, (k < List.length files)%nat ->
      progress_value (Z.of_nat k) (Z.of_nat (List.length files)) = Ok (nth k vs 0).
Proof.
  intros files Hne Hn.
  destruct (loop_emitted w out_dir _ Hn files 0 initial (created_ok_initial w)
              ltac:(lia) ltac:(lia))
    as (st & vs & El & Ll & Ee & Ev).
  exists (emit SigFinished st), vs.
  unfold run. fold files. destruct files as [ | p rest] eqn:Ef; [congruence | ].
  rewrite El. cbn [bind]. split; [reflexivity | ]. split; [assumption | ].
  split; [ | exact Ev].
  cbn [emit emitted]. rewrite Ee. reflexivity.
Qed.

(** ** The specification's example and two runs *)

Example spec_example_crop :
  calculate_3_4_crop (100, 100, 180, 220) 1000 1000 = Ok (59, 50, 221, 266).
Proof. vm_compute. reflexivity. Qed.

Example float_50_times_padding :
  int_mul_float 50 FACE_HORIZONTAL_PADDING
  = Ok (S754_finite false 7740561859543041 (-47)).
Proof. vm_compute. reflexivity. Qed.

Example run_calm_world :
  option_map emitted
    (match run (calm_world [a_png; notes_txt; b_jpg] (Ok [one_face])) ["out"%string] with
     | Ok st => Some st | Raise _ => None end)
  = Some [SigLog (LogSuccess "a.png"); SigProgress 50;
          SigLog (LogSuccess "b.JPG"); SigProgress 100; SigFinished].
Proof. vm_compute. reflexivity. Qed.

(** ** The whole crop computation *)

(** Everything [calculate_3_4_crop] computes for a box of pixel coordinates. *)
Lemma crop_geometry (x0_f y0_f x1_f y1_f : Z) :
  pixel_coordinate x0_f -> pixel_coordinate y0_f ->
  pixel_coordinate x1_f -> pixel_coordinate y1_f ->
  x0_f < x1_f -> y0_f < y1_f ->
  let w_f := x1_f - x0_f in
  let h_f := y1_f - y0_f in
  exists padded W_crop H_crop x0_c y0_c,
    int_mul_float w_f FACE_HORIZONTAL_PADDING = Ok padded /\
    well_formed padded /\
    (IZR (11 * w_f / 10) <= SF2R padded)%R /\
    width_driven w_f h_f = Ok (int_lt_float (3 * (9 * h_f / 5) / 4) padded) /\
    crop_size w_f h_f = Ok (W_crop, H_crop) /\
    (W_crop, H_crop) = (if int_lt_float (3 * (9 * h_f / 5) / 4) padded
                        then (11 * w_f / 10, 4 * (11 * w_f / 10) / 3)
                        else (3 * (9 * h_f / 5) / 4, 9 * h_f / 5)) /\
    crop_origin x0_f y0_f x1_f W_crop H_crop = Ok (x0_c, y0_c) /\
    x0_c = Z.quot (x0_f + x1_f - W_crop) 2 /\
    100 * y0_f - 23 * H_crop - 100 <= 100 * y0_c <= 100 * y0_f - 23 * H_crop + 100 /\
    forall img_w img_h,
      calculate_3_4_crop (x0_f, y0_f, x1_f, y1_f) img_w img_h
      = Ok (Z.max 0 (Z.min x0_c (img_w - W_crop)),
            Z.max 0 (Z.min y0_c (img_h - H_crop)),
            Z.max 0 (Z.min x0_c (img_w - W_crop)) + W_crop,
            Z.max 0 (Z.min y0_c (img_h - H_crop)) + H_crop).
Proof.
  intros Bx0 By0 Bx1 By1 Hx Hy w_f h_f.
  unfold pixel_coordinate in Bx0, By0, Bx1, By1.
  change (2 ^ 31) with 2147483648 in Bx0, By0, Bx1, By1.
  assert (Hw : 0 < w_f < 2 ^ 32) by (change (2 ^ 32) with 4294967296; unfold w_f; lia).
  assert (Hh : 0 < h_f < 2 ^ 32) by (change (2 ^ 32) with 4294967296; unfold h_f; lia).
  destruct (crop_size_spec w_f h_f Hw Hh) as (padded & Ep & Np & Bp & Ed & Es).
  change (2 ^ 32) with 4294967296 in Hw, Hh.
  set (b := int_lt_float (3 * (9 * h_f / 5) / 4) padded) in *.
  set (WH := if b then (11 * w_f / 10, 4 * (11 * w_f / 10) / 3)
             else (3 * (9 * h_f / 5) / 4, 9 * h_f / 5)) in *.
  assert (H1 : 0 < 9 * h_f / 5 < 8589934592).
  { split; [apply Z.div_str_pos; lia | apply Z.div_lt_upper_bound; lia]. }
  assert (W1 : 0 <= 3 * (9 * h_f / 5) / 4 < 8589934592).
  { split; [apply Z.div_pos; lia | apply Z.div_lt_upper_bound; lia]. }
  assert (W2 : 0 < 11 * w_f / 10 < 8589934592).
  { split; [apply Z.div_str_pos; lia | apply Z.div_lt_upper_bound; lia]. }
  assert (H2 : 0 < 4 * (11 * w_f / 10) / 3 < 17179869184).
  { split; [apply Z.div_str_pos; lia | apply Z.div_lt_upper_bound; lia]. }
  assert (BW : 0 <= fst WH < 2 ^ 52 /\ 0 < snd WH < 2 ^ 34).
  { change (2 ^ 52) with 4503599627370496. change (2 ^ 34) with 17179869184.
    unfold WH. destruct b; cbn [fst snd]; lia. }
  destruct WH as [W_crop H_crop] eqn:EWH. cbn [fst snd] in BW.
  destruct BW as (BW & BH).
  destruct (crop_origin_y y0_f H_crop) as (y0_c & Ey & Byc); [ | assumption | ].
  { change (2 ^ 40) with 1099511627776. lia. }
  pose proof (crop_origin_x x0_f x1_f W_crop) as Ex.
  exists padded, W_crop, H_crop, (Z.quot (x0_f + x1_f - W_crop) 2), y0_c.
  assert (Eo : crop_origin x0_f y0_f x1_f W_crop H_crop
               = Ok (Z.quot (x0_f + x1_f - W_crop) 2, y0_c)).
  { unfold crop_origin. rewrite Ey. cbn [bind]. rewrite Ex; [reflexivity | | assumption].
    change (2 ^ 52) with 4503599627370496. lia. }
  split; [exact Ep | ]. split; [apply normal_well_formed, Np | ].
  split; [lra | ]. split; [exact Ed | ]. split; [exact Es | ].
  split; [symmetry; exact EWH | ]. split; [exact Eo | ].
  split; [reflexivity | ]. split; [exact Byc | ].
  intros img_w img_h. unfold calculate_3_4_crop. fold w_f h_f.
  rewrite Es. cbn [bind]. rewrite Eo. reflexivity.
Qed.

Lemma last_nth_pred {A : Type} (l : list A) (d : A) :
  last l d = nth (List.length l - 1) l d.
Proof.
  induction l as [ | a l IH]; [reflexivity | ].
  destruct l as [ | b l]; [reflexivity | ].
  change (last (a :: b :: l) d) with (last (b :: l) d). rewrite IH.
  cbn [List.length].
  replace (S (S (List.length l)) - 1)%nat with (S (List.length l)) by lia.
  replace (S (List.length l) - 1)%nat with (List.length l) by lia.
  reflexivity.
Qed.

(** ** The batch and the detection wrapper *)


Lemma Forall2_map_right {A B : Type} (P : A -> B -> Prop) (f : A -> B) (l : list A) :
  (forall a, P a (f a)) -> Forall2 P l (map f l).
Proof.
  intros H. induction l as [ | a l IH]; cbn [map]; constructor; auto.
Qed.

(** Whether a call of [mkdir] raises, and where. *)
Lemma make_dirs_outcome (w : world) (target : dir) (ds : list dir) :
  forall st : state, created_ok w st ->
  match snd (make_dirs w target ds st) with
  | Ok _ => forall a, In a ds -> dir_exists w a = true \/ mkdir_fails w a = false
  | Raise e =>
      exists above d below,
        ds = (above ++ d :: below)%list /\
        (forall a, In a above -> dir_exists w a = true \/ mkdir_fails w a = false) /\
        dir_exists w d = false /\ mkdir_fails w d = true /\
        e = mkdir_error w target d
  end.
Proof.
  induction ds as [ | d rest IH]; intros st Hst; cbn [make_dirs].
  - cbn [snd]. intros a [].
  - assert (Step : forall st' : state, created_ok w st' ->
              dir_exists w d = true \/ mkdir_fails w d = false ->
              match snd (make_dirs w target rest st') with
              | Ok _ => forall a, In a (d :: rest) ->
                                  dir_exists w a = true \/ mkdir_fails w a = false
              | Raise e =>
                  exists above d' below,
                    (d :: rest) = (above ++ d' :: below)%list /\
                    (forall a, In a above ->
                               dir_exists w a = true \/ mkdir_fails w a = false) /\
                    dir_exists w d' = false /\ mkdir_fails w d' = true /\
                    e = mkdir_error w target d'
              end).
    { intros st' Hst' Hd. specialize (IH st' Hst').
      destruct (snd (make_dirs w target rest st')) as [[] | e].
      - intros a [<- | Ha]; [exact Hd | exact (IH a Ha)].
      - destruct IH as (above & d' & below & E & A & X & F & Ee).
        exists (d :: above), d', below. rewrite E.
        split; [reflexivity | ]. split; [ | auto].
        intros a [<- | Ha]; [exact Hd | exact (A a Ha)]. }
    destruct (present w st d) eqn:Ep.
    + apply Step; [exact Hst | ].
      unfold present in Ep. apply orb_true_iff in Ep.
      destruct Ep as [Ep | Ep]; [left; exact Ep | ].
      right. apply Hst, created_in, Ep.
    + unfold present in Ep. apply orb_false_iff in Ep. destruct Ep as (Ex & _).
      destruct (mkdir_fails w d) eqn:Ef.
      * cbn [snd]. exists [], d, rest. cbn [app]. repeat split; try assumption.
        intros a [].
      * apply Step; [apply created_ok_add_dir; assumption | right; reflexivity].
Qed.

(** The first directory that cannot be made is determined. *)
Lemma first_blocked_unique (w : world) (above above' below below' : list dir) (d d' : dir) :
  (above ++ d :: below = above' ++ d' :: below')%list ->
  (forall a, In a above -> dir_exists w a = true \/ mkdir_fails w a = false) ->
  (forall a, In a above' -> dir_exists w a = true \/ mkdir_fails w a = false) ->
  dir_exists w d = false -> mkdir_fails w d = true ->
  dir_exists w d' = false -> mkdir_fails w d' = true ->
  d = d'.
Proof.
  revert above'. induction above as [ | a above IH]; intros [ | a' above'] E A A' X F X' F';
    cbn [app] in E.
  - congruence.
  - injection E as <- _. destruct (A' d (or_introl eq_refl)); congruence.
  - injection E as -> _. destruct (A d' (or_introl eq_refl)); congruence.
  - injection E as _ E. apply (IH above' E); try assumption.
    + intros x Hx. apply A. right. exact Hx.
    + intros x Hx. apply A'. right. exact Hx.
Qed.

Lemma detector_exception_swallowed (w : world) (img img_np : image) (e : exn) :
  to_array w img = Ok img_np -> extract_faces w img_np = Raise e ->
  get_face_bbox w img = Ok None.
Proof.
  intros Ha Hd. unfold get_face_bbox. rewrite Ha. cbn [bind]. rewrite Hd. reflexivity.
Qed.

(** The stages give every entry one outcome. *)
Lemma stage_outcome_unique (w : world) (out_dir : list string) (p : path) (o1 o2 : outcome) :
  stage_outcome w out_dir p o1 -> stage_outcome w out_dir p o2 -> o1 = o2.
Proof.
  intros H1 H2.
  destruct H1; destruct H2;
    repeat match goal with
           | H : ?x = Ok _, H' : ?x = Ok _ |- _ =>
               rewrite H in H'; injection H' as ?; subst
           | H : ?x = Ok _, H' : ?x = Raise _ |- _ => rewrite H in H'; discriminate
           | H : ?x = Raise _, H' : ?x = Ok _ |- _ => rewrite H in H'; discriminate
           | H : ?x = Raise _, H' : ?x = Raise _ |- _ =>
               rewrite H in H'; injection H' as ?; subst
           end;
    try reflexivity;
    try match goal with
        | Ha : to_array ?w ?i = Ok ?n, Hd : extract_faces ?w ?n = Raise _ |- _ =>
            pose proof (detector_exception_swallowed _ _ _ _ Ha Hd); congruence
        end;
    try (unfold get_face_bbox in *;
         repeat match goal with
                | H : to_array ?w ?i = _, H' : context [to_array ?w ?i] |- _ =>
                    rewrite H in H'; cbn [bind] in H'
                end; congruence).
  all: try match goal with
           | A : forall a, In a (ancestors ?t) -> _,
             E : ancestors ?t = (_ ++ ?d :: _)%list |- _ =>
               exfalso; destruct (A d) as [C | C];
               [rewrite E; apply in_or_app; right; left; reflexivity
               | congruence | congruence]
           end.
  match goal with
  | E : ancestors ?t = (?a1 ++ ?d1 :: ?b1)%list,
    E' : ancestors ?t = (?a2 ++ ?d2 :: ?b2)%list |- _ =>
      rewrite E in E';
      assert (d1 = d2) as -> by (apply (first_blocked_unique w a1 a2 b1 b2); assumption)
  end.
  reflexivity.
Qed.

(** The log line of an entry carries the outcome its stages give. *)
Lemma file_log_outcome (w : world) (out_dir : list string) (p : path) :
  exists o, outcome_of (file_log w out_dir p) = Some o /\
            stage_outcome w out_dir p o.
Proof.
  unfold file_log, file_result, try_body.
  destruct (open_rgb w p) as [img | e] eqn:Eo; cbn [snd].
  2: { eexists. split; [reflexivity | ]. apply decode_raises. exact Eo. }
  destruct (get_face_bbox w img) as [[bb | ] | e] eqn:Eg; cbn [snd].
  2: { eexists. split; [reflexivity | ]. apply (no_face _ _ _ img); assumption. }
  2: { eexists. split; [reflexivity | ]. apply (conversion_raises _ _ _ img); [exact Eo | ].
       unfold get_face_bbox in Eg. destruct (to_array w img); cbn [bind] in Eg;
         [discriminate | congruence]. }
  destruct (calculate_3_4_crop bb (fst (img_size img)) (snd (img_size img)))
    as [c | e] eqn:Ec; cbn [snd].
  2: { eexists. split; [reflexivity | ]. apply (crop_raises _ _ _ img bb); assumption. }
  destruct (crop_image w img c) as [final_img | e] eqn:Ei; cbn [snd].
  2: { eexists. split; [reflexivity | ].
       apply (crop_image_raises _ _ _ img bb c); assumption. }
  unfold mkdir.
  pose proof (make_dirs_outcome w (out_dir ++ path_parent p)
                (ancestors (out_dir ++ path_parent p)) initial (created_ok_initial w)) as M.
  destruct (make_dirs w (out_dir ++ path_parent p)
              (ancestors (out_dir ++ path_parent p)) initial) as [st' [[] | e]];
    cbn [snd] in M |- *.
  - destruct (save_image w final_img (out_dir ++ path_parent p) (path_name p)
                (if in_strings (lower (path_suffix p)) [".jpg"; ".jpeg"]%string
                 then JPEG else PNG)) as [[] | e] eqn:Es; cbn [snd].
    + eexists. split; [reflexivity | ].
      apply (every_stage_succeeds _ _ _ img final_img bb c); assumption.
    + eexists. split; [reflexivity | ].
      apply (encode_raises _ _ _ img final_img bb c); assumption.
  - destruct M as (above & d & below & E & A & X & F & ->).
    eexists. split; [reflexivity | ].
    apply (mkdir_raises _ _ _ img final_img bb c above below d); assumption.
Qed.

(** C1, as amended.  Over a non-empty listing the run never aborts: it emits
    one log line per eligible entry and exactly one [finished], last.  An
    entry for which decoding, array conversion, the crop computation,
    cropping, directory creation or encoding raises is logged as Failed
    with the exception's message; an entry on which the detector raises or
    finds no usable face is logged as NoFaceFound; an entry for which every
    stage succeeds is logged as Cropped; the stages give no entry a second
    outcome. *)
Theorem batch_resilience (w : world) (out_dir : list string) :
  let files := filter supported (rglob w) in
  (0 < List.length files)%nat -> Z.of_nat (List.length files) < 2 ^ 53 ->
  exists st,
    run w out_dir = Ok st /\
    List.length (logs st) = List.length files /\
    Forall2 (fun p l => exists o, outcome_of l = Some o /\
                                  stage_outcome w out_dir p o /\
                                  forall o', stage_outcome w out_dir p o' -> o' = o)
      files (logs st) /\
    filter is_finished (emitted st) = [SigFinished] /\
    last (emitted st) (SigProgress 0) = SigFinished.
Proof.
  intros files Hne Hn.
  assert (Hne' : files <> []) by (intros E; rewrite E in Hne; inversion Hne).
  destruct (run_signals w out_dir Hne' Hn) as (st & vs & Er & Lv & Ee & _).
  fold files in Lv, Ee.
  assert (El : logs st = map (file_log w out_dir) files).
  { rewrite (logs_app st _ _ Ee), logs_of_signals by assumption.
    cbn [flat_map]. apply app_nil_r. }
  exists st. split; [exact Er | ]. split; [rewrite El; apply length_map | ].
  split.
  { rewrite El. apply Forall2_map_right. intros p.
    destruct (file_log_outcome w out_dir p) as (o & Eo & So).
    exists o. split; [exact Eo | ]. split; [exact So | ].
    intros o' So'. apply (stage_outcome_unique w out_dir p); assumption. }
  split.
  - rewrite Ee, filter_app, finished_of_signals. reflexivity.
  - rewrite Ee. apply last_last.
Qed.

(** C1: the claim as stated fails.  The detector raises on the only file of
    the batch, and that file's outcome is NoFaceFound, not Failed. *)
Lemma batch_detector_exception_not_failed :
  let w := calm_world [a_png] (Raise (OSError "detector crashed")) in
  extract_faces w sample_image = Raise (OSError "detector crashed") /\
  exists st, run w ["out"%string] = Ok st /\
             map outcome_of (logs st) = [Some NoFaceFound].
Proof.
  split; [reflexivity | ]. eexists. split; vm_compute; reflexivity.
Qed.

Lemma batch_resilience_witness :
  let w := world_with_bad_file [a_png; notes_txt; b_jpg; c_jpeg] "b.JPG" in
  exists st,
    run w ["out"%string] = Ok st /\
    List.length (logs st) = 3%nat /\
    Forall2 (fun p l => exists o, outcome_of l = Some o /\
                                  stage_outcome w ["out"%string] p o /\
                                  forall o', stage_outcome w ["out"%string] p o' -> o' = o)
      [a_png; b_jpg; c_jpeg] (logs st) /\
    filter is_finished (emitted st) = [SigFinished] /\
    last (emitted st) (SigProgress 0) = SigFinished.
Proof.
  apply (batch_resilience
           (world_with_bad_file [a_png; notes_txt; b_jpg; c_jpeg] "b.JPG")
           ["out"%string]).
  - vm_compute. lia.
  - vm_compute. reflexivity.
Defined.

(** The run of the witness: the entry that cannot be decoded is logged with
    the decoder's message, and the batch goes on. *)
Example run_with_bad_file :
  exists st,
    run (world_with_bad_file [a_png; notes_txt; b_jpg; c_jpeg] "b.JPG") ["out"%string]
    = Ok st /\
    logs st = [LogSuccess "a.png"; LogError "b.JPG" "cannot identify image file";
               LogSuccess "c.jpeg"] /\
    dirs st = [["out"; "sub"]; ["out"]]%string.
Proof.
  eexists. split; [vm_compute; reflexivity | ].
  split; vm_compute; reflexivity.
Qed.

(** [mkdir(parents=True, exist_ok=True)]: the output root is there and is
    left alone, the two directories under it are created, outermost first,
    and are not created again for the second file; where a directory on the
    way cannot be created the entry is logged with that error. *)
Example run_creates_missing_directories :
  exists st,
    run (world_with_out_dir [deep_png; locked_png; deep_png]) ["out"%string] = Ok st /\
    dirs st = [["out"; "deep"; "er"]; ["out"; "deep"]]%string /\
    logs st = [LogSuccess "d.png";
               LogError "l.png" "[Errno 13] Permission denied: 'out/locked'";
               LogSuccess "d.png"].
Proof.
  eexists. split; [vm_compute; reflexivity | ].
  split; vm_compute; reflexivity.
Qed.

(** C9: the claim as stated fails.  The listing holds a directory named
    [album.png] and no eligible file; the run does not report an empty
    input: it takes the directory for an image, logs the error of opening
    it and emits progress 100. *)
Lemma directory_named_like_an_image :
  let w := world_with_album in
  filter (eligible w) (rglob w) = [] /\
  exists st,
    run w ["out"%string] = Ok st /\
    emitted st = [SigLog (LogError "album.png" "[Errno 21] Is a directory: 'in/album.png'");
                  SigProgress 100; SigFinished].
Proof. split; [reflexivity | ]. eexists. split; vm_compute; reflexivity. Qed.

(** C9, as amended.  When the listing holds no eligible file and no
    directory whose name has a supported suffix, the run emits one
    informational log line, then [finished], and nothing else; it creates no
    directory and writes no file. *)
Theorem empty_listing (w : world) (out_dir : list string) :
  filter (eligible w) (rglob w) = [] ->
  (forall p, In p (rglob w) -> is_dir w p = true -> supported p = false) ->
  exists st,
    run w out_dir = Ok st /\
    emitted st = [SigLog LogNoImages; SigFinished] /\
    dirs st = [] /\ saved st = [].
Proof.
  intros Hf Hd.
  assert (E : filter supported (rglob w) = []).
  { induction (rglob w) as [ | p l IH]; [reflexivity | ].
    cbn [filter] in Hf |- *.
    assert (Hp : supported p = false).
    { destruct (is_dir w p) eqn:Ed.
      - apply Hd; [left; reflexivity | exact Ed].
      - unfold eligible in Hf. rewrite Ed in Hf. cbn [negb andb] in Hf.
        destruct (supported p); [discriminate | reflexivity]. }
    rewrite Hp. apply IH.
    - unfold eligible in Hf. rewrite Hp, andb_false_r in Hf. exact Hf.
    - intros q Hq. apply Hd. right. exact Hq. }
  unfold run. rewrite E. eexists. split; [reflexivity | ].
  split; [reflexivity | ]. split; reflexivity.
Qed.

Lemma empty_listing_witness :
  let w := calm_world [notes_txt] (Ok [one_face]) in
  exists st,
    run w ["out"%string] = Ok st /\
    emitted st = [SigLog LogNoImages; SigFinished] /\
    dirs st = [] /\ saved st = [].
Proof.
  apply (empty_listing (calm_world [notes_txt] (Ok [one_face])) ["out"%string]).
  - vm_compute. reflexivity.
  - intros p _ Hd. vm_compute in Hd. discriminate.
Defined.

(** C6.  An exception raised by the detector call is swallowed by the
    wrapper, which returns no bounding box; the file is logged as
    NoFaceFound, never as Failed. *)
Theorem detector_exception_is_no_face
  (w : world) (out_dir : list string) (p : path) (st : state)
  (img img_np : image) (e : exn) :
  open_rgb w p = Ok img -> to_array w img = Ok img_np ->
  extract_faces w img_np = Raise e ->
  get_face_bbox w img = Ok None /\
  process_file w out_dir p st = emit (SigLog (LogNoFace (path_name p))) st /\
  outcome_of (LogNoFace (path_name p)) = Some NoFaceFound.
Proof.
  intros Ho Ha Ee.
  assert (G : get_face_bbox w img = Ok None).
  { unfold get_face_bbox. rewrite Ha. cbn [bind]. rewrite Ee. reflexivity. }
  split; [exact G | split; [ | reflexivity]].
  unfold process_file, try_body. rewrite Ho, G. reflexivity.
Qed.

Lemma detector_exception_is_no_face_witness :
  let w := calm_world [a_png] (Raise (KeyError "boom")) in
  get_face_bbox w sample_image = Ok None /\
  process_file w ["out"%string] a_png initial
  = emit (SigLog (LogNoFace "a.png")) initial /\
  outcome_of (LogNoFace "a.png") = Some NoFaceFound.
Proof.
  apply (detector_exception_is_no_face
           (calm_world [a_png] (Raise (KeyError "boom"))) ["out"%string] a_png
           initial sample_image sample_image (KeyError "boom"));
    reflexivity.
Defined.

(** C5: the code at the failing input.  One candidate lacks [facial_area],
    the other has one; the key of [max] raises [KeyError] on the first, the
    bare [except] swallows it, and no face is selected. *)
Theorem select_face_mixed_candidates :
  select_face (Ok [no_area; one_face]) = Raise (KeyError "facial_area") /\
  select_face (Ok [one_face; no_area]) = Raise (KeyError "facial_area") /\
  get_face_bbox (calm_world [a_png] (Ok [no_area; one_face])) sample_image = Ok None /\
  get_face_bbox (calm_world [a_png] (Ok [one_face])) sample_image
  = Ok (Some (100, 100, 180, 220)).
Proof. repeat split. Qed.

(** ** The crop geometry *)

(** C3.  When the computed crop size fits the image, the returned rectangle
    lies inside the image. *)
Theorem containment
  (x0_f y0_f x1_f y1_f img_w img_h W_crop H_crop x0 y0 x1 y1 : Z) :
  crop_size (x1_f - x0_f) (y1_f - y0_f) = Ok (W_crop, H_crop) ->
  calculate_3_4_crop (x0_f, y0_f, x1_f, y1_f) img_w img_h = Ok (x0, y0, x1, y1) ->
  W_crop <= img_w -> H_crop <= img_h ->
  0 <= x0 /\ x0 + W_crop <= img_w /\ 0 <= y0 /\ y0 + H_crop <= img_h /\
  x1 = x0 + W_crop /\ y1 = y0 + H_crop.
Proof.
  intros Es Ec Hw Hh. unfold calculate_3_4_crop in Ec.
  rewrite Es in Ec. cbn [bind] in Ec.
  destruct (crop_origin x0_f y0_f x1_f W_crop H_crop) as [[x0_c y0_c] | e];
    cbn [bind] in Ec; [ | discriminate].
  injection Ec as <- <- <- <-. lia.
Qed.

Lemma containment_witness :
  0 <= 59 /\ 59 + 162 <= 1000 /\ 0 <= 50 /\ 50 + 216 <= 1000 /\
  221 = 59 + 162 /\ 266 = 50 + 216.
Proof.
  apply (containment 100 100 180 220 1000 1000 162 216 59 50 221 266).
  - vm_compute. reflexivity.
  - vm_compute. reflexivity.
  - lia.
  - lia.
Defined.



(** C7.  For a box of pixel coordinates with positive width and height, and
    every image size, the crop is returned and its width is at least
    [faceW * 1.1 - 1], in either branch. *)
Theorem padding_guarantee (x0_f y0_f x1_f y1_f img_w img_h : Z) :
  pixel_coordinate x0_f -> pixel_coordinate y0_f ->
  pixel_coordinate x1_f -> pixel_coordinate y1_f ->
  x0_f < x1_f -> y0_f < y1_f ->
  exists W_crop H_crop x0 y0,
    crop_size (x1_f - x0_f) (y1_f - y0_f) = Ok (W_crop, H_crop) /\
    calculate_3_4_crop (x0_f, y0_f, x1_f, y1_f) img_w img_h
    = Ok (x0, y0, x0 + W_crop, y0 + H_crop) /\
    (IZR W_crop >= IZR (x1_f - x0_f) * 1.1 - 1)%R.
Proof.
  intros Bx0 By0 Bx1 By1 Hx Hy.
  destruct (crop_geometry x0_f y0_f x1_f y1_f Bx0 By0 Bx1 By1 Hx Hy)
    as (padded & W & H & x0c & y0c & Ep & Wp & Lp & Ed & Es & EWH & Eo & Ex & Ey & Ec).
  exists W, H, (Z.max 0 (Z.min x0c (img_w - W))), (Z.max 0 (Z.min y0c (img_h - H))).
  split; [exact Es | split; [apply Ec | ]].
  pose proof (floor_div_real (11 * (x1_f - x0_f)) 10 ltac:(lia)) as F.
  rewrite mult_IZR in F.
  destruct (int_lt_float (3 * (9 * (y1_f - y0_f) / 5) / 4) padded) eqn:Eb.
  - cbv iota in EWH. apply (f_equal fst) in EWH. cbn [fst] in EWH.
    rewrite EWH. lra.
  - cbv iota in EWH. apply (f_equal fst) in EWH. cbn [fst] in EWH.
    rewrite EWH.
    assert (N : ~ (IZR (3 * (9 * (y1_f - y0_f) / 5) / 4) < SF2R padded)%R).
    { intros C. apply (int_lt_float_spec _ _ Wp) in C. congruence. }
    lra.
Qed.

Lemma padding_guarantee_witness :
  exists W_crop H_crop x0 y0,
    crop_size (180 - 100) (220 - 100) = Ok (W_crop, H_crop) /\
    calculate_3_4_crop (100, 100, 180, 220) 1000 1000
    = Ok (x0, y0, x0 + W_crop, y0 + H_crop) /\
    (IZR W_crop >= IZR (180 - 100) * 1.1 - 1)%R.
Proof.
  apply (padding_guarantee 100 100 180 220 1000 1000);
    try (unfold pixel_coordinate; vm_compute; reflexivity); lia.
Defined.

(** C8: the claim as stated fails.  For a face 60 wide and 61 high the
    width-driven branch is not taken, the crop is 81 by 109, and
    [round(81/109, 2)] is 0.74. *)
Lemma aspect_ratio_small_face :
  width_driven 60 61 = Ok false /\
  crop_size 60 61 = Ok (81, 109) /\
  ratio_2dp 81 109 = 74.
Proof. repeat split; vm_compute; reflexivity. Qed.

(** C8, as amended.  When the width-driven branch is not taken,
    [cropW] is [cropH * 3/4] rounded down, so
    [3/4 - 1/cropH < cropW/cropH <= 3/4]; and [round(cropW/cropH, 2)] is
    0.75 as soon as [cropH >= 150]. *)
Theorem aspect_ratio_height_driven (x0_f y0_f x1_f y1_f : Z) :
  pixel_coordinate x0_f -> pixel_coordinate y0_f ->
  pixel_coordinate x1_f -> pixel_coordinate y1_f ->
  x0_f < x1_f -> y0_f < y1_f ->
  width_driven (x1_f - x0_f) (y1_f - y0_f) = Ok false ->
  exists W_crop H_crop,
    crop_size (x1_f - x0_f) (y1_f - y0_f) = Ok (W_crop, H_crop) /\
    W_crop = 3 * H_crop / 4 /\
    3 * H_crop - 3 <= 4 * W_crop <= 3 * H_crop /\
    (150 <= H_crop -> ratio_2dp W_crop H_crop = 75).
Proof.
  intros Bx0 By0 Bx1 By1 Hx Hy Hd.
  destruct (crop_geometry x0_f y0_f x1_f y1_f Bx0 By0 Bx1 By1 Hx Hy)
    as (padded & W & H & x0c & y0c & Ep & Wp & Lp & Ed & Es & EWH & Eo & Ex & Ey & Ec).
  rewrite Ed in Hd.
  pose proof (f_equal (fun r : res bool =>
                         match r with Ok b => b | Raise _ => false end) Hd) as Hb.
  cbv beta iota in Hb. rewrite Hb in EWH.
  cbv iota in EWH.
  pose proof (f_equal fst EWH) as EW. pose proof (f_equal snd EWH) as EH.
  cbn [fst snd] in EW, EH.
  exists W, H. split; [exact Es | ]. rewrite <- EH in EW.
  split; [exact EW | ].
  pose proof (Z.div_mod (3 * H) 4 ltac:(lia)) as E.
  pose proof (Z.mod_pos_bound (3 * H) 4 ltac:(lia)) as B.
  rewrite <- EW in E. split; [lia | ].
  intros H150. unfold ratio_2dp.
  pose proof (Z.div_mod (100 * W) H ltac:(lia)) as E2.
  pose proof (Z.mod_pos_bound (100 * W) H ltac:(lia)) as B2.
  revert E2 B2. generalize (100 * W / H) ((100 * W) mod H). intros q r E2 B2.
  assert (Hq : q = 74 \/ q = 75) by nia.
  destruct Hq as [-> | ->].
  - destruct (Z.compare_spec (2 * r) H) as [C | C | C]; try reflexivity; lia.
  - assert (r = 0) by lia. subst r.
    destruct (Z.compare_spec (2 * 0) H) as [C | C | C]; try reflexivity; lia.
Qed.

Lemma aspect_ratio_height_driven_witness :
  exists W_crop H_crop,
    crop_size (180 - 100) (220 - 100) = Ok (W_crop, H_crop) /\
    W_crop = 3 * H_crop / 4 /\
    3 * H_crop - 3 <= 4 * W_crop <= 3 * H_crop /\
    (150 <= H_crop -> ratio_2dp W_crop H_crop = 75).
Proof.
  apply (aspect_ratio_height_driven 100 100 180 220);
    try (unfold pixel_coordinate; vm_compute; reflexivity); lia.
Defined.

(** C2: the claim as stated fails.  For the face box (103, 100, 180, 222),
    77 wide and 122 high, the code computes [cropH = 219] and [cropW = 164]
    where rounding to nearest, as the specification writes it, gives 220
    and 165; and for that crop size it places the crop at [x0 = 59] and
    [y0 = 49], the truncations of 59.5 and 49.63, where rounding gives 60
    and 50. *)
Lemma crop_truncates_not_rounds :
  crop_size (180 - 103) (222 - 100) = Ok (164, 219) /\
  spec_crop_size (180 - 103) (222 - 100) = Ok (165, 220) /\
  crop_origin 103 100 180 164 219 = Ok (59, 49) /\
  spec_crop_origin 103 100 180 164 219 = Ok (60, 50).
Proof. repeat split; vm_compute; reflexivity. Qed.

(** C2, as amended.  The intermediate quantities are truncated, not rounded
    to nearest: [cropH] is [faceH * 1.8] rounded down and [cropW] is
    [cropH * 3/4] rounded down (width-driven: [cropW] is [faceW * 1.1]
    rounded down and [cropH] is [cropW / (3/4)] rounded down); the
    horizontal placement is [(x0 + x1 - cropW) / 2] truncated toward zero,
    and the vertical placement is [y0 - cropH * 0.23], that is
    [(100 * y0 - 23 * cropH) / 100], truncated toward zero. *)
Theorem crop_intermediates_truncated (x0_f y0_f x1_f y1_f : Z) :
  pixel_coordinate x0_f -> pixel_coordinate y0_f ->
  pixel_coordinate x1_f -> pixel_coordinate y1_f ->
  x0_f < x1_f -> y0_f < y1_f ->
  exists (b : bool) (W_crop H_crop x0_c y0_c : Z),
    width_driven (x1_f - x0_f) (y1_f - y0_f) = Ok b /\
    crop_size (x1_f - x0_f) (y1_f - y0_f) = Ok (W_crop, H_crop) /\
    crop_origin x0_f y0_f x1_f W_crop H_crop = Ok (x0_c, y0_c) /\
    (if b
     then W_crop = 11 * (x1_f - x0_f) / 10 /\ H_crop = 4 * W_crop / 3
     else H_crop = 9 * (y1_f - y0_f) / 5 /\ W_crop = 3 * H_crop / 4) /\
    x0_c = Z.quot (x0_f + x1_f - W_crop) 2 /\
    y0_c = Z.quot (100 * y0_f - 23 * H_crop) 100.
Proof.
  intros Bx0 By0 Bx1 By1 Hx Hy.
  destruct (crop_geometry x0_f y0_f x1_f y1_f Bx0 By0 Bx1 By1 Hx Hy)
    as (padded & W & H & x0c & y0c & Ep & Wp & Lp & Ed & Es & EWH & Eo & Ex & Ey & Ec).
  exists (int_lt_float (3 * (9 * (y1_f - y0_f) / 5) / 4) padded), W, H, x0c, y0c.
  split; [exact Ed | ]. split; [exact Es | ]. split; [exact Eo | ].
  unfold pixel_coordinate in Bx0, By0, Bx1, By1.
  change (2 ^ 31) with 2147483648 in Bx0, By0, Bx1, By1.
  assert (Sizes : (if int_lt_float (3 * (9 * (y1_f - y0_f) / 5) / 4) padded
                   then W = 11 * (x1_f - x0_f) / 10 /\ H = 4 * W / 3
                   else H = 9 * (y1_f - y0_f) / 5 /\ W = 3 * H / 4)).
  { destruct (int_lt_float (3 * (9 * (y1_f - y0_f) / 5) / 4) padded);
      cbv iota in EWH;
      pose proof (f_equal fst EWH) as EW; pose proof (f_equal snd EWH) as EH;
      cbn [fst snd] in EW, EH; rewrite EW, EH; split; reflexivity. }
  split; [exact Sizes | ]. split; [exact Ex | ].
  assert (BW : 0 <= W < 2 ^ 52 /\ 0 < H < 2 ^ 34).
  { change (2 ^ 52) with 4503599627370496. change (2 ^ 34) with 17179869184.
    assert (Bw : 0 < x1_f - x0_f < 4294967296) by lia.
    assert (Bh : 0 < y1_f - y0_f < 4294967296) by lia.
    revert Sizes Bw Bh. generalize (x1_f - x0_f) (y1_f - y0_f). clear.
    intros w_f h_f Sizes Bw Bh.
    destruct (int_lt_float (3 * (9 * h_f / 5) / 4) padded);
      destruct Sizes as (E1 & E2); rewrite E2, E1;
      Z.div_mod_to_equations; lia. }
  destruct BW as (BW & BH).
  rewrite crop_origin_exact in Eo;
    [ | change (2 ^ 52) with 4503599627370496; lia | exact BW
      | change (2 ^ 40) with 1099511627776; lia | exact BH].
  apply (f_equal (fun r => match r with Ok (_, y) => y | Raise _ => 0 end)) in Eo.
  symmetry. exact Eo.
Qed.

Lemma crop_intermediates_truncated_witness :
  exists (b : bool) (W_crop H_crop x0_c y0_c : Z),
    width_driven (180 - 100) (222 - 100) = Ok b /\
    crop_size (180 - 100) (222 - 100) = Ok (W_crop, H_crop) /\
    crop_origin 100 100 180 W_crop H_crop = Ok (x0_c, y0_c) /\
    (if b
     then W_crop = 11 * (180 - 100) / 10 /\ H_crop = 4 * W_crop / 3
     else H_crop = 9 * (222 - 100) / 5 /\ W_crop = 3 * H_crop / 4) /\
    x0_c = Z.quot (100 + 180 - W_crop) 2 /\
    y0_c = Z.quot (100 * 100 - 23 * H_crop) 100.
Proof.
  apply (crop_intermediates_truncated 100 100 180 222);
    try (unfold pixel_coordinate; vm_compute; reflexivity); lia.
Defined.

(** ** Progress *)

(** C4: the claim as stated fails.  With three files the second progress
    value is 66, the truncation of 66.66...; [round] gives 67. *)
Lemma progress_truncates :
  let w := calm_world [a_png; b_jpg; c_jpeg] (Ok []) in
  (exists st, run w ["out"%string] = Ok st /\ progress_values st = [33; 66; 100]) /\
  progress_value 1 3 = Ok 66 /\
  spec_progress_value 2 3 = Ok 67.
Proof.
  split; [eexists; split; vm_compute; reflexivity | ].
  split; vm_compute; reflexivity.
Qed.

(** C4, as amended.  Over a non-empty listing the run emits one progress
    value per file; the value after file [k] is
    [int(((k + 1) / len(files)) * 100)], the binary64 product truncated, not
    rounded to nearest; the values are integers in [0,100], never decrease,
    and the last one is 100. *)
Theorem progress_values_monotone (w : world) (out_dir : list string) :
  let files := filter supported (rglob w) in
  (0 < List.length files)%nat -> Z.of_nat (List.length files) < 2 ^ 53 ->
  exists st,
    run w out_dir = Ok st /\
    List.length (progress_values st) = List.length files /\
    (forall k : nat, (k < List.length files)%nat ->
       progress_value (Z.of_nat k) (Z.of_nat (List.length files))
       = Ok (nth k (progress_values st) 0)) /\
    Forall (fun v => 0 <= v <= 100) (progress_values st) /\
    (forall j k : nat, (j <= k < List.length files)%nat ->
       nth j (progress_values st) 0 <= nth k (progress_values st) 0) /\
    last (progress_values st) 0 = 100.
Proof.
  intros files Hne Hn.
  assert (Hne' : files <> []) by (intros E; rewrite E in Hne; inversion Hne).
  destruct (run_signals w out_dir Hne' Hn) as (st & vs & Er & Lv & Ee & Ev).
  fold files in Lv, Ee, Ev.
  assert (Ep : progress_values st = vs).
  { unfold progress_values. rewrite Ee, flat_map_app, progress_of_signals by assumption.
    cbn [flat_map]. apply app_nil_r. }
  exists st. rewrite Ep. split; [exact Er | ]. split; [exact Lv | ].
  split; [exact Ev | ]. split; [ | split].
  - apply Forall_forall. intros v Hv.
    destruct (In_nth vs v 0 Hv) as (k & Hk & Ek).
    rewrite Lv in Hk. specialize (Ev k Hk). rewrite Ek in Ev.
    destruct (progress_value_total (Z.of_nat k) (Z.of_nat (List.length files))
                ltac:(lia) Hn) as (v' & Ev' & Bv).
    rewrite Ev in Ev'. congruence.
  - intros j k Hjk.
    apply (progress_value_mono (Z.of_nat j) (Z.of_nat k) (Z.of_nat (List.length files)));
      try lia; try assumption; apply Ev; lia.
  - rewrite last_nth_pred, Lv.
    pose proof (Ev (List.length files - 1)%nat ltac:(lia)) as E.
    replace (Z.of_nat (List.length files - 1)) with (Z.of_nat (List.length files) - 1)
      in E by lia.
    rewrite progress_value_last in E by lia. congruence.
Qed.

Lemma progress_values_monotone_witness :
  let w := world_with_bad_file [a_png; notes_txt; b_jpg; c_jpeg] "b.JPG" in
  exists st,
    run w ["out"%string] = Ok st /\
    List.length (progress_values st) = 3%nat /\
    (forall k : nat, (k < 3)%nat ->
       progress_value (Z.of_nat k) 3 = Ok (nth k (progress_values st) 0)) /\
    Forall (fun v => 0 <= v <= 100) (progress_values st) /\
    (forall j k : nat, (j <= k < 3)%nat ->
       nth j (progress_values st) 0 <= nth k (progress_values st) 0) /\
    last (progress_values st) 0 = 100.
Proof.
  apply (progress_values_monotone
           (world_with_bad_file [a_png; notes_txt; b_jpg; c_jpeg] "b.JPG")
           ["out"%string]).
  - vm_compute. lia.
  - vm_compute. reflexivity.
Defined.

(** ** Face selection *)

(** [max] with a key that never raises returns the first item whose key is
    the largest. *)
Lemma max_from_first_largest {A : Type} (kf : A -> Z) (key : A -> res Z) :
  forall (l before : list A) (best : A) (mid : list A),
  (forall d, In d l -> key d = Ok (kf d)) ->
  (forall x, In x before -> kf x < kf best) ->
  (forall x, In x mid -> kf x <= kf best) ->
  exists before' r after',
    max_from key best (kf best) l = Ok r /\
    (before ++ best :: mid ++ l = before' ++ r :: after')%list /\
    (forall x, In x before' -> kf x < kf r) /\
    (forall x, In x after' -> kf x <= kf r).
Proof.
  induction l as [ | d l IH]; intros before best mid Hk Hb Hm.
  - exists before, best, mid. rewrite app_nil_r. cbn [max_from]. auto.
  - cbn [max_from]. rewrite (Hk d (or_introl eq_refl)). cbn [bind].
    destruct (Z.ltb_spec (kf best) (kf d)) as [Hlt | Hge].
    + destruct (IH (before ++ best :: mid)%list d [])
        as (before' & r & after' & Er & El & H1 & H2).
      * intros x Hx. apply Hk. right. exact Hx.
      * intros x Hx. apply in_app_or in Hx. destruct Hx as [Hx | [<- | Hx]].
        -- specialize (Hb x Hx). lia.
        -- exact Hlt.
        -- specialize (Hm x Hx). lia.
      * intros x [].
      * exists before', r, after'. split; [exact Er | ]. split; [ | auto].
        rewrite <- El. rewrite <- !app_assoc. reflexivity.
    + destruct (IH before best (mid ++ [d])%list)
        as (before' & r & after' & Er & El & H1 & H2).
      * intros x Hx. apply Hk. right. exact Hx.
      * exact Hb.
      * intros x Hx. apply in_app_or in Hx. destruct Hx as [Hx | [<- | []]].
        -- apply Hm, Hx.
        -- exact Hge.
      * exists before', r, after'. split; [exact Er | ]. split; [ | auto].
        rewrite <- El. rewrite <- !app_assoc. reflexivity.
Qed.

(** When every candidate carries its area, the wrapper selects the first
    candidate of largest area. *)
Lemma select_face_largest_first (faces : list face) (areas : list area) :
  faces = map (fun a => {| facial_area := Some a |}) areas -> areas <> [] ->
  exists before a after,
    areas = (before ++ a :: after)%list /\
    (forall x, In x before -> area_w x * area_h x < area_w a * area_h a) /\
    (forall x, In x after -> area_w x * area_h x <= area_w a * area_h a) /\
    select_face (Ok faces)
    = Ok (Some (area_x a, area_y a, area_x a + area_w a, area_y a + area_h a)).
Proof.
  intros -> Hne. destruct areas as [ | a0 rest]; [congruence | ].
  set (mk := fun a => {| facial_area := Some a |}).
  set (kf := fun d : face => match facial_area d with
                             | Some a => area_w a * area_h a
                             | None => 0
                             end).
  destruct (max_from_first_largest kf area_key (map mk rest) [] (mk a0) [])
    as (before' & r & after' & Er & El & H1 & H2).
  - intros d Hd. apply in_map_iff in Hd. destruct Hd as (a & <- & _). reflexivity.
  - intros x [].
  - intros x [].
  - cbn [app] in El. change (mk a0 :: map mk rest) with (map mk (a0 :: rest)) in El.
    apply map_eq_app in El.
    destruct El as (before & tl & Ea & Eb & Et).
    destruct tl as [ | a after]; [discriminate | ].
    cbn [map] in Et. injection Et as Er' Eafter.
    exists before, a, after. split; [exact Ea | ]. split; [ | split].
    + intros x Hx. specialize (H1 (mk x)). rewrite <- Er' in H1.
      apply H1. rewrite <- Eb. apply in_map. exact Hx.
    + intros x Hx. specialize (H2 (mk x)). rewrite <- Er' in H2.
      apply H2. rewrite <- Eafter. apply in_map. exact Hx.
    + unfold select_face. cbn [bind map existsb]. unfold py_max.
      change (has_facial_area (mk a0)) with true.
      change (area_key (mk a0)) with (Ok (kf (mk a0))).
      cbn [bind orb negb]. rewrite Er. cbn [bind]. rewrite <- Er'. reflexivity.
Qed.

(** ** The crop size in closed form *)

Lemma bpow_m4 : bpow (-4) = (/ 16)%R.
Proof.
  change (-4) with (- (4)). rewrite bpow_neg_inv by lia.
  change (2 ^ 4) with 16. reflexivity.
Qed.

(** The crop size in closed form, and when line 60 takes the width-driven
    branch. *)
Lemma crop_size_closed_form (w_f h_f : Z) :
  0 < w_f < 2 ^ 32 -> 0 < h_f < 2 ^ 32 ->
  exists b : bool,
    width_driven w_f h_f = Ok b /\
    crop_size w_f h_f =
      Ok (if b then (11 * w_f / 10, 4 * (11 * w_f / 10) / 3)
          else (3 * (9 * h_f / 5) / 4, 9 * h_f / 5)) /\
    (b = true -> 3 * (9 * h_f / 5) / 4 <= 11 * w_f / 10) /\
    (b = false -> 11 * w_f / 10 <= 3 * (9 * h_f / 5) / 4) /\
    (10 * (3 * (9 * h_f / 5) / 4) < 11 * w_f -> b = true) /\
    (11 * w_f < 10 * (3 * (9 * h_f / 5) / 4) -> b = false).
Proof.
  intros Hw Hh.
  destruct (crop_size_spec w_f h_f Hw Hh) as (padded & Ep & Np & Bp & Ed & Es).
  change (2 ^ 32) with 4294967296 in Hw, Hh.
  destruct constants_normal as (_ & N2 & _).
  assert (E53 : 2 ^ 53 = 9007199254740992) by reflexivity.
  assert (Eexp : expo FACE_HORIZONTAL_PADDING = -52) by reflexivity.
  destruct (int_mul_float_rounds w_f FACE_HORIZONTAL_PADDING)
    as (t & Et & Nt & Rt & _); try assumption; try lia.
  rewrite Ep in Et.
  assert (Ept : padded = t).
  { pose proof (f_equal (fun r : res float =>
                           match r with Ok f => f | Raise _ => padded end) Et) as E.
    exact E. }
  subst t. clear Et.
  set (W1 := 3 * (9 * h_f / 5) / 4) in *.
  set (Wp := 11 * w_f / 10) in *.
  pose proof (int_lt_float_spec W1 padded (normal_well_formed _ Np)) as Hlt.
  pose proof (floor_div_real (11 * w_f) 10 ltac:(lia)) as F.
  fold Wp in F. rewrite mult_IZR in F.
  assert (HWp : 0 <= Wp < 8589934592).
  { unfold Wp. split; [apply Z.div_pos; lia | apply Z.div_lt_upper_bound; lia]. }
  exists (int_lt_float W1 padded).
  split; [exact Ed | split; [exact Es | ]].
  split; [ | split; [ | split]].
  - intros Hb. apply Hlt in Hb.
    assert (W1 < Wp + 1); [ | lia].
    apply lt_IZR. rewrite plus_IZR. lra.
  - intros Hb.
    assert (N : ~ (IZR W1 < SF2R padded)%R).
    { intros C. apply Hlt in C. congruence. }
    apply le_IZR. lra.
  - intros H10. apply Hlt.
    destruct (Z_lt_le_dec W1 Wp) as [C | C].
    + apply IZR_lt in C. lra.
    + assert (EW : W1 = Wp).
      { unfold Wp in *. Z.div_mod_to_equations. lia. }
      assert (H11 : 10 * Wp + 1 <= 11 * w_f) by lia.
      apply IZR_le in H11. rewrite plus_IZR, !mult_IZR in H11.
      assert (G : (IZR (16 * Wp + 1) * bpow (-4) <= SF2R padded)%R).
      { apply (nearest_ge _ _ _ _ Rt).
        - change (2 ^ 53) with 9007199254740992. lia.
        - rewrite bpow_m4, plus_IZR, mult_IZR, FACE_HORIZONTAL_PADDING_value.
          assert (B1 : (0 < IZR w_f)%R) by (apply IZR_lt; lia).
          lra. }
      rewrite bpow_m4, plus_IZR, mult_IZR in G. rewrite EW. lra.
  - intros H10.
    destruct (int_lt_float W1 padded) eqn:Eb; [ | reflexivity].
    exfalso. assert (Hb : (IZR W1 < SF2R padded)%R) by (apply Hlt; reflexivity).
    assert (C : Wp + 1 <= W1).
    { unfold Wp in *. Z.div_mod_to_equations. lia. }
    apply IZR_le in C. rewrite plus_IZR in C. lra.
Qed.

(** X1.  The crop width is the larger of the height-driven width
    [int(int(faceH * 1.8) * 0.75)] and the padded face width
    [int(faceW * 1.1)]; the width-driven branch is taken whenever the
    height-driven width is below [faceW * 1.1] and never when it is above. *)
Theorem crop_width_closed_form (w_f h_f : Z) :
  0 < w_f < 2 ^ 32 -> 0 < h_f < 2 ^ 32 ->
  exists W_crop H_crop,
    crop_size w_f h_f = Ok (W_crop, H_crop) /\
    W_crop = Z.max (3 * (9 * h_f / 5) / 4) (11 * w_f / 10) /\
    (H_crop = 9 * h_f / 5 \/ H_crop = 4 * W_crop / 3) /\
    (10 * (3 * (9 * h_f / 5) / 4) < 11 * w_f ->
     width_driven w_f h_f = Ok true /\ H_crop = 4 * W_crop / 3) /\
    (11 * w_f < 10 * (3 * (9 * h_f / 5) / 4) ->
     width_driven w_f h_f = Ok false /\ H_crop = 9 * h_f / 5).
Proof.
  intros Hw Hh.
  destruct (crop_size_closed_form w_f h_f Hw Hh) as (b & Ed & Es & Ht & Hf & Hlt & Hgt).
  destruct b.
  - exists (11 * w_f / 10), (4 * (11 * w_f / 10) / 3).
    specialize (Ht eq_refl).
    split; [exact Es | split; [lia | split; [right; reflexivity | split]]].
    + intros _. split; [exact Ed | reflexivity].
    + intros C. specialize (Hgt C). discriminate.
  - exists (3 * (9 * h_f / 5) / 4), (9 * h_f / 5).
    specialize (Hf eq_refl).
    split; [exact Es | split; [lia | split; [left; reflexivity | split]]].
    + intros C. specialize (Hlt C). discriminate.
    + intros _. split; [exact Ed | reflexivity].
Qed.

Lemma crop_width_closed_form_witness :
  exists W_crop H_crop,
    crop_size 2 2 = Ok (W_crop, H_crop) /\
    W_crop = Z.max (3 * (9 * 2 / 5) / 4) (11 * 2 / 10) /\
    (H_crop = 9 * 2 / 5 \/ H_crop = 4 * W_crop / 3) /\
    (10 * (3 * (9 * 2 / 5) / 4) < 11 * 2 ->
     width_driven 2 2 = Ok true /\ H_crop = 4 * W_crop / 3) /\
    (11 * 2 < 10 * (3 * (9 * 2 / 5) / 4) ->
     width_driven 2 2 = Ok false /\ H_crop = 9 * 2 / 5).
Proof.
  apply (crop_width_closed_form 2 2); vm_compute; split; reflexivity.
Defined.

(** X2.  In either branch the crop is 3:4 up to the truncation of one side:
    [-2 <= 3 * cropH - 4 * cropW <= 3]. *)
Theorem crop_aspect_within_rounding (w_f h_f : Z) :
  0 < w_f < 2 ^ 32 -> 0 < h_f < 2 ^ 32 ->
  exists W_crop H_crop,
    crop_size w_f h_f = Ok (W_crop, H_crop) /\
    -2 <= 3 * H_crop - 4 * W_crop <= 3.
Proof.
  intros Hw Hh.
  destruct (crop_size_closed_form w_f h_f Hw Hh) as (b & _ & Es & _).
  destruct b; eexists; eexists; (split; [exact Es | ]);
    Z.div_mod_to_equations; lia.
Qed.

Lemma crop_aspect_within_rounding_witness :
  exists W_crop H_crop,
    crop_size 50 41 = Ok (W_crop, H_crop) /\
    -2 <= 3 * H_crop - 4 * W_crop <= 3.
Proof.
  apply (crop_aspect_within_rounding 50 41); vm_compute; split; reflexivity.
Defined.

(** X3.  The crop is never smaller than the face, in width or in height. *)
Theorem crop_not_smaller_than_face (w_f h_f : Z) :
  0 < w_f < 2 ^ 32 -> 0 < h_f < 2 ^ 32 ->
  exists W_crop H_crop,
    crop_size w_f h_f = Ok (W_crop, H_crop) /\
    w_f <= W_crop /\ h_f <= H_crop.
Proof.
  intros Hw Hh.
  destruct (crop_size_closed_form w_f h_f Hw Hh) as (b & _ & Es & Ht & Hf & _).
  change (2 ^ 32) with 4294967296 in Hw, Hh.
  destruct b.
  - specialize (Ht eq_refl). eexists; eexists; (split; [exact Es | ]).
    Z.div_mod_to_equations. lia.
  - specialize (Hf eq_refl). eexists; eexists; (split; [exact Es | ]).
    Z.div_mod_to_equations. lia.
Qed.

Lemma crop_not_smaller_than_face_witness :
  exists W_crop H_crop,
    crop_size 300 1 = Ok (W_crop, H_crop) /\ 300 <= W_crop /\ 1 <= H_crop.
Proof.
  apply (crop_not_smaller_than_face 300 1); vm_compute; split; reflexivity.
Defined.

(** ** The face inside the crop *)

(** X4.  For a face that lies inside the image and is at least 7 pixels
    high, the returned rectangle contains the whole face box, whatever the
    image size, also when the crop is larger than the image. *)
Theorem face_inside_crop (x0_f y0_f x1_f y1_f img_w img_h : Z) :
  pixel_coordinate x0_f -> pixel_coordinate y0_f ->
  pixel_coordinate x1_f -> pixel_coordinate y1_f ->
  0 <= x0_f -> x0_f < x1_f -> x1_f <= img_w ->
  0 <= y0_f -> y0_f + 7 <= y1_f -> y1_f <= img_h ->
  exists x0 y0 x1 y1,
    calculate_3_4_crop (x0_f, y0_f, x1_f, y1_f) img_w img_h = Ok (x0, y0, x1, y1) /\
    x0 <= x0_f /\ x1_f <= x1 /\ y0 <= y0_f /\ y1_f <= y1.
Proof.
  intros Bx0 By0 Bx1 By1 Hx0 Hx Hx1 Hy0 Hy Hy1.
  destruct (crop_geometry x0_f y0_f x1_f y1_f Bx0 By0 Bx1 By1 Hx ltac:(lia))
    as (padded & W & H & x0c & y0c & _ & _ & _ & _ & Es & _ & _ & Ex & Ey & Ec).
  unfold pixel_coordinate in Bx0, By0, Bx1, By1.
  change (2 ^ 31) with 2147483648 in Bx0, By0, Bx1, By1.
  destruct (crop_size_closed_form (x1_f - x0_f) (y1_f - y0_f))
    as (b & _ & Es' & Ht & Hf & _).
  { change (2 ^ 32) with 4294967296. lia. }
  { change (2 ^ 32) with 4294967296. lia. }
  rewrite Es in Es'.
  pose proof (f_equal (fun r : res (Z * Z) =>
                         match r with Ok p => fst p | Raise _ => 0 end) Es') as EW.
  pose proof (f_equal (fun r : res (Z * Z) =>
                         match r with Ok p => snd p | Raise _ => 0 end) Es') as EH.
  cbv beta iota in EW, EH. cbn [fst snd] in EW, EH.
  assert (SW : x1_f - x0_f <= W).
  { rewrite EW. destruct b; cbn [fst].
    - Z.div_mod_to_equations. lia.
    - specialize (Hf eq_refl). Z.div_mod_to_equations. lia. }
  assert (SH : 9 * (y1_f - y0_f) - 9 <= 5 * H).
  { rewrite EH. destruct b; cbn [snd].
    - specialize (Ht eq_refl). Z.div_mod_to_equations. lia.
    - Z.div_mod_to_equations. lia. }
  do 4 eexists. split; [apply Ec | ].
  assert (X1 : x0c <= x0_f /\ x1_f <= x0c + W).
  { rewrite Ex. Z.to_euclidean_division_equations. lia. }
  lia.
Qed.

Lemma face_inside_crop_witness :
  exists x0 y0 x1 y1,
    calculate_3_4_crop (100, 100, 180, 220) 200 230 = Ok (x0, y0, x1, y1) /\
    x0 <= 100 /\ 180 <= x1 /\ y0 <= 100 /\ 220 <= y1.
Proof.
  apply (face_inside_crop 100 100 180 220 200 230);
    try (unfold pixel_coordinate; vm_compute; reflexivity); lia.
Defined.

(** ** Progress values against the exact percentage *)

Lemma quotient_ge (n p q : R) : (0 < n)%R -> (n * p <= q)%R -> (p <= q / n)%R.
Proof.
  intros Hn H. apply Rmult_le_reg_r with n; [assumption | ].
  replace (q / n * n)%R with q by (field; lra). lra.
Qed.

Lemma quotient_le (n p q : R) : (0 < n)%R -> (q <= n * p)%R -> (q / n <= p)%R.
Proof.
  intros Hn H. apply Rmult_le_reg_r with n; [assumption | ].
  replace (q / n * n)%R with q by (field; lra). lra.
Qed.

Lemma bpow_m52 : bpow (-52) = (/ 4503599627370496)%R.
Proof.
  change (-52) with (- (52)). rewrite bpow_neg_inv by lia.
  change (2 ^ 52) with 4503599627370496. reflexivity.
Qed.

Lemma bpow_m32 : bpow (-32) = (/ 4294967296)%R.
Proof.
  change (-32) with (- (32)). rewrite bpow_neg_inv by lia.
  change (2 ^ 32) with 4294967296. reflexivity.
Qed.

(** A progress value is the exact percentage rounded down, or one less. *)
Lemma progress_value_within_one (i n : Z) :
  0 <= i < n -> n < 2 ^ 31 ->
  exists v, progress_value i n = Ok v /\
            100 * (i + 1) / n - 1 <= v <= 100 * (i + 1) / n.
Proof.
  intros Hi Hn. change (2 ^ 31) with 2147483648 in Hn.
  assert (E53 : 2 ^ 53 = 9007199254740992) by reflexivity.
  destruct (progress_floats i n Hi ltac:(lia))
    as (q & c & t & v & Eq & Nq & Rq & Ec & Et & Nt & Rt & Bq & Bt & Ev & Bv & Lv & Uv).
  exists v. split; [exact Ev | ].
  set (a := i + 1) in *. set (P := 100 * a / n).
  assert (Ha : 0 < a <= n) by (unfold a; lia).
  assert (Bn : (0 < IZR n)%R) by (apply IZR_lt; lia).
  assert (Bn' : (IZR n <= 2147483647)%R) by (apply IZR_le; lia).
  pose proof (floor_div_real (100 * a) n ltac:(lia)) as FP. fold P in FP.
  rewrite mult_IZR in FP.
  pose proof (floor_div_real (a * 2 ^ 52) n ltac:(lia)) as FK.
  set (k := a * 2 ^ 52 / n) in *.
  rewrite mult_IZR in FK. change (2 ^ 52) with 4503599627370496 in FK.
  assert (Hk : 0 <= k <= 4503599627370496).
  { unfold k. change (2 ^ 52) with 4503599627370496. split.
    - apply Z.div_pos; lia.
    - apply Z.div_le_upper_bound; nia. }
  assert (HP : 0 <= P <= 100).
  { unfold P. split; [apply Z.div_pos; lia | apply Z.div_le_upper_bound; nia]. }
  set (x := (IZR a / IZR n)%R) in *.
  assert (X1 : (IZR k * / 4503599627370496 <= x)%R).
  { apply quotient_ge; [assumption | ]. lra. }
  assert (X2 : (x <= IZR (k + 1) * / 4503599627370496)%R).
  { apply quotient_le; [assumption | ]. rewrite plus_IZR. lra. }
  assert (X3 : (IZR P <= 100 * x)%R).
  { unfold x. replace (100 * (IZR a / IZR n))%R with (100 * IZR a / IZR n)%R
      by (field; lra).
    apply quotient_ge; [assumption | lra]. }
  assert (X4 : (100 * x + / IZR n <= IZR P + 1)%R).
  { unfold x. replace (100 * (IZR a / IZR n) + / IZR n)%R
      with ((100 * IZR a + 1) / IZR n)%R by (field; lra).
    apply quotient_le; [assumption | lra]. }
  assert (X5 : (/ 2147483647 <= / IZR n)%R).
  { apply Rinv_le_contravar; lra. }
  assert (Q1 : (IZR k * bpow (-52) <= SF2R q)%R).
  { apply (nearest_ge _ _ _ _ Rq); [lia | rewrite bpow_m52; exact X1]. }
  assert (Q2 : (SF2R q <= IZR (k + 1) * bpow (-52))%R).
  { apply (nearest_le _ _ _ _ Rq); [lia | rewrite bpow_m52; exact X2]. }
  rewrite bpow_m52 in Q1, Q2. rewrite plus_IZR in Q2, X2.
  assert (T2 : (SF2R t <= IZR ((P + 1) * 2 ^ 32 - 1) * bpow (-32))%R).
  { apply (nearest_le _ _ _ _ Rt).
    - change (2 ^ 32) with 4294967296. lia.
    - rewrite bpow_m32, minus_IZR, mult_IZR, plus_IZR.
      change (2 ^ 32) with 4294967296. lra. }
  rewrite bpow_m32, minus_IZR, mult_IZR, plus_IZR in T2.
  change (2 ^ 32) with 4294967296 in T2.
  split.
  - destruct (Z.eq_dec P 0) as [E0 | N0]; [lia | ].
    assert (T1 : (IZR (P - 1) * bpow 0 <= SF2R t)%R).
    { apply (nearest_ge _ _ _ _ Rt); [lia | ].
      rewrite bpow_0, minus_IZR. lra. }
    rewrite bpow_0, minus_IZR in T1.
    assert (P - 2 < v); [ | lia].
    apply lt_IZR. rewrite minus_IZR. lra.
  - assert (v < P + 1); [ | lia].
    apply lt_IZR. rewrite plus_IZR. lra.
Qed.

(** ** Files written and directories created *)

(** What one call of [mkdir] creates. *)
Lemma make_dirs_dirs (w : world) (target : dir) (ds : list dir) :
  forall st : state, NoDup (dirs st) ->
  exists new,
    dirs (fst (make_dirs w target ds st)) = (new ++ dirs st)%list /\
    NoDup (new ++ dirs st) /\
    (forall d, In d new -> In d ds /\ dir_exists w d = false) /\
    (snd (make_dirs w target ds st) = Ok tt ->
     forall a, In a ds -> dir_exists w a = true \/ In a (new ++ dirs st)).
Proof.
  induction ds as [ | d rest IH]; intros st Hnd; cbn [make_dirs].
  - exists []. cbn [fst snd app].
    split; [reflexivity | ]. split; [exact Hnd | ].
    split; [intros ? [] | intros _ ? []].
  - destruct (present w st d) eqn:Ep.
    + destruct (IH st Hnd) as (new & E & N & A & B).
      exists new. split; [exact E | ]. split; [exact N | ]. split.
      * intros x Hx. destruct (A x Hx). split; [right | ]; assumption.
      * intros R a [<- | Ha]; [ | exact (B R a Ha)].
        unfold present in Ep. apply orb_true_iff in Ep.
        destruct Ep as [Ep | Ep]; [left; exact Ep | ].
        right. apply in_or_app. right. apply created_in, Ep.
    + unfold present in Ep. apply orb_false_iff in Ep. destruct Ep as (Ex & Ec).
      assert (Hd : ~ In d (dirs st)).
      { intros Hin. apply created_in in Hin. congruence. }
      destruct (mkdir_fails w d).
      * exists []. cbn [fst snd app].
        split; [reflexivity | ]. split; [exact Hnd | ].
        split; [intros ? [] | discriminate].
      * destruct (IH (add_dir d st)) as (new & E & N & A & B).
        { cbn [add_dir dirs]. constructor; assumption. }
        cbn [add_dir dirs] in E, N, B.
        exists (new ++ [d])%list. rewrite <- !app_assoc. cbn [app].
        split; [exact E | ]. split; [exact N | ]. split.
        -- intros x Hx. apply in_app_or in Hx. destruct Hx as [Hx | [<- | []]].
           ++ destruct (A x Hx). split; [right | ]; assumption.
           ++ split; [left; reflexivity | exact Ex].
        -- intros R a [<- | Ha]; [ | exact (B R a Ha)].
           right. apply in_or_app. right. left. reflexivity.
Qed.

(** What the [try] body of one entry writes and creates. *)
Lemma try_body_effects (w : world) (out_dir : list string) (p : path) (st : state) :
  created_ok w st -> NoDup (dirs st) ->
  saved (fst (try_body w out_dir p st))
  = ((if cropped w out_dir p then [saved_entry out_dir p] else []) ++ saved st)%list /\
  exists new,
    dirs (fst (try_body w out_dir p st)) = (new ++ dirs st)%list /\
    NoDup (new ++ dirs st) /\
    (forall d, In d new ->
       In d (ancestors (out_dir ++ path_parent p)) /\ dir_exists w d = false) /\
    (file_log w out_dir p = LogNoFace (path_name p) -> new = []) /\
    (cropped w out_dir p = true ->
     forall a, In a (ancestors (out_dir ++ path_parent p)) ->
     dir_exists w a = true \/ In a (new ++ dirs st)).
Proof.
  intros Hst Hnd.
  unfold cropped, file_log, file_result, saved_entry, try_body.
  walk_stages;
    try solve [ cbn [fst snd saved dirs app];
                split; [reflexivity | ]; exists []; cbn [app];
                split; [reflexivity | ]; split; [exact Hnd | ];
                split; [intros ? [] | ];
                split; [intros _; reflexivity | discriminate] ].
  unfold mkdir.
  pose proof (make_dirs_result w (out_dir ++ path_parent p)
                (ancestors (out_dir ++ path_parent p)) st initial Hst
                (created_ok_initial w)) as R.
  destruct (make_dirs_keeps w (out_dir ++ path_parent p)
              (ancestors (out_dir ++ path_parent p)) st) as (_ & Ks & _).
  destruct (make_dirs_dirs w (out_dir ++ path_parent p)
              (ancestors (out_dir ++ path_parent p)) st Hnd) as (new & E & N & A & B).
  destruct (make_dirs w (out_dir ++ path_parent p)
              (ancestors (out_dir ++ path_parent p)) st) as [st1 r1].
  destruct (make_dirs w (out_dir ++ path_parent p)
              (ancestors (out_dir ++ path_parent p)) initial) as [st2 r2].
  cbn [fst snd] in *. subst r2.
  destruct r1 as [[] | e]; cbn [fst snd].
  - destruct (save_image w _ _ _ _); cbn [fst snd add_file saved dirs].
    + split; [rewrite Ks; reflexivity | ].
      exists new. split; [exact E | ]. split; [exact N | ]. split; [exact A | ].
      split; [discriminate | ]. intros _. apply B. reflexivity.
    + split; [exact Ks | ].
      exists new. split; [exact E | ]. split; [exact N | ]. split; [exact A | ].
      split; discriminate.
  - split; [exact Ks | ].
    exists new. split; [exact E | ]. split; [exact N | ]. split; [exact A | ].
    split; discriminate.
Qed.


Lemma process_file_effects (w : world) (out_dir : list string) (p : path) (st : state) :
  saved (process_file w out_dir p st) = saved (fst (try_body w out_dir p st)) /\
  dirs (process_file w out_dir p st) = dirs (fst (try_body w out_dir p st)).
Proof.
  unfold process_file. destruct (try_body w out_dir p st) as [st' [l | e]];
    split; reflexivity.
Qed.

(** One entry more keeps the invariant. *)
Lemma process_file_inv (w : world) (out_dir : list string) (p : path)
  (done : list path) (st : state) :
  dirs_inv w out_dir done st ->
  saved (process_file w out_dir p st)
  = ((if cropped w out_dir p then [saved_entry out_dir p] else []) ++ saved st)%list /\
  dirs_inv w out_dir (p :: done) (process_file w out_dir p st).
Proof.
  intros (Hst & Hnd & Hd & Hc).
  destruct (process_file_effects w out_dir p st) as (Ps & Pd).
  destruct (try_body_effects w out_dir p st Hst Hnd)
    as (Es & new & Ed & N & A & B & C).
  split; [rewrite Ps; exact Es | ].
  unfold dirs_inv. rewrite Pd, Ed.
  split; [apply process_file_created_ok, Hst | ].
  split; [exact N | ]. split.
  - intros d Hin. apply in_app_or in Hin. destruct Hin as [Hin | Hin].
    + destruct (A d Hin) as (Ha & Hx). split; [exact Hx | ].
      exists p. split; [left; reflexivity | ]. split; [exact Ha | ].
      intros L. rewrite (B L) in Hin. destruct Hin.
    + destruct (Hd d Hin) as (Hx & q & Hq & Ha & L). split; [exact Hx | ].
      exists q. split; [right; exact Hq | ]. split; assumption.
  - intros q [<- | Hq] Cq a Ha.
    + exact (C Cq a Ha).
    + destruct (Hc q Hq Cq a Ha) as [H | H]; [left; exact H | ].
      right. apply in_or_app. right. exact H.
Qed.

Lemma loop_effects (w : world) (out_dir : list string) (n : Z) :
  forall (files : list path) (i : Z) (st st' : state) (done : list path),
  dirs_inv w out_dir done st ->
  loop w out_dir n i files st = Ok st' ->
  saved st' = (flat_map (fun p => if cropped w out_dir p
                                  then [saved_entry out_dir p] else [])
                 (rev files) ++ saved st)%list /\
  dirs_inv w out_dir (rev files ++ done) st'.
Proof.
  induction files as [ | p rest IH]; intros i st st' done Hinv E.
  - cbn [loop] in E. injection E as <-. split; [reflexivity | exact Hinv].
  - cbn [loop] in E.
    destruct (progress_value i n) as [v | e]; cbn [bind] in E; [ | discriminate].
    destruct (process_file_inv w out_dir p done st Hinv) as (Ps & Pi).
    destruct (IH _ (emit (SigProgress v) (process_file w out_dir p st)) _ (p :: done)
                Pi E) as (Es & Ei).
    cbn [emit saved] in Es. rewrite Ps in Es.
    cbn [rev]. rewrite flat_map_app. cbn [flat_map].
    rewrite app_nil_r, <- !app_assoc. split; [exact Es | exact Ei].
Qed.

Lemma dirs_inv_initial (w : world) (out_dir : list string) :
  dirs_inv w out_dir [] initial.
Proof.
  split; [apply created_ok_initial | ]. split; [constructor | ].
  split; [intros d [] | intros p []].
Qed.

(** The files a run has written and the directories it has created. *)
Lemma run_effects (w : world) (out_dir : list string) (st : state) :
  run w out_dir = Ok st ->
  saved st = flat_map (fun p => if cropped w out_dir p
                                then [saved_entry out_dir p] else [])
               (rev (filter supported (rglob w))) /\
  dirs_inv w out_dir (rev (filter supported (rglob w))) st.
Proof.
  unfold run. destruct (filter supported (rglob w)) as [ | p rest] eqn:Ef.
  - intros E. injection E as <-. split; [reflexivity | apply dirs_inv_initial].
  - intros E.
    destruct (loop w out_dir (Z.of_nat (List.length (p :: rest))) 0 (p :: rest) initial)
      as [st1 | e] eqn:El; cbn [bind] in E; [ | discriminate].
    injection E as <-.
    destruct (loop_effects _ _ _ _ _ _ _ _ (dirs_inv_initial w out_dir) El) as (Es & Ei).
    rewrite !app_nil_r in *. split; [exact Es | exact Ei].
Qed.

Lemma run_total (w : world) (out_dir : list string) :
  Z.of_nat (List.length (filter supported (rglob w))) < 2 ^ 53 ->
  exists st, run w out_dir = Ok st.
Proof.
  intros Hn. destruct (filter supported (rglob w)) as [ | p rest] eqn:Ef.
  - unfold run. rewrite Ef. eexists. reflexivity.
  - destruct (run_signals w out_dir) as (st & _ & E & _).
    + rewrite Ef. discriminate.
    + rewrite Ef. exact Hn.
    + exists st. exact E.
Qed.

Lemma flat_map_filter {A B : Type} (c : A -> bool) (e : A -> B) (l : list A) :
  flat_map (fun a => if c a then [e a] else []) l = map e (filter c l).
Proof.
  induction l as [ | a l IH]; [reflexivity | ].
  cbn [flat_map filter]. destruct (c a); cbn [app map]; rewrite IH; reflexivity.
Qed.

Lemma run_logs (w : world) (out_dir : list string) :
  let files := filter supported (rglob w) in
  files <> [] -> Z.of_nat (List.length files) < 2 ^ 53 ->
  exists st vs,
    run w out_dir = Ok st /\
    List.length vs = List.length files /\
    emitted st = (flat_map (signals_of w out_dir) (combine files vs) ++ [SigFinished])%list /\
    logs st = map (file_log w out_dir) files /\
    progress_values st = vs /\
    forall k : nat, (k < List.length files)%nat ->
      progress_value (Z.of_nat k) (Z.of_nat (List.length files)) = Ok (nth k vs 0).
Proof.
  intros files Hne Hn.
  destruct (run_signals w out_dir Hne Hn) as (st & vs & Er & Lv & Ee & Ev).
  fold files in Lv, Ee, Ev.
  exists st, vs. split; [exact Er | split; [exact Lv | split; [exact Ee | ]]].
  split; [ | split; [ | exact Ev]].
  - rewrite (logs_app st _ _ Ee), logs_of_signals by assumption.
    cbn [flat_map]. apply app_nil_r.
  - unfold progress_values. rewrite Ee, flat_map_app, progress_of_signals by assumption.
    cbn [flat_map]. apply app_nil_r.
Qed.

Lemma signals_of_combine (w : world) (out_dir : list string) :
  forall (files : list path) (vs : list Z),
  flat_map (signals_of w out_dir) (combine files vs)
  = flat_map (fun lv : log_line * Z => [SigLog (fst lv); SigProgress (snd lv)])
      (combine (map (file_log w out_dir) files) vs).
Proof.
  induction files as [ | p rest IH]; intros [ | v vs]; try reflexivity.
  cbn [map combine flat_map signals_of fst snd app]. rewrite IH. reflexivity.
Qed.



(** X6.  The signals of a run over a non-empty listing alternate: the log
    line of a file, then its progress value, file after file, and
    [finished] comes last. *)
Theorem signals_alternate (w : world) (out_dir : list string) :
  let files := filter supported (rglob w) in
  (0 < List.length files)%nat -> Z.of_nat (List.length files) < 2 ^ 53 ->
  exists st,
    run w out_dir = Ok st /\
    List.length (logs st) = List.length (progress_values st) /\
    emitted st
    = (flat_map (fun lv : log_line * Z => [SigLog (fst lv); SigProgress (snd lv)])
         (combine (logs st) (progress_values st)) ++ [SigFinished])%list.
Proof.
  intros files Hne Hn.
  assert (Hne' : files <> []) by (intros E; rewrite E in Hne; inversion Hne).
  destruct (run_logs w out_dir Hne' Hn) as (st & vs & Er & Lv & Ee & El & Ep & _).
  exists st. split; [exact Er | ]. rewrite El, Ep. split.
  - rewrite length_map. symmetry. exact Lv.
  - rewrite Ee, signals_of_combine. reflexivity.
Qed.

Lemma signals_alternate_witness :
  exists st,
    run (world_with_bad_file [a_png; notes_txt; b_jpg; c_jpeg] "b.JPG") ["out"%string]
    = Ok st /\
    List.length (logs st) = List.length (progress_values st) /\
    emitted st
    = (flat_map (fun lv : log_line * Z => [SigLog (fst lv); SigProgress (snd lv)])
         (combine (logs st) (progress_values st)) ++ [SigFinished])%list.
Proof.
  apply (signals_alternate
           (world_with_bad_file [a_png; notes_txt; b_jpg; c_jpeg] "b.JPG")
           ["out"%string]).
  - vm_compute. lia.
  - vm_compute. reflexivity.
Defined.

(** X7.  Structure mirroring.  The files a run writes are exactly the
    eligible files logged as a success, each once, under the output root at
    the file's directory relative to the input root, with its name
    unchanged, as JPEG when the suffix is [.jpg] or [.jpeg] in any case and
    as PNG otherwise. *)
Theorem saved_files_mirror (w : world) (out_dir : list string) :
  let files := filter supported (rglob w) in
  Z.of_nat (List.length files) < 2 ^ 53 ->
  exists st,
    run w out_dir = Ok st /\
    saved st = map (saved_entry out_dir) (filter (cropped w out_dir) (rev files)).
Proof.
  intros files Hn. destruct (run_total w out_dir Hn) as (st & Er).
  exists st. split; [exact Er | ].
  destruct (run_effects w out_dir st Er) as (Es & _).
  rewrite Es. apply flat_map_filter.
Qed.

Lemma saved_files_mirror_witness :
  exists st,
    run (world_with_bad_file [a_png; notes_txt; b_jpg; c_jpeg] "b.JPG") ["out"%string]
    = Ok st /\
    saved st
    = map (saved_entry ["out"%string])
        (filter (cropped (world_with_bad_file [a_png; notes_txt; b_jpg; c_jpeg] "b.JPG")
                   ["out"%string])
           (rev [a_png; b_jpg; c_jpeg])).
Proof.
  apply (saved_files_mirror
           (world_with_bad_file [a_png; notes_txt; b_jpg; c_jpeg] "b.JPG")
           ["out"%string]).
  vm_compute. reflexivity.
Defined.

(** X8.  Every file a run writes lies in a directory that, like every
    directory above it, was there before the run or was created by the run.
    The run creates only directories that were missing, each once, and each
    is the mirror, under the output root, of the directory of an eligible
    entry, or a directory on the way to one. *)
Theorem saved_directories_created (w : world) (out_dir : list string) :
  let files := filter supported (rglob w) in
  Z.of_nat (List.length files) < 2 ^ 53 ->
  exists st,
    run w out_dir = Ok st /\
    (forall d n f, In (d, n, f) (saved st) ->
       forall a, In a (ancestors d) -> dir_exists w a = true \/ In a (dirs st)) /\
    (forall d, In d (dirs st) ->
       dir_exists w d = false /\
       exists p, In p files /\ In d (ancestors (out_dir ++ path_parent p))) /\
    NoDup (dirs st).
Proof.
  intros files Hn. destruct (run_total w out_dir Hn) as (st & Er).
  exists st. split; [exact Er | ].
  destruct (run_effects w out_dir st Er) as (Es & _ & Hnd & Hd & Hc).
  fold files in Es, Hd, Hc.
  split; [ | split; [ | exact Hnd]].
  - intros d n f Hin a Ha. rewrite Es in Hin.
    apply in_flat_map in Hin. destruct Hin as (p & Hp & Hin).
    destruct (cropped w out_dir p) eqn:Ec; [ | destruct Hin].
    destruct Hin as [Hin | []]. unfold saved_entry in Hin.
    injection Hin as <- _ _. exact (Hc p Hp Ec a Ha).
  - intros d Hin. destruct (Hd d Hin) as (Hx & p & Hp & Ha & _).
    split; [exact Hx | ]. exists p. split; [apply in_rev; exact Hp | exact Ha].
Qed.

Lemma saved_directories_created_witness :
  let w := calm_world [a_png; notes_txt; b_jpg] (Ok [one_face]) in
  exists st,
    run w ["out"%string] = Ok st /\
    (forall d n f, In (d, n, f) (saved st) ->
       forall a, In a (ancestors d) -> dir_exists w a = true \/ In a (dirs st)) /\
    (forall d, In d (dirs st) ->
       dir_exists w d = false /\
       exists p, In p [a_png; b_jpg] /\
                 In d (ancestors (["out"%string] ++ path_parent p))) /\
    NoDup (dirs st).
Proof.
  apply (saved_directories_created
           (calm_world [a_png; notes_txt; b_jpg] (Ok [one_face])) ["out"%string]).
  vm_compute. reflexivity.
Defined.




(** ** Progress over a run *)

(** X10.  The progress value emitted after file [k] is the exact percentage
    [100 * (k + 1) / len(files)] rounded down, or one less (binary64
    rounding can lose one, as for 29 files out of 100). *)
Theorem progress_tracks_percentage (w : world) (out_dir : list string) :
  let files := filter supported (rglob w) in
  let n := Z.of_nat (List.length files) in
  0 < n -> n < 2 ^ 31 ->
  exists st,
    run w out_dir = Ok st /\
    forall k : nat, (k < List.length files)%nat ->
      100 * (Z.of_nat k + 1) / n - 1 <= nth k (progress_values st) 0
        <= 100 * (Z.of_nat k + 1) / n.
Proof.
  intros files n Hne Hn.
  assert (Hne' : files <> []).
  { intros E. unfold n in Hne. rewrite E in Hne. cbn in Hne. lia. }
  assert (H53 : n < 2 ^ 53).
  { change (2 ^ 31) with 2147483648 in Hn. change (2 ^ 53) with 9007199254740992. lia. }
  destruct (run_logs w out_dir Hne' H53) as (st & vs & Er & _ & _ & _ & Ep & Ev).
  exists st. split; [exact Er | ]. rewrite Ep. intros k Hk.
  specialize (Ev k Hk). fold files n in Ev.
  destruct (progress_value_within_one (Z.of_nat k) n ltac:(unfold n; lia) Hn)
    as (v & E & B).
  rewrite Ev in E. injection E as <-. exact B.
Qed.

Lemma progress_tracks_percentage_witness :
  exists st,
    run (calm_world [a_png; b_jpg; c_jpeg] (Ok [])) ["out"%string] = Ok st /\
    forall k : nat, (k < 3)%nat ->
      100 * (Z.of_nat k + 1) / 3 - 1 <= nth k (progress_values st) 0
        <= 100 * (Z.of_nat k + 1) / 3.
Proof.
  apply (progress_tracks_percentage (calm_world [a_png; b_jpg; c_jpeg] (Ok []))
           ["out"%string]); vm_compute; reflexivity.
Defined.

Example progress_29_of_100 : progress_value 28 100 = Ok 28.
Proof. vm_compute. reflexivity. Qed.

(** X11.  The progress value is 100 after the last file and below 100 after
    every earlier one. *)
Theorem progress_full_only_at_end (w : world) (out_dir : list string) :
  let files := filter supported (rglob w) in
  let n := Z.of_nat (List.length files) in
  0 < n -> n < 2 ^ 31 ->
  exists st,
    run w out_dir = Ok st /\
    forall k : nat, (k < List.length files)%nat ->
      (nth k (progress_values st) 0 = 100 <-> S k = List.length files).
Proof.
  intros files n Hne Hn.
  assert (Hne' : files <> []).
  { intros E. unfold n in Hne. rewrite E in Hne. cbn in Hne. lia. }
  assert (H53 : n < 2 ^ 53).
  { change (2 ^ 31) with 2147483648 in Hn. change (2 ^ 53) with 9007199254740992. lia. }
  destruct (run_logs w out_dir Hne' H53) as (st & vs & Er & _ & _ & _ & Ep & Ev).
  exists st. split; [exact Er | ]. rewrite Ep. intros k Hk.
  specialize (Ev k Hk). fold files n in Ev. split.
  - intros E100.
    destruct (progress_value_within_one (Z.of_nat k) n ltac:(unfold n; lia) Hn)
      as (v & E & B).
    rewrite Ev in E. injection E as <-. rewrite E100 in B.
    destruct (Nat.eq_dec (S k) (List.length files)) as [ | Ne]; [assumption | exfalso].
    assert (Hlt : Z.of_nat k + 1 < n) by (unfold n; lia).
    assert (100 * (Z.of_nat k + 1) / n < 100); [ | lia].
    apply Z.div_lt_upper_bound; lia.
  - intros Ek.
    replace (Z.of_nat k) with (n - 1) in Ev by (unfold n; lia).
    rewrite progress_value_last in Ev by lia. congruence.
Qed.

Lemma progress_full_only_at_end_witness :
  exists st,
    run (calm_world [a_png; b_jpg; c_jpeg] (Ok [])) ["out"%string] = Ok st /\
    forall k : nat, (k < 3)%nat ->
      (nth k (progress_values st) 0 = 100 <-> S k = 3%nat).
Proof.
  apply (progress_full_only_at_end (calm_world [a_png; b_jpg; c_jpeg] (Ok []))
           ["out"%string]); vm_compute; reflexivity.
Defined.

(** ** The face the wrapper selects *)

Lemma max_from_missing_area :
  forall (l : list face) (best : face) (best_key : Z),
  forallb has_facial_area l = false ->
  max_from area_key best best_key l = Raise (KeyError "facial_area").
Proof.
  induction l as [ | d l IH]; intros best bk H; [discriminate | ].
  cbn [forallb] in H. cbn [max_from].
  destruct d as [[a | ]]; cbn [area_key get_facial_area facial_area bind].
  - cbn [has_facial_area facial_area andb] in H.
    destruct (bk <? area_w a * area_h a); apply IH; exact H.
  - reflexivity.
Qed.

Lemma faces_with_areas (faces : list face) :
  forallb has_facial_area faces = true ->
  exists areas, faces = map face_with areas.
Proof.
  induction faces as [ | d faces IH]; intros H.
  - exists []. reflexivity.
  - cbn [forallb] in H. apply andb_prop in H. destruct H as [Hd Hl].
    destruct (IH Hl) as (areas & ->).
    destruct d as [[a | ]]; [ | discriminate].
    exists (a :: areas). reflexivity.
Qed.

Lemma forallb_existsb_areas (faces : list face) :
  forallb has_facial_area faces = true -> faces <> [] ->
  existsb has_facial_area faces = true.
Proof.
  destruct faces as [ | d faces]; [congruence | ].
  cbn [forallb existsb]. intros H _. apply andb_prop in H. destruct H as [-> _].
  reflexivity.
Qed.

(** X12.  When the detector answers with candidates that all carry an area,
    the wrapper returns the box [(x, y, x + w, y + h)] of the candidate of
    largest area [w * h], the first one among equals. *)
Theorem largest_face_selected
  (w : world) (img img_np : image) (areas : list area) :
  to_array w img = Ok img_np ->
  extract_faces w img_np = Ok (map face_with areas) ->
  (0 < List.length areas)%nat ->
  exists before a after,
    areas = (before ++ a :: after)%list /\
    (forall x, In x before -> area_w x * area_h x < area_w a * area_h a) /\
    (forall x, In x after -> area_w x * area_h x <= area_w a * area_h a) /\
    get_face_bbox w img = Ok (Some (box_of a)).
Proof.
  intros Ea Ef Hne.
  assert (Hne' : areas <> []) by (intros E; rewrite E in Hne; inversion Hne).
  destruct (select_face_largest_first (map face_with areas) areas eq_refl Hne')
    as (before & a & after & E & Hb & Hafter & Es).
  exists before, a, after. split; [exact E | split; [exact Hb | split; [exact Hafter | ]]].
  unfold get_face_bbox. rewrite Ea. cbn [bind]. rewrite Ef, Es. reflexivity.
Qed.

Lemma largest_face_selected_witness :
  exists before a after,
    two_small_faces = (before ++ a :: after)%list /\
    (forall x, In x before -> area_w x * area_h x < area_w a * area_h a) /\
    (forall x, In x after -> area_w x * area_h x <= area_w a * area_h a) /\
    get_face_bbox (calm_world [a_png] (Ok (map face_with two_small_faces))) sample_image
    = Ok (Some (box_of a)).
Proof.
  apply (largest_face_selected
           (calm_world [a_png] (Ok (map face_with two_small_faces)))
           sample_image sample_image two_small_faces).
  - reflexivity.
  - reflexivity.
  - vm_compute. lia.
Defined.

Example largest_face_tie :
  get_face_bbox (calm_world [a_png] (Ok (map face_with two_small_faces))) sample_image
  = Ok (Some (40, 8, 60, 38)).
Proof. reflexivity. Qed.

(** X13.  Once the image is converted, the wrapper finds a face exactly when
    the detector returns, without raising, a non-empty list in which every
    candidate carries an area; in every other case (an exception, an empty
    list, one candidate without area) it returns no box and does not
    raise. *)
Theorem face_found_iff_all_candidates_have_area
  (w : world) (img img_np : image) :
  to_array w img = Ok img_np ->
  (exists r, get_face_bbox w img = Ok r) /\
  ((exists bb, get_face_bbox w img = Ok (Some bb)) <->
   (exists faces, extract_faces w img_np = Ok faces /\
                  (0 < List.length faces)%nat /\
                  forallb has_facial_area faces = true)).
Proof.
  intros Ea. unfold get_face_bbox. rewrite Ea. cbn [bind].
  split; [eexists; reflexivity | ]. split.
  - intros (bb & E).
    destruct (extract_faces w img_np) as [faces | e]; [ | discriminate].
    exists faces. split; [reflexivity | ].
    destruct faces as [ | d faces]; [discriminate | ].
    split; [cbn; lia | ].
    destruct (forallb has_facial_area (d :: faces)) eqn:Hall; [reflexivity | exfalso].
    unfold select_face in E. cbn [bind orb] in E.
    destruct (negb (existsb has_facial_area (d :: faces))); [discriminate | ].
    unfold py_max in E. cbn [forallb] in Hall.
    destruct d as [[a | ]]; cbn [area_key get_facial_area facial_area bind] in E.
    + cbn [has_facial_area facial_area andb] in Hall.
      rewrite (max_from_missing_area _ _ _ Hall) in E. discriminate.
    + discriminate.
  - intros (faces & Ef & Hne & Hall). rewrite Ef.
    destruct (faces_with_areas faces Hall) as (areas & ->).
    assert (Hne' : areas <> []).
    { intros E. rewrite E in Hne. inversion Hne. }
    destruct (select_face_largest_first (map face_with areas) areas eq_refl Hne')
      as (before & a & after & _ & _ & _ & Es).
    rewrite Es. eexists. reflexivity.
Qed.

Lemma face_found_iff_all_candidates_have_area_witness :
  (exists r, get_face_bbox (calm_world [a_png] (Ok [no_area; one_face])) sample_image
             = Ok r) /\
  ((exists bb, get_face_bbox (calm_world [a_png] (Ok [no_area; one_face])) sample_image
               = Ok (Some bb)) <->
   (exists faces, extract_faces (calm_world [a_png] (Ok [no_area; one_face])) sample_image
                  = Ok faces /\
                  (0 < List.length faces)%nat /\
                  forallb has_facial_area faces = true)).
Proof.
  apply (face_found_iff_all_candidates_have_area
           (calm_world [a_png] (Ok [no_area; one_face])) sample_image sample_image).
  reflexivity.
Defined.

(** ** The main window *)



Lemma replay_keeps (path_exists : string -> bool) (pf : platform) :
  forall (evs : list event) (g : window) (k : nat) (g' : window) (k' : nat),
  window_ok g k ->
  replay path_exists pf evs g k = Some (g', k') ->
  window_ok g' k'.
Proof.
  induction evs as [ | e rest IH]; intros g k g' k' Hok Hr; cbn [replay] in Hr.
  - injection Hr as <- <-. exact Hok.
  - destruct e as [s | s | | | s].
    + refine (IH _ _ _ _ _ Hr). exact Hok.
    + refine (IH _ _ _ _ _ Hr). exact Hok.
    + destruct (btn_run g) eqn:Eb; [ | exact (IH _ _ _ _ Hok Hr)].
      refine (IH _ _ _ _ _ Hr).
      destruct Hok as ([(-> & _) | (_ & Hb & _)] & Hp); [ | congruence].
      unfold window_ok, start_task.
      destruct (String.eqb (in_edit g) "" || String.eqb (out_edit g) "")%bool;
        cbn [btn_run btn_open_folder pool dialogs].
      * split; [left; split; [reflexivity | exact Eb] | ].
        rewrite filter_app, length_app. cbn. lia.
      * split; [right; repeat split | ].
        rewrite length_app. cbn. lia.
    + destruct (btn_open_folder g) eqn:Eb; [ | exact (IH _ _ _ _ Hok Hr)].
      refine (IH _ _ _ _ _ Hr).
      unfold window_ok, open_output_folder in *.
      destruct (path_exists (out_edit g));
        cbn [btn_run btn_open_folder pool dialogs].
      * exact Hok.
      * destruct Hok as (Hs & Hp). split; [exact Hs | ].
        rewrite filter_app, length_app. cbn. lia.
    + destruct k as [ | k]; [discriminate | ].
      refine (IH _ _ _ _ _ Hr).
      destruct Hok as ([(Hk & _) | (Hk & Hb & Ho)] & Hp); [discriminate | ].
      injection Hk as ->.
      unfold window_ok.
      destruct s as [m | v | ];
        cbn [deliver on_log on_progress on_finished btn_run btn_open_folder pool dialogs].
      * split; [right; repeat split; assumption | exact Hp].
      * split; [right; repeat split; assumption | exact Hp].
      * split; [left; split; reflexivity | ].
        rewrite filter_app, length_app. cbn. lia.
Qed.



(** X15. One batch at a time: from the freshly built window, whatever the
    user types or clicks and whatever signals running workers send, at most
    one worker is running; while it runs Run and Open Output Folder are both
    disabled, and when none runs Run is enabled.  The workers started are
    the running one and those whose "Done" box has been shown. *)
Theorem one_batch_at_a_time (path_exists : string -> bool) (pf : platform)
  (evs : list event) (g : window) (running : nat) :
  replay path_exists pf evs new_window 0 = Some (g, running) ->
  (running <= 1)%nat /\
  (running = 1%nat -> btn_run g = false /\ btn_open_folder g = false) /\
  (running = 0%nat -> btn_run g = true) /\
  List.length (pool g) = (running + List.length (filter is_done (dialogs g)))%nat.
Proof.
  intros Hr.
  assert (H0 : window_ok new_window 0).
  { split; [left; split; reflexivity | reflexivity]. }
  destruct (replay_keeps path_exists pf evs _ _ _ _ H0 Hr)
    as ([(-> & Hb) | (-> & Hb & Ho)] & Hp).
  - split; [lia | ]. split; [discriminate | ]. split; [intros _; exact Hb | exact Hp].
  - split; [lia | ]. split; [intros _; split; assumption | ].
    split; [discriminate | exact Hp].
Qed.

Lemma one_batch_at_a_time_witness :
  let evs := [ClickRun; EditIn "in"; EditOut "out"; ClickOpen; ClickRun; ClickRun;
              Arrive (SigLog LogNoImages); ClickOpen; Arrive SigFinished; ClickRun;
              Arrive (SigProgress 100)] in
  exists g,
    replay (fun _ => true) OtherPlatform evs new_window 0 = Some (g, 1%nat) /\
    btn_run g = false /\ btn_open_folder g = false /\
    List.length (pool g) = 2%nat.
Proof.
  cbv zeta.
  eexists. split; [vm_compute; reflexivity | ].
  match goal with
  | |- btn_run ?g = _ /\ _ =>
      destruct (one_batch_at_a_time (fun _ => true) OtherPlatform
        [ClickRun; EditIn "in"; EditOut "out"; ClickOpen; ClickRun; ClickRun;
         Arrive (SigLog LogNoImages); ClickOpen; Arrive SigFinished; ClickRun;
         Arrive (SigProgress 100)] g 1%nat) as (_ & Hb & _ & Hp)
  end.
  - vm_compute. reflexivity.
  - destruct (Hb eq_refl) as (B1 & B2).
    split; [exact B1 | ]. split; [exact B2 | ]. vm_compute. reflexivity.
Defined.
